(** * glf_scheduler: a shallow embedding of the millisecond event scheduler

    The development follows [arduino/libraries/glf_scheduler/glf_scheduler.cpp]
    and its header.  The schedule table is the C array [schedlist] of
    [MAX_SCHED+1] records, the library's file-scope variables are gathered in
    the record [state], and everything the library reads from the hardware
    ([millis()], [digitalRead()], the ADC data registers) is gathered in
    the record [env].  Every C function is a Rocq function that takes the
    state and returns its result together with the new state.

    Integer types are those of avr-gcc: [char] is a signed 8-bit integer,
    [unsigned char] is 8 bits, [unsigned int] is 16 bits and
    [unsigned long] is 32 bits; each is a [Z] with the wrap-around written
    out where the C code stores a value. *)

From Stdlib Require Import ZArith Bool Lia.
From stdpp Require Import base list.

Local Open Scope Z_scope.

(** ** Integer conversions *)

Definition to_uchar (x : Z) : Z := x mod 256.
Definition to_schar (x : Z) : Z := (x + 128) mod 256 - 128.
Definition to_uint (x : Z) : Z := x mod 65536.
Definition to_ulong (x : Z) : Z := x mod 4294967296.

(** C truth value of an integer. *)
Definition truthy (x : Z) : bool := negb (x =? 0).

(** ** Compile-time configuration *)

(** The two builds selected by [#if(defined(__ATtinyX5__))]. *)
Inductive platform : Set := ATtinyX5 | Arduino.

Definition MAX_DIGITAL_PIN (p : platform) : Z :=
  match p with ATtinyX5 => 5 | Arduino => 13 end.

Definition MAX_ANALOG_PIN (p : platform) : Z :=
  match p with ATtinyX5 => 3 | Arduino => 5 end.

Definition MAX_SCHED : Z := 10.

Definition DEBOUNCE_THRESH_UP : Z := 15.
Definition DEBOUNCE_THRESH_DOWN : Z := 5.
Definition DEBOUNCE_THRESH_MAX : Z := 20.
Definition DEBOUNCE_THRESH_BOTTOM : Z := 0.

Definition HIGH : Z := 1.
Definition LOW : Z := 0.

(** ** The schedule table *)

(** [typedef struct { ... } sched;] *)
Record sched : Set := mk_sched {
  id : Z;               (* volatile unsigned char *)
  laststate : Z;        (* volatile unsigned char *)
  debounce_ct : Z;      (* volatile char *)
  debounce_state : Z;   (* volatile unsigned char *)
  debounce_change : Z;  (* volatile unsigned char *)
  event_ct_up : Z;      (* volatile unsigned int *)
  event_ct_down : Z;    (* volatile unsigned int *)
  active : Z;           (* volatile unsigned char *)
  recurring : Z;        (* volatile unsigned char *)
  schedtime : Z;        (* volatile unsigned long *)
  schedms : Z           (* volatile unsigned long *)
}.

Definition set_id (v : Z) (s : sched) : sched :=
  mk_sched v (laststate s) (debounce_ct s) (debounce_state s) (debounce_change s)
    (event_ct_up s) (event_ct_down s) (active s) (recurring s) (schedtime s) (schedms s).
Definition set_laststate (v : Z) (s : sched) : sched :=
  mk_sched (id s) v (debounce_ct s) (debounce_state s) (debounce_change s)
    (event_ct_up s) (event_ct_down s) (active s) (recurring s) (schedtime s) (schedms s).
Definition set_debounce_ct (v : Z) (s : sched) : sched :=
  mk_sched (id s) (laststate s) v (debounce_state s) (debounce_change s)
    (event_ct_up s) (event_ct_down s) (active s) (recurring s) (schedtime s) (schedms s).
Definition set_debounce_state (v : Z) (s : sched) : sched :=
  mk_sched (id s) (laststate s) (debounce_ct s) v (debounce_change s)
    (event_ct_up s) (event_ct_down s) (active s) (recurring s) (schedtime s) (schedms s).
Definition set_debounce_change (v : Z) (s : sched) : sched :=
  mk_sched (id s) (laststate s) (debounce_ct s) (debounce_state s) v
    (event_ct_up s) (event_ct_down s) (active s) (recurring s) (schedtime s) (schedms s).
Definition set_event_ct_up (v : Z) (s : sched) : sched :=
  mk_sched (id s) (laststate s) (debounce_ct s) (debounce_state s) (debounce_change s)
    v (event_ct_down s) (active s) (recurring s) (schedtime s) (schedms s).
Definition set_event_ct_down (v : Z) (s : sched) : sched :=
  mk_sched (id s) (laststate s) (debounce_ct s) (debounce_state s) (debounce_change s)
    (event_ct_up s) v (active s) (recurring s) (schedtime s) (schedms s).
Definition set_active (v : Z) (s : sched) : sched :=
  mk_sched (id s) (laststate s) (debounce_ct s) (debounce_state s) (debounce_change s)
    (event_ct_up s) (event_ct_down s) v (recurring s) (schedtime s) (schedms s).
Definition set_recurring (v : Z) (s : sched) : sched :=
  mk_sched (id s) (laststate s) (debounce_ct s) (debounce_state s) (debounce_change s)
    (event_ct_up s) (event_ct_down s) (active s) v (schedtime s) (schedms s).
Definition set_schedtime (v : Z) (s : sched) : sched :=
  mk_sched (id s) (laststate s) (debounce_ct s) (debounce_state s) (debounce_change s)
    (event_ct_up s) (event_ct_down s) (active s) (recurring s) v (schedms s).
Definition set_schedms (v : Z) (s : sched) : sched :=
  mk_sched (id s) (laststate s) (debounce_ct s) (debounce_state s) (debounce_change s)
    (event_ct_up s) (event_ct_down s) (active s) (recurring s) (schedtime s) v.

(** A zero-filled record, the content of static storage at program start. *)
Definition sched_zero : sched := mk_sched 0 0 0 0 0 0 0 0 0 0 0.

(** ** The library's variables *)

Record state : Set := mk_state {
  schedlist : list sched;          (* static sched schedlist[MAX_SCHED+1] *)
  sched_analoglist : list Z;       (* static unsigned int [MAX_ANALOG_PIN+1] *)
  sched_count : Z;                 (* static char *)
  sched_priorms : Z;               (* static unsigned long *)
  sched_num_analogs : Z;           (* static unsigned char *)
  sched_current_analog : Z;        (* static unsigned char *)
  sched_initialized : Z;           (* static volatile char *)
  sched_ISR_installed : Z;         (* static volatile char *)
  alog_val : Z;                    (* static volatile unsigned int *)
  ahigh : Z;                       (* static volatile uint8_t *)
  alow : Z;                        (* static volatile uint8_t *)
  admux : Z                        (* the ADMUX register *)
}.

Definition set_schedlist (v : list sched) (st : state) : state :=
  mk_state v (sched_analoglist st) (sched_count st) (sched_priorms st)
    (sched_num_analogs st) (sched_current_analog st) (sched_initialized st)
    (sched_ISR_installed st) (alog_val st) (ahigh st) (alow st) (admux st).
Definition set_sched_analoglist (v : list Z) (st : state) : state :=
  mk_state (schedlist st) v (sched_count st) (sched_priorms st)
    (sched_num_analogs st) (sched_current_analog st) (sched_initialized st)
    (sched_ISR_installed st) (alog_val st) (ahigh st) (alow st) (admux st).
Definition set_sched_count (v : Z) (st : state) : state :=
  mk_state (schedlist st) (sched_analoglist st) v (sched_priorms st)
    (sched_num_analogs st) (sched_current_analog st) (sched_initialized st)
    (sched_ISR_installed st) (alog_val st) (ahigh st) (alow st) (admux st).
Definition set_sched_priorms (v : Z) (st : state) : state :=
  mk_state (schedlist st) (sched_analoglist st) (sched_count st) v
    (sched_num_analogs st) (sched_current_analog st) (sched_initialized st)
    (sched_ISR_installed st) (alog_val st) (ahigh st) (alow st) (admux st).
Definition set_sched_num_analogs (v : Z) (st : state) : state :=
  mk_state (schedlist st) (sched_analoglist st) (sched_count st) (sched_priorms st)
    v (sched_current_analog st) (sched_initialized st)
    (sched_ISR_installed st) (alog_val st) (ahigh st) (alow st) (admux st).
Definition set_sched_current_analog (v : Z) (st : state) : state :=
  mk_state (schedlist st) (sched_analoglist st) (sched_count st) (sched_priorms st)
    (sched_num_analogs st) v (sched_initialized st)
    (sched_ISR_installed st) (alog_val st) (ahigh st) (alow st) (admux st).
Definition set_sched_initialized (v : Z) (st : state) : state :=
  mk_state (schedlist st) (sched_analoglist st) (sched_count st) (sched_priorms st)
    (sched_num_analogs st) (sched_current_analog st) v
    (sched_ISR_installed st) (alog_val st) (ahigh st) (alow st) (admux st).
Definition set_sched_ISR_installed (v : Z) (st : state) : state :=
  mk_state (schedlist st) (sched_analoglist st) (sched_count st) (sched_priorms st)
    (sched_num_analogs st) (sched_current_analog st) (sched_initialized st)
    v (alog_val st) (ahigh st) (alow st) (admux st).
Definition set_adc (lo hi v mux : Z) (st : state) : state :=
  mk_state (schedlist st) (sched_analoglist st) (sched_count st) (sched_priorms st)
    (sched_num_analogs st) (sched_current_analog st) (sched_initialized st)
    (sched_ISR_installed st) v hi lo mux.

(** [schedlist[pos]] read as a whole record, and [schedlist[pos].f = v]
    written as [wr pos (set_f v)]. *)
Definition rd (st : state) (pos : Z) : sched :=
  default sched_zero (schedlist st !! Z.to_nat pos).

Definition wr (pos : Z) (f : sched -> sched) (st : state) : state :=
  set_schedlist (alter f (Z.to_nat pos) (schedlist st)) st.

(** The variables as the C start-up code leaves them: static storage is
    zero-filled, and the three ADC scratch variables carry initialisers. *)
Definition boot_state (p : platform) : state :=
  mk_state (replicate (Z.to_nat (MAX_SCHED + 1)) sched_zero)
    (replicate (Z.to_nat (MAX_ANALOG_PIN p + 1)) 0)
    0 0 0 0 0 0 1023 3 255 0.

(** ** The environment *)

(** What one call or one interrupt reads from the platform: the
    millisecond counter, the instantaneous level of each digital pin and
    the two ADC data registers. *)
Record env : Type := mk_env {
  millis : Z;                (* unsigned long millis() *)
  digitalRead : Z -> bool;   (* HIGH or LOW *)
  ADCL : Z;
  ADCH : Z
}.

(** [for (i = i0; ...; i++)] executed [n] times on an accumulator. *)
Fixpoint for_up {A : Type} (n : nat) (i : Z) (body : Z -> A -> A) (a : A) : A :=
  match n with
  | O => a
  | S k => for_up k (i + 1) body (body i a)
  end.

(** The identifier scan that opens every public function:
[[
    for (i=0; i<sched_count; i++)
      if (ident == schedlist[i].id) pos = i;
]]
    It returns the final values of [i] and [pos]; [ident] is a [char] and
    the stored id an [unsigned char], both promoted to [int] by [==]. *)
Fixpoint scan_ids (ident : Z) (st : state) (n : nat) (i pos : Z) : Z * Z :=
  match n with
  | O => (i, pos)
  | S k => scan_ids ident st k (i + 1) (if ident =? id (rd st i) then i else pos)
  end.

Definition find_ident (ident : Z) (st : state) : Z * Z :=
  scan_ids ident st (Z.to_nat (sched_count st)) 0 (-1).

(** [(id >= 0) && (id <= MAX_DIGITAL_PIN)]: the slot watches a pin. *)
Definition is_pin (p : platform) (s : sched) : bool :=
  (0 <=? id s) && (id s <=? MAX_DIGITAL_PIN p).

(** ** sched_list_init *)

Definition clear_slot (s : sched) : sched :=
  set_debounce_state LOW (set_debounce_change 0 (set_event_ct_down 0
    (set_event_ct_up 0 (set_schedms 0 (set_schedtime 0 (set_recurring 0
      (set_active 0 (set_laststate 0 (set_id 0 s))))))))).

Definition sched_list_init (p : platform) (e : env) (num_analogs_toscan : Z)
    (st : state) : state :=
  let st := set_sched_initialized 0 st in
  let st := for_up (Z.to_nat MAX_SCHED) 0 (fun i => wr i clear_slot) st in
  let num := if MAX_ANALOG_PIN p + 1 <? num_analogs_toscan
             then MAX_ANALOG_PIN p + 1 else num_analogs_toscan in
  let st := set_sched_num_analogs num st in
  let st := for_up (Z.to_nat (MAX_ANALOG_PIN p + 1)) 0
              (fun i s => set_sched_analoglist
                            (<[Z.to_nat i := 0]> (sched_analoglist s)) s)
              st in
  let st := set_sched_current_analog 0 st in
  let st := set_sched_count 0 st in
  let st := set_sched_priorms (millis e) st in
  let st := if truthy (sched_ISR_installed st) then st
            else set_sched_ISR_installed 1 st in
  set_sched_initialized 1 st.

(** ** sched_event and sched_cancel *)

(** The writes go to [schedlist[pos]], except the two that the source
    addresses through the loop variable [i], which holds [sched_count]'s
    value from before the call once the scan has finished. *)
Definition sched_event (p : platform) (e : env) (ident recur ms : Z)
    (st : state) : Z * state :=
  let timems := millis e in
  let '(i, pos) := find_ident ident st in
  let '(pos, st) :=
    if pos <? 0 then
      if sched_count st <? MAX_SCHED
      then (sched_count st, set_sched_count (sched_count st + 1) st)
      else (pos, st)
    else (pos, st) in
  if 0 <=? pos then
    let st := wr pos (set_id (to_uchar ident)) st in
    let st := wr pos (set_schedtime (to_ulong (ms + timems))) st in
    let st := wr pos (set_schedms ms) st in
    let st := wr pos (set_recurring (to_uchar recur)) st in
    let st := wr pos (set_event_ct_up 0) st in
    let st := wr pos (set_event_ct_down 0) st in
    let st := wr pos (set_active 1) st in
    let st :=
      if negb (truthy recur) && (ms =? 0)
      then wr pos (set_active 0) st else st in
    let st :=
      if is_pin p (rd st pos) then
        let st :=
          wr pos (set_laststate (Z.b2z (digitalRead e (id (rd st pos))))) st in
        if truthy (laststate (rd st pos)) then
          let st := wr pos (set_debounce_ct DEBOUNCE_THRESH_MAX) st in
          let st := wr i (set_debounce_change 0) st in
          wr i (set_debounce_state HIGH) st
        else
          let st := wr pos (set_debounce_ct DEBOUNCE_THRESH_BOTTOM) st in
          let st := wr i (set_debounce_change 0) st in
          wr i (set_debounce_state LOW) st
      else st in
    (1, st)
  else (0, st).

Definition sched_cancel (p : platform) (e : env) (ident : Z) (st : state)
    : Z * state :=
  sched_event p e ident 0 0 st.

(** ** sched_check0: timer expiry and one debounce cycle *)

(** The block under [/* Time is up! */]: every access in it goes to
    [schedlist[pos]], so it is given as a function on that record, read
    once, updated field by field in the order of the source and written
    back by [sched_check0].  [e] supplies [digitalRead]. *)
Definition expire_slot (p : platform) (e : env) (s : sched) : sched :=
  let debounce := 1 in
  let '(debounce, s) :=
    if truthy (recurring s) then
      let s := set_schedtime (to_ulong (schedtime s + schedms s)) s in
      if schedms s =? 0
      then (0, set_schedtime (to_ulong (schedtime s + 1)) s)
      else (debounce, s)
    else (debounce, set_active 0 s) in
  if is_pin p s then
    let s := set_laststate (Z.b2z (digitalRead e (id s))) s in
    if truthy (laststate s) then
      let s :=
        if negb (truthy debounce)
        then set_debounce_ct DEBOUNCE_THRESH_MAX s
        else set_debounce_ct (to_schar (debounce_ct s + 1)) s in
      if DEBOUNCE_THRESH_UP <? debounce_ct s then
        let s := set_debounce_ct DEBOUNCE_THRESH_MAX s in
        let s :=
          if negb (truthy (debounce_state s)) then
            let s := set_debounce_change (to_uchar (debounce_change s + 1)) s in
            set_event_ct_up (to_uint (event_ct_up s + 1)) s
          else s in
        set_debounce_state HIGH s
      else s
    else
      let s :=
        if negb (truthy debounce)
        then set_debounce_ct DEBOUNCE_THRESH_BOTTOM s
        else set_debounce_ct (to_schar (debounce_ct s - 1)) s in
      if debounce_ct s <? DEBOUNCE_THRESH_DOWN then
        let s := set_debounce_ct DEBOUNCE_THRESH_BOTTOM s in
        let s :=
          if truthy (debounce_state s) then
            let s := set_debounce_change (to_uchar (debounce_change s + 1)) s in
            set_event_ct_down (to_uint (event_ct_down s + 1)) s
          else s in
        set_debounce_state LOW s
      else s
  else s.

Definition sched_check0 (p : platform) (e : env) (pos : Z) (st : state)
    : Z * state :=
  let timems := millis e in
  if (pos <? 0) || (sched_count st <=? pos) then (0, st)
  else if truthy (active (rd st pos)) then
    if schedtime (rd st pos) <=? timems
    then (1, wr pos (fun _ => expire_slot p e (rd st pos)) st)
    else (0, st)
  else (0, st).

(** ** sched_pin_test0 and the three pin queries *)

Definition sched_pin_test0 (pos level delta : Z) (st : state) : Z * state :=
  if (pos <? 0) || (sched_count st <=? pos) then (0, st)
  else if truthy (active (rd st pos)) then
    let changes := debounce_change (rd st pos) in
    let st := wr pos (set_debounce_change 0) st in
    if negb (truthy delta) then (debounce_state (rd st pos), st)
    else if truthy changes then
      if truthy level then
        if truthy (debounce_state (rd st pos)) then (1, st) else (0, st)
      else
        if negb (truthy (debounce_state (rd st pos))) then (1, st) else (0, st)
    else (0, st)
  else (0, st).

Definition sched_pin_gohigh (ident : Z) (st : state) : Z * state :=
  let '(_, pos) := find_ident ident st in
  if pos <? 0 then (0, st) else sched_pin_test0 pos 1 1 st.

Definition sched_pin_golow (ident : Z) (st : state) : Z * state :=
  let '(_, pos) := find_ident ident st in
  if pos <? 0 then (0, st) else sched_pin_test0 pos 0 1 st.

Definition sched_pin_level (ident level : Z) (st : state) : Z * state :=
  let '(_, pos) := find_ident ident st in
  if pos <? 0 then (0, st) else sched_pin_test0 pos level 0 st.

(** ** sched_analogread *)

(** [None] stands for a read past the end of [sched_analoglist], which has
    [MAX_ANALOG_PIN+1] elements. *)
Definition sched_analogread (pin : Z) (st : state) : option Z :=
  if sched_num_analogs st <? pin then Some 0
  else sched_analoglist st !! Z.to_nat pin.

(** ** sched_check *)

Definition sched_check (p : platform) (e : env) (ident : Z) (st : state)
    : Z * state :=
  let '(_, pos) := find_ident ident st in
  if pos <? 0 then (0, st) else sched_check0 p e pos st.

(** ** sched_pin_event_count *)

(** The function as the foreground runs it when no interrupt arrives
    during the call: each [do ... while] body then runs once, because the
    second read of the counter agrees with the first.  The locals [holdup]
    and [holddown] have no initialiser in the source; the one that the
    queried direction does not assign keeps its indeterminate start value,
    given here as [holdup0] and [holddown0]. *)
Definition sched_pin_event_count (ident level reset : Z)
    (holdup0 holddown0 : Z) (st : state) : Z * state :=
  let '(_, pos) := find_ident ident st in
  if pos <? 0 then (0, st)
  else
    let '(val, holdup, holddown) :=
      if truthy level
      then (event_ct_up (rd st pos), event_ct_up (rd st pos), holddown0)
      else (event_ct_down (rd st pos), holdup0, event_ct_down (rd st pos)) in
    let st :=
      if truthy reset then
        let st :=
          if negb (event_ct_up (rd st pos) =? holdup)
          then wr pos (set_event_ct_up 1) st
          else wr pos (set_event_ct_up 0) st in
        if negb (event_ct_down (rd st pos) =? holddown)
        then wr pos (set_event_ct_down 1) st
        else wr pos (set_event_ct_down 0) st
      else st in
    (val, st).

(** ** The timer interrupt *)

(** The ADC block of [sched_background_int], as compiled where [ADCSRA],
    [ADCL] and [ADMUX] exist: harvest the finished conversion, advance the
    ring position, select the next channel. *)
Definition analog_scan (e : env) (st : state) : state :=
  if truthy (sched_num_analogs st) then
    let lo := to_uchar (ADCL e) in
    let hi := to_uchar (ADCH e) in
    let v := to_uint (Z.lor (Z.shiftl hi 8) lo) in
    let st :=
      set_sched_analoglist
        (<[Z.to_nat (sched_current_analog st) := v]> (sched_analoglist st)) st in
    let st :=
      set_sched_current_analog (to_uchar (sched_current_analog st + 1)) st in
    let st :=
      if sched_num_analogs st <=? sched_current_analog st
      then set_sched_current_analog 0 st else st in
    let cur := sched_current_analog st in
    let mux := Z.lor 64 (if (1 <=? cur) && (cur <=? 5) then cur else 0) in
    set_adc lo hi v mux st
  else st.

(** The body of the pin loop of [sched_background_int]:
[[
    if ((schedlist[i].id >= 0) && (schedlist[i].id <= MAX_DIGITAL_PIN))
      toss = sched_check0(i);
]] *)
Definition pin_loop_body (p : platform) (e : env) (i : Z) (st : state) : state :=
  if is_pin p (rd st i) then snd (sched_check0 p e i st) else st.

Definition sched_background_int (p : platform) (e : env) (st : state) : state :=
  let timems := millis e in
  let st := set_sched_priorms timems st in
  let st := analog_scan e st in
  for_up (Z.to_nat (sched_count st)) 0 (pin_loop_body p e) st.

(** [ISR(TIMER0_COMPB_vect)]: one invocation per millisecond. *)
Definition ISR (p : platform) (e : env) (st : state) : state :=
  if truthy (sched_initialized st) then sched_background_int p e st else st.

(** ** sched_pin_event_count under preemption *)

(** In the foreground the interrupt can be taken between any two accesses
    of the volatile counters.  The function is therefore also given as a
    machine that performs one access per step; a schedule interleaves
    these steps with invocations of [ISR]. *)
Inductive pc : Set :=
  | PcRead                (* hold = counter; val = hold; *)
  | PcTest                (* while (hold != counter); if (reset) *)
  | PcCheckUp             (* if (event_ct_up != holdup) *)
  | PcWriteUp (v : Z)     (* event_ct_up = v; *)
  | PcCheckDown           (* if (event_ct_down != holddown) *)
  | PcWriteDown (v : Z)   (* event_ct_down = v; *)
  | PcDone.               (* return val; *)

Record frame : Set := mk_frame {
  f_pc : pc;
  f_pos : Z;
  f_level : Z;
  f_reset : Z;
  f_val : Z;
  f_holdup : Z;
  f_holddown : Z
}.

Definition goto (l : pc) (f : frame) : frame :=
  mk_frame l (f_pos f) (f_level f) (f_reset f) (f_val f) (f_holdup f) (f_holddown f).

(** Entry of the call: the identifier scan, which touches nothing the
    interrupt writes. *)
Definition count_enter (ident level reset holdup0 holddown0 : Z) (st : state)
    : frame :=
  let '(_, pos) := find_ident ident st in
  if pos <? 0 then mk_frame PcDone pos level reset 0 holdup0 holddown0
  else mk_frame PcRead pos level reset 0 holdup0 holddown0.

Definition count_step (f : frame) (st : state) : frame * state :=
  let s := rd st (f_pos f) in
  match f_pc f with
  | PcRead =>
      if truthy (f_level f)
      then (mk_frame PcTest (f_pos f) (f_level f) (f_reset f)
              (event_ct_up s) (event_ct_up s) (f_holddown f), st)
      else (mk_frame PcTest (f_pos f) (f_level f) (f_reset f)
              (event_ct_down s) (f_holdup f) (event_ct_down s), st)
  | PcTest =>
      let again :=
        if truthy (f_level f)
        then negb (f_holdup f =? event_ct_up s)
        else negb (f_holddown f =? event_ct_down s) in
      if again then (goto PcRead f, st)
      else if truthy (f_reset f) then (goto PcCheckUp f, st)
      else (goto PcDone f, st)
  | PcCheckUp =>
      if negb (event_ct_up s =? f_holdup f)
      then (goto (PcWriteUp 1) f, st) else (goto (PcWriteUp 0) f, st)
  | PcWriteUp v => (goto PcCheckDown f, wr (f_pos f) (set_event_ct_up v) st)
  | PcCheckDown =>
      if negb (event_ct_down s =? f_holddown f)
      then (goto (PcWriteDown 1) f, st) else (goto (PcWriteDown 0) f, st)
  | PcWriteDown v => (goto PcDone f, wr (f_pos f) (set_event_ct_down v) st)
  | PcDone => (f, st)
  end.

(** One entry of a schedule: the foreground performs its next access, or
    the timer interrupt is served. *)
Inductive slice : Type :=
  | Fg
  | Irq (e : env).

Definition run_slice (p : platform) (x : slice) (c : frame * state)
    : frame * state :=
  match x with
  | Fg => count_step (fst c) (snd c)
  | Irq e => (fst c, ISR p e (snd c))
  end.

Definition run_schedule (p : platform) (xs : list slice) (c : frame * state)
    : frame * state :=
  foldl (fun c x => run_slice p x c) c xs.

(** ** Driving the scheduler *)

(** Consecutive milliseconds starting after [t]: in each, the counter
    advances by one and the interrupt is served with what the hardware
    shows in that millisecond. *)
Definition at_time (t : Z) (e : env) : env :=
  mk_env t (digitalRead e) (ADCL e) (ADCH e).

Fixpoint run_ticks (p : platform) (t : Z) (es : list env) (st : state) : state :=
  match es with
  | [] => st
  | e :: rest => run_ticks p (t + 1) rest (ISR p (at_time (t + 1) e) st)
  end.

(** An environment in which every pin shows the same level. *)
Definition all_pins (t : Z) (b : bool) : env := mk_env t (fun _ => b) 0 0.

(** * Predicates and scenarios used in the statements *)

(** Shape of the table in every state the program reaches: the array has
    its [MAX_SCHED+1] elements, [sched_count] stays within capacity and
    every stored id is an [unsigned char]. *)
Definition wf (st : state) : Prop :=
  length (schedlist st) = 11%nat /\
  0 <= sched_count st <= MAX_SCHED /\
  forall i, 0 <= id (rd st i) < 256.

(** Ten manual timers, ids 20 to 29, armed after initialisation: a full
    table. *)
Definition full_table : state :=
  foldl (fun st k => snd (sched_event Arduino (all_pins 0 false) k 1 100 st))
    (sched_list_init Arduino (all_pins 0 false) 0 (boot_state Arduino))
    [20; 21; 22; 23; 24; 25; 26; 27; 28; 29].

(** The scenario of the specification on the Arduino build: the table is
    initialised without analog scanning, pin 6 idles LOW and is armed as a
    recurring 1 ms debounce slot, then shows HIGH for 20 ms and LOW for
    20 ms. *)
Definition scene_init : state :=
  sched_list_init Arduino (all_pins 0 false) 0 (boot_state Arduino).

Definition scene_armed : state :=
  snd (sched_event Arduino (all_pins 0 false) 6 1 1 scene_init).

Definition scene_high : state :=
  run_ticks Arduino 0 (replicate 20 (all_pins 0 true)) scene_armed.

Definition scene_low : state :=
  run_ticks Arduino 20 (replicate 20 (all_pins 0 false)) scene_high.

(** A manual timer, id 20, armed at millisecond 0 as a recurring
    1000 ms slot on the initialised table. *)
Definition timer_armed : state :=
  snd (sched_event Arduino (all_pins 0 false) 20 1 1000 scene_init).

(** What one interrupt does to one record of the table: the expiry block
    runs when the record watches a pin, is active and is due. *)
Definition tick_slot (p : platform) (e : env) (s : sched) : sched :=
  if is_pin p s && truthy (active s) && (schedtime s <=? millis e)
  then expire_slot p e s else s.

(** Pin 6 armed as a zero-period recurring slot while LOW, then one
    millisecond HIGH and one millisecond LOW: one rising and one falling
    edge have been counted and the confirmed level is LOW. *)
Definition race_state : state :=
  run_ticks Arduino 0 [all_pins 0 true; all_pins 0 false]
    (snd (sched_event Arduino (all_pins 0 false) 6 1 0 scene_init)).

(** A resetting query of the rising count of pin 6, preempted once by the
    interrupt of millisecond 3, in which the pin shows HIGH.  In
    [early_irq] the interrupt is served after the stable read and before
    the comparison that opens the reset; in [late_irq] it is served after
    that comparison and before the store. *)
Definition early_irq : list slice :=
  [Fg; Fg; Irq (all_pins 3 true); Fg; Fg; Fg; Fg].

Definition late_irq : list slice :=
  [Fg; Fg; Fg; Irq (all_pins 3 true); Fg; Fg; Fg].

(** Pin 6 registered while LOW, then registered again at millisecond 5
    while HIGH. *)
Definition rearmed_high : state :=
  snd (sched_event Arduino (all_pins 5 true) 6 1 1 scene_armed).

(** What may happen to a cancelled slot before it is armed again: further
    cancellations of the same id and timer interrupts.  [run_quiet] is a
    schedule, not a function of the source: it serves each interrupt
    between two calls and none while a call of [sched_cancel] is in
    progress.  The source leaves interrupts enabled during the call, so
    this is a condition on the run, and the statement about [run_quiet]
    carries it. *)
Inductive quiet_op : Type :=
  | QCancel (e : env)
  | QTick (e : env).

Definition run_quiet (p : platform) (ident : Z) (ops : list quiet_op)
    (st : state) : state :=
  foldl (fun st o =>
           match o with
           | QCancel e => snd (sched_cancel p e ident st)
           | QTick e => ISR p e st
           end) st ops.

(** The state of a cancelled slot. *)
Definition cancelled (ident pos : Z) (st : state) : Prop :=
  wf st /\ snd (find_ident ident st) = pos /\
  active (rd st pos) = 0 /\
  event_ct_up (rd st pos) = 0 /\ event_ct_down (rd st pos) = 0.

(** Polling a timer once per millisecond: in each millisecond the
    interrupt is served first and the foreground then calls
    [sched_check ident]; the results are collected in order. *)
Fixpoint run_polled (p : platform) (ident : Z) (t : Z) (es : list env)
    (st : state) : list Z * state :=
  match es with
  | [] => ([], st)
  | e :: rest =>
      let st := ISR p (at_time (t + 1) e) st in
      let '(r, st) := sched_check p (at_time (t + 1) e) ident st in
      let '(rs, st) := run_polled p ident (t + 1) rest st in
      (r :: rs, st)
  end.

(** The cadence the specification asks of a recurring timer of period
    [P]: with [left] milliseconds to go until the first expiry, the poll
    of a millisecond answers 1 exactly when the countdown reaches it, and
    the countdown restarts from [P]. *)
Fixpoint cadence (P left : Z) (n : nat) : list Z :=
  match n with
  | O => []
  | S k => if left =? 1 then 1 :: cadence P P k
           else 0 :: cadence P (left - 1) k
  end.

(** A registered recurring timer slot outside the pin range, with period
    [P] and due time [T]. *)
Definition timer_slot (p : platform) (ident pos P T : Z) (st : state) : Prop :=
  wf st /\ snd (find_ident ident st) = pos /\ 0 <= pos /\
  is_pin p (rd st pos) = false /\
  truthy (active (rd st pos)) = true /\
  truthy (recurring (rd st pos)) = true /\
  schedms (rd st pos) = P /\ schedtime (rd st pos) = T.

(** Seven as a recurring 1000 ms timer on the Arduino build, where pins 0
    to 13 are watched by the interrupt. *)
Definition seven_armed : state :=
  snd (sched_event Arduino (all_pins 0 false) 7 1 1000 scene_init).

(** The initialised table of the ATtiny build, where only pins 0 to 5 are
    watched and 7 is a manual timer id. *)
Definition tiny_init : state :=
  sched_list_init ATtinyX5 (all_pins 0 false) 0 (boot_state ATtinyX5).

(** Three expiries in 3500 ms, at milliseconds 1000, 2000 and 3000. *)
Definition three_in_3500 : list Z :=
  replicate 999 0 ++ [1] ++ replicate 999 0 ++ [1] ++
  replicate 999 0 ++ [1] ++ replicate 500 0.







(** * The library as a whole *)

(** One call of a public function of the library by the foreground, or
    one service of the timer interrupt. *)
Inductive op : Type :=
  | OpInit (e : env) (num_analogs_toscan : Z)
  | OpEvent (e : env) (ident recur ms : Z)
  | OpCancel (e : env) (ident : Z)
  | OpCheck (e : env) (ident : Z)
  | OpGoHigh (ident : Z)
  | OpGoLow (ident : Z)
  | OpLevel (ident level : Z)
  | OpCount (ident level reset holdup0 holddown0 : Z)
  | OpISR (e : env).

Definition run_op (p : platform) (o : op) (st : state) : state :=
  match o with
  | OpInit e n => sched_list_init p e n st
  | OpEvent e ident recur ms => snd (sched_event p e ident recur ms st)
  | OpCancel e ident => snd (sched_cancel p e ident st)
  | OpCheck e ident => snd (sched_check p e ident st)
  | OpGoHigh ident => snd (sched_pin_gohigh ident st)
  | OpGoLow ident => snd (sched_pin_golow ident st)
  | OpLevel ident level => snd (sched_pin_level ident level st)
  | OpCount ident level reset h1 h2 =>
      snd (sched_pin_event_count ident level reset h1 h2 st)
  | OpISR e => ISR p e st
  end.

Definition run_ops (p : platform) (ops : list op) (st : state) : state :=
  foldl (fun st o => run_op p o st) st ops.

(** The identifier an operation registers, if it registers one. *)
Definition op_ident (o : op) : option Z :=
  match o with
  | OpEvent _ ident _ _ => Some ident
  | OpCancel _ ident => Some ident
  | _ => None
  end.

(** Every identifier registered by [ops] is a non-negative [char]. *)
Definition nonneg_idents (ops : list op) : Prop :=
  forall o ident, In o ops -> op_ident o = Some ident -> 0 <= ident <= 127.

(** No two registered slots carry the same id. *)
Definition unique_ids (st : state) : Prop :=
  forall i j, 0 <= i < sched_count st -> 0 <= j < sched_count st ->
    id (rd st i) = id (rd st j) -> i = j.

(** [st'] has the registration of [st]: the same number of slots, the
    same array length and the same id in every element. *)
Definition same_registration (st st' : state) : Prop :=
  sched_count st' = sched_count st /\
  length (schedlist st') = length (schedlist st) /\
  forall j, 0 <= j -> id (rd st' j) = id (rd st j).

(** The three pin queries of the foreground. *)
Inductive pin_query : Set :=
  | QHigh
  | QLow
  | QLevel (level : Z).

Definition run_query (q : pin_query) (ident : Z) (st : state) : Z * state :=
  match q with
  | QHigh => sched_pin_gohigh ident st
  | QLow => sched_pin_golow ident st
  | QLevel level => sched_pin_level ident level st
  end.

(** * The debounce engine *)


(** Operations that register or clear slots. *)
Definition registers (o : op) : bool :=
  match o with
  | OpInit _ _ | OpEvent _ _ _ _ | OpCancel _ _ => true
  | _ => false
  end.

(** The expiry block applied to one record once per reading. *)
Fixpoint serve (p : platform) (es : list env) (s : sched) : sched :=
  match es with
  | [] => s
  | e :: rest => serve p rest (expire_slot p e s)
  end.

(** A registered, active, recurring pin-watch slot of period 0 or 1 in an
    initialised table at millisecond [t], due no later than the next
    millisecond. *)
Definition live_slot (p : platform) (ident pos t : Z) (st : state) : Prop :=
  wf st /\ truthy (sched_initialized st) = true /\
  snd (find_ident ident st) = pos /\ 0 <= pos /\
  is_pin p (rd st pos) = true /\
  truthy (active (rd st pos)) = true /\
  truthy (recurring (rd st pos)) = true /\
  0 <= schedms (rd st pos) <= 1 /\
  0 <= schedtime (rd st pos) <= t + 1.

(** Every reading of pin [ident] in [es] is [b]. *)
Definition all_read (ident : Z) (b : bool) (es : list env) : Prop :=
  Forall (fun e => digitalRead e ident = b) es.

(** A recurring pin-watch record with a non-zero period: its debounce
    cycle smooths. *)
Definition smoothing (p : platform) (s : sched) : Prop :=
  is_pin p s = true /\ truthy (recurring s) = true /\ schedms s <> 0.

(** * The analog sampler *)

(** The 16-bit value the interrupt assembles from the ADC data registers. *)
Definition sample (e : env) : Z :=
  to_uint (Z.lor (Z.shiftl (to_uchar (ADCH e)) 8) (to_uchar (ADCL e))).

(** The sampler's variables are consistent: the buffer has its
    [MAX_ANALOG_PIN+1] elements, the scan count does not exceed that, the
    ring position lies inside the scanned range, and the elements at or
    beyond the scan count hold 0. *)
Definition analog_ok (p : platform) (st : state) : Prop :=
  length (sched_analoglist st) = Z.to_nat (MAX_ANALOG_PIN p + 1) /\
  0 <= sched_num_analogs st <= MAX_ANALOG_PIN p + 1 /\
  0 <= sched_current_analog st /\
  (sched_current_analog st < sched_num_analogs st \/
   sched_current_analog st = 0) /\
  forall c v, sched_num_analogs st <= c ->
    sched_analoglist st !! Z.to_nat c = Some v -> v = 0.

(** [st'] has the sampler variables of [st]. *)
Definition same_analog (st st' : state) : Prop :=
  sched_analoglist st' = sched_analoglist st /\
  sched_num_analogs st' = sched_num_analogs st /\
  sched_current_analog st' = sched_current_analog st.

(** Every [sched_list_init] in [ops] is passed an [unsigned char]. *)
Definition uchar_inits (ops : list op) : Prop :=
  forall e n, In (OpInit e n) ops -> 0 <= n <= 255.

(** * Manual timers *)

(** A registered, active, non-recurring slot outside the pin range, due
    at [T]. *)
Definition oneshot_slot (p : platform) (ident pos T : Z) (st : state) : Prop :=
  wf st /\ snd (find_ident ident st) = pos /\ 0 <= pos /\
  is_pin p (rd st pos) = false /\
  truthy (active (rd st pos)) = true /\
  truthy (recurring (rd st pos)) = false /\
  schedtime (rd st pos) = T.

(** A registered slot that is not active. *)
Definition spent_slot (ident pos : Z) (st : state) : Prop :=
  wf st /\ snd (find_ident ident st) = pos /\ 0 <= pos /\
  truthy (active (rd st pos)) = false.

(** * The sketch pulsedial_key.ino *)

(** The pin assignment, selected at compile time by [CORE_TEENSY]. *)
Record board : Type := mk_board {
  core_teensy : bool;
  led_dialing_pin : Z;
  now_dialing_in_pin : Z;
  dial_pulse_in_pin : Z
}.

Definition teensy_board : board := mk_board true 11 2 6.
Definition arduino_board : board := mk_board false 13 7 6.

(** What the sketch sends: to the serial port, or as key strokes where
    [CORE_TEENSY] is defined. *)
Inductive output : Type :=
  | PrintBanner     (* Serial.println("GLF 2015/05/19 -- ...") *)
  | Print (n : Z)   (* Serial.print(numdigit) / Keyboard.print(numdigit) *)
  | Println.        (* Serial.println() / Keyboard.println() *)

(** The sketch's variables: those of the library, the [static char state]
    of [loop], the level last written to [led_dialing_pin] and what has
    been sent so far, oldest first. *)
Record sketch : Type := mk_sketch {
  lib : state;
  loop_state : Z;
  led : Z;
  out : list output
}.

Definition set_lib (st : state) (sk : sketch) : sketch :=
  mk_sketch st (loop_state sk) (led sk) (out sk).

(** One entry of a trace of the running sketch: the timer interrupt is
    served, or the foreground takes its next turn (one evaluation of the
    condition of the wait in [setup], one call of [loop]).  A foreground
    turn carries what it reads from the platform and the indeterminate
    start values of the locals of [sched_pin_event_count]. *)
Inductive turn : Type :=
  | Interrupt (e : env)
  | Foreground (e : env) (holdup0 holddown0 : Z).

(** [setup] up to the wait; each library call reads the platform on its
    own.  [pinMode] and [Serial.begin] change nothing that is modelled. *)
Definition setup_begin (b : board) (p : platform) (e0 e1 e2 e3 : env)
    (st : state) : sketch :=
  let led := LOW in
  let st := sched_list_init p e0 0 st in
  let st := snd (sched_event p e1 (dial_pulse_in_pin b) 1 1 st) in
  let st := snd (sched_event p e2 (now_dialing_in_pin b) 1 1 st) in
  let st := snd (sched_event p e3 20 0 1000 st) in
  mk_sketch st 0 led (if core_teensy b then [] else [PrintBanner]).

(** [while (!(sched_check(20))) {}] along a trace: the state on leaving
    the loop and the rest of the trace, or [None] when the trace ends
    with the loop still waiting. *)
Fixpoint setup_wait (p : platform) (ts : list turn) (st : state)
    : option (state * list turn) :=
  match ts with
  | [] => None
  | Interrupt e :: rest => setup_wait p rest (ISR p e st)
  | Foreground e _ _ :: rest =>
      let '(r, st) := sched_check p e 20 st in
      if truthy r then Some (st, rest) else setup_wait p rest st
  end.

Definition setup (b : board) (p : platform) (e0 e1 e2 e3 : env)
    (ts : list turn) (st : state) : option (sketch * list turn) :=
  let sk := setup_begin b p e0 e1 e2 e3 st in
  match setup_wait p ts (lib sk) with
  | Some (st, rest) => Some (set_lib st sk, rest)
  | None => None
  end.

(** One call of [loop], taken as one foreground turn. *)
Definition loop (b : board) (p : platform) (e : env) (holdup0 holddown0 : Z)
    (sk : sketch) : sketch :=
  if loop_state sk =? 0 then
    let '(r, st) := sched_pin_golow (now_dialing_in_pin b) (lib sk) in
    if truthy r then
      let st := snd (sched_event p e 20 0 5000 st) in
      let led := HIGH in
      let '(numpulses, st) :=
        sched_pin_event_count (dial_pulse_in_pin b) 1 1 holdup0 holddown0 st in
      let led := HIGH in
      mk_sketch st 1 led (out sk)
    else mk_sketch st (loop_state sk) (led sk) (out sk)
  else if loop_state sk =? 1 then
    let '(r, st) := sched_pin_gohigh (now_dialing_in_pin b) (lib sk) in
    if truthy r then
      let led := LOW in
      let '(numpulses, st) :=
        sched_pin_event_count (dial_pulse_in_pin b) 1 1 holdup0 holddown0 st in
      let numdigit := numpulses in
      let numdigit := if 9 <? numdigit then 0 else numdigit in
      let out := if 0 <? numpulses then out sk ++ [Print numdigit]
                 else out sk in
      mk_sketch st 0 led out
    else
      let '(r, st) := sched_check p e 20 st in
      if truthy r then
        let led := LOW in
        let '(numpulses, st) :=
          sched_pin_event_count (dial_pulse_in_pin b) 1 1 holdup0 holddown0
            st in
        mk_sketch st 0 led (out sk ++ [Println])
      else mk_sketch st (loop_state sk) (led sk) (out sk)
  else sk.

Definition sketch_turn (b : board) (p : platform) (t : turn) (sk : sketch)
    : sketch :=
  match t with
  | Interrupt e => set_lib (ISR p e (lib sk)) sk
  | Foreground e holdup0 holddown0 => loop b p e holdup0 holddown0 sk
  end.

Definition run_sketch (b : board) (p : platform) (ts : list turn)
    (sk : sketch) : sketch :=
  foldl (fun sk t => sketch_turn b p t sk) sk ts.

(** A foreground turn that reads the clock before [T]. *)
Definition early (T : Z) (t : turn) : Prop :=
  match t with
  | Interrupt _ => True
  | Foreground e _ _ => millis e < T
  end.

(** The LED is lit exactly during a dialing period. *)
Definition led_shows_dialing (sk : sketch) : Prop :=
  (loop_state sk = 0 /\ led sk = LOW) \/ (loop_state sk = 1 /\ led sk = HIGH).

(** A single decimal digit or a line feed. *)
Definition digit_or_newline (o : output) : Prop :=
  match o with
  | PrintBanner => False
  | Print n => 0 <= n <= 9
  | Println => True
  end.

(** ** A dialing session, millisecond by millisecond *)

(** One millisecond of a session: what the platform shows in it, and the
    calls of [loop] the foreground completes in it, each with the
    indeterminate start values of the locals of [sched_pin_event_count]. *)
Definition ms_round : Type := env * list (Z * Z).

(** The trace of consecutive milliseconds after [t]: in each, the
    interrupt is served first, then [loop] runs its calls.  [session] is
    a schedule, not a function of the source: no interrupt is served
    while a call of [loop] is in progress.  The source leaves interrupts
    enabled during the call, so this is a condition on the run, and every
    statement about [session] carries it. *)
Fixpoint session (t : Z) (rs : list ms_round) : list turn :=
  match rs with
  | [] => []
  | r :: rest =>
      Interrupt (at_time (t + 1) (fst r)) ::
      map (fun j => Foreground (at_time (t + 1) (fst r)) (fst j) (snd j))
        (snd r) ++
      session (t + 1) rest
  end.

(** In every millisecond of [rs] the two input pins show [now] and
    [dial]. *)
Definition shows (b : board) (now dial : bool) (rs : list ms_round) : Prop :=
  all_read (now_dialing_in_pin b) now (map fst rs) /\
  all_read (dial_pulse_in_pin b) dial (map fst rs).

(** [loop] completes at least one call in every millisecond of [rs]. *)
Definition loop_keeps_up (rs : list ms_round) : Prop :=
  Forall (fun r => snd r <> []) rs.

(** One pulse of the dial: the pulse pin shows HIGH for the milliseconds
    [fst pl], then LOW for the milliseconds [snd pl], each at least 16
    long, while the dialing pin stays LOW. *)
Definition pulse (b : board) (pl : list ms_round * list ms_round) : Prop :=
  shows b false true (fst pl) /\ shows b false false (snd pl) /\
  (16 <= length (fst pl))%nat /\ (16 <= length (snd pl))%nat.

Definition pulse_rounds (pls : list (list ms_round * list ms_round))
    : list ms_round :=
  concat (map (fun pl => fst pl ++ snd pl) pls).

(** The sketch's three registrations are in place at millisecond [t], in
    slots [N] (dialing pin), [D] (pulse pin) and [T] (timer 20); both
    pins are debounced with period 1. *)
Definition wired (b : board) (p : platform) (N D T t : Z) (st : state)
    : Prop :=
  live_slot p (now_dialing_in_pin b) N t st /\ schedms (rd st N) = 1 /\
  live_slot p (dial_pulse_in_pin b) D t st /\ schedms (rd st D) = 1 /\
  snd (find_ident 20 st) = T /\ 0 <= T /\ N <> D.

(** The confirmed level of a pin record is LOW and stays so under LOW
    readings. *)
Definition rests_low (s : sched) : Prop :=
  debounce_state s = 0 /\ 0 <= debounce_ct s <= 15.

(** The confirmed level is HIGH and stays so under HIGH readings. *)
Definition rests_high (s : sched) : Prop :=
  debounce_state s = 1 /\ 5 <= debounce_ct s <= 20.

(** The handset rests: [loop] waits in state 0 with the LED off, the
    dialing pin is confirmed HIGH with no change pending, the pulse pin
    is confirmed LOW. *)
Definition on_hook (b : board) (p : platform) (N D T t : Z) (sk : sketch)
    : Prop :=
  wired b p N D T t (lib sk) /\
  loop_state sk = 0 /\ led sk = LOW /\
  rests_high (rd (lib sk) N) /\ debounce_change (rd (lib sk) N) = 0 /\
  rests_low (rd (lib sk) D).

(** The handset is off the hook: [loop] is in state 1 with the LED lit,
    the dialing pin is confirmed LOW with no change pending, and the
    time-out is armed for [due]. *)
Definition off_hook (b : board) (p : platform) (N D T t due : Z)
    (sk : sketch) : Prop :=
  wired b p N D T t (lib sk) /\
  loop_state sk = 1 /\ led sk = HIGH /\
  rests_low (rd (lib sk) N) /\ debounce_change (rd (lib sk) N) = 0 /\
  truthy (active (rd (lib sk) T)) = true /\
  truthy (recurring (rd (lib sk) T)) = false /\
  schedtime (rd (lib sk) T) = due.

(** A dialing period is under way between two pulses: the pulse pin is
    confirmed LOW with [k] rising edges counted. *)
Definition dialing (b : board) (p : platform) (N D T t due k : Z)
    (sk : sketch) : Prop :=
  off_hook b p N D T t due sk /\
  rests_low (rd (lib sk) D) /\ event_ct_up (rd (lib sk) D) = k.

(** One millisecond of a session run from [sk]. *)
Definition run_round (b : board) (p : platform) (t : Z) (r : ms_round)
    (sk : sketch) : sketch :=
  run_sketch b p
    (map (fun j => Foreground (at_time (t + 1) (fst r)) (fst j) (snd j))
       (snd r))
    (set_lib (ISR p (at_time (t + 1) (fst r)) (lib sk)) sk).

(** What one dialing of [k] pulses sends. *)
Definition dialed (k : Z) : list output :=
  if 0 <? k then [Print (if 9 <? k then 0 else k)] else [].

(** ** A concrete session on the Arduino wiring *)

(** What the two input pins show: [now] on pin 7, [dial] on pin 6. *)
Definition handset (now dial : bool) : env :=
  mk_env 0 (fun pin => if pin =? 7 then now else if pin =? 6 then dial
                       else false) 0 0.

(** A millisecond with that reading in which [loop] runs once. *)
Definition millisecond (now dial : bool) : ms_round :=
  (handset now dial, [(0, 0)]).

(** The sketch as [setup] arms it at power-up with the handset at rest. *)
Definition rest_sketch : sketch :=
  setup_begin arduino_board Arduino (handset true false) (handset true false)
    (handset true false) (handset true false) (boot_state Arduino).

(** * Ids outside the pin range *)

(** No change is pending on any record that is unused or does not watch
    a pin. *)
Definition unwatched (p : platform) (st : state) : Prop :=
  forall j, 0 <= j ->
    sched_count st <= j \/ is_pin p (rd st j) = false ->
    debounce_change (rd st j) = 0.

(** The interrupt entries of a schedule. *)
Fixpoint interrupts_of (xs : list slice) : list slice :=
  match xs with
  | [] => []
  | Fg :: rest => interrupts_of rest
  | Irq e :: rest => Irq e :: interrupts_of rest
  end.
(** * Properties *)

(** ** The table as an array *)

Lemma rd_wr_eq pos f st :
  0 <= pos < Z.of_nat (length (schedlist st)) ->
  rd (wr pos f st) pos = f (rd st pos).
Proof.
  intros Hpos. unfold rd, wr. simpl.
  rewrite list_lookup_alter_eq.
  destruct (schedlist st !! Z.to_nat pos) eqn:E; [reflexivity|].
  apply lookup_ge_None in E. lia.
Qed.

Lemma rd_wr_ne pos j f st :
  0 <= pos -> 0 <= j -> pos <> j -> rd (wr pos f st) j = rd st j.
Proof.
  intros Hp Hj Hne. unfold rd, wr. simpl.
  rewrite list_lookup_alter_ne; [reflexivity|lia].
Qed.

Lemma length_wr pos f st :
  length (schedlist (wr pos f st)) = length (schedlist st).
Proof. unfold wr. simpl. apply length_alter. Qed.

Lemma rd_wr pos j f st :
  0 <= pos < Z.of_nat (length (schedlist st)) -> 0 <= j ->
  rd (wr pos f st) j = if pos =? j then f (rd st j) else rd st j.
Proof.
  intros Hp Hj. destruct (Z.eqb_spec pos j) as [->|Hne].
  - apply rd_wr_eq. exact Hp.
  - apply rd_wr_ne; lia.
Qed.

Lemma id_rd_wr pos j f st :
  (forall s, id (f s) = id s) -> id (rd (wr pos f st) j) = id (rd st j).
Proof.
  intros Hid. unfold rd, wr. simpl.
  destruct (decide (Z.to_nat pos = Z.to_nat j)) as [E|E].
  - rewrite E, list_lookup_alter_eq.
    destruct (schedlist st !! Z.to_nat j); simpl; [apply Hid|reflexivity].
  - rewrite list_lookup_alter_ne by exact E. reflexivity.
Qed.

Lemma wf_wr pos f st :
  (forall s, id (f s) = id s) -> wf st -> wf (wr pos f st).
Proof.
  intros Hid (Hl & Hc & Hr). unfold wf. rewrite length_wr.
  split; [exact Hl|]. split; [exact Hc|].
  intros i. rewrite id_rd_wr by exact Hid. apply Hr.
Qed.

Lemma wf_slot_bound st pos :
  wf st -> 0 <= pos <= sched_count st ->
  0 <= pos < Z.of_nat (length (schedlist st)).
Proof. unfold wf, MAX_SCHED. intros (Hl & Hc & _) Hp. rewrite Hl. lia. Qed.

(** ** The identifier scan *)

Lemma scan_ids_index ident st n : forall i pos,
  fst (scan_ids ident st n i pos) = i + Z.of_nat n.
Proof.
  induction n as [|n IH]; intros i pos; simpl scan_ids.
  - simpl. lia.
  - rewrite IH. lia.
Qed.

Lemma scan_ids_none ident st n : forall i pos,
  (forall j, i <= j < i + Z.of_nat n -> id (rd st j) <> ident) ->
  snd (scan_ids ident st n i pos) = pos.
Proof.
  induction n as [|n IH]; intros i pos Hno; simpl scan_ids; [reflexivity|].
  destruct (Z.eqb_spec ident (id (rd st i))) as [E|E].
  - exfalso. apply (Hno i); [lia|congruence].
  - apply IH. intros j Hj. apply Hno. lia.
Qed.

(** What the scan leaves in [pos]: the start value, or the last index in
    the scanned range whose id equals [ident]. *)
Lemma scan_ids_spec ident st n : forall i pos,
  let r := snd (scan_ids ident st n i pos) in
  (r = pos /\ forall j, i <= j < i + Z.of_nat n -> id (rd st j) <> ident) \/
  (i <= r < i + Z.of_nat n /\ id (rd st r) = ident /\
   forall j, r < j < i + Z.of_nat n -> id (rd st j) <> ident).
Proof.
  induction n as [|n IH]; intros i pos; simpl.
  - left. split; [reflexivity|]. intros j Hj. lia.
  - specialize (IH (i + 1) (if ident =? id (rd st i) then i else pos)).
    simpl in IH. destruct IH as [[Hr Hno]|[Hr [Hid Hno]]].
    + destruct (Z.eqb_spec ident (id (rd st i))) as [E|E].
      * right. rewrite Hr. split; [lia|]. split; [congruence|].
        intros j Hj. apply Hno. lia.
      * left. split; [exact Hr|]. intros j Hj.
        destruct (Z.eq_dec j i) as [->|Hji]; [congruence|]. apply Hno. lia.
    + right. split; [lia|]. split; [exact Hid|].
      intros j Hj. apply Hno. lia.
Qed.

Lemma scan_ids_ext ident st st' n : forall i pos,
  0 <= i ->
  (forall j, i <= j < i + Z.of_nat n -> id (rd st' j) = id (rd st j)) ->
  scan_ids ident st' n i pos = scan_ids ident st n i pos.
Proof.
  induction n as [|n IH]; intros i pos Hi Hsame; simpl; [reflexivity|].
  rewrite Hsame by lia. apply IH; [lia|]. intros j Hj. apply Hsame. lia.
Qed.

Lemma find_ident_index ident st :
  0 <= sched_count st -> fst (find_ident ident st) = sched_count st.
Proof. intros H. unfold find_ident. rewrite scan_ids_index. lia. Qed.

Lemma find_ident_none ident st :
  (forall i, 0 <= i < sched_count st -> id (rd st i) <> ident) ->
  snd (find_ident ident st) = -1.
Proof.
  intros Hno. unfold find_ident. apply scan_ids_none.
  intros j Hj. apply Hno. lia.
Qed.

Lemma find_ident_found ident st pos :
  snd (find_ident ident st) = pos -> 0 <= pos ->
  pos < sched_count st /\ id (rd st pos) = ident.
Proof.
  unfold find_ident. intros Hf Hpos.
  pose proof (scan_ids_spec ident st (Z.to_nat (sched_count st)) 0 (-1)) as H.
  simpl in H. rewrite Hf in H.
  destruct H as [[H _]|[H [Hid _]]]; [lia|]. split; [lia|exact Hid].
Qed.

Lemma find_ident_ext ident st st' :
  sched_count st' = sched_count st ->
  (forall j, 0 <= j < sched_count st -> id (rd st' j) = id (rd st j)) ->
  find_ident ident st' = find_ident ident st.
Proof.
  intros Hc Hsame. unfold find_ident. rewrite Hc.
  apply scan_ids_ext; [lia|]. intros j Hj. apply Hsame. lia.
Qed.

Lemma find_ident_wr ident pos f st :
  (forall s, id (f s) = id s) ->
  find_ident ident (wr pos f st) = find_ident ident st.
Proof.
  intros Hid. apply find_ident_ext; [reflexivity|].
  intros j _. apply id_rd_wr. exact Hid.
Qed.

(** ** Capacity *)

(** C9: when the table holds [MAX_SCHED] slots and none of them carries
    [ident], [sched_event] returns 0 and the state after the call is the
    state before it: no slot field, no counter and not the slot count has
    changed. *)
Theorem sched_event_full_table_fails p e ident recur ms st :
  sched_count st = MAX_SCHED ->
  (forall i, 0 <= i < sched_count st -> id (rd st i) <> ident) ->
  sched_event p e ident recur ms st = (0, st).
Proof.
  intros Hfull Hno. unfold sched_event.
  pose proof (find_ident_none ident st Hno) as Hpos.
  destruct (find_ident ident st) as [i pos]. simpl in Hpos. subst pos.
  rewrite Hfull. reflexivity.
Qed.

Lemma sched_event_full_table_fails_witness :
  sched_count full_table = MAX_SCHED /\
  sched_event Arduino (all_pins 7 true) 99 1 50 full_table = (0, full_table).
Proof.
  split; [reflexivity|].
  apply sched_event_full_table_fails; [reflexivity|].
  intros i Hi. change (sched_count full_table) with 10 in Hi.
  assert (i = 0 \/ i = 1 \/ i = 2 \/ i = 3 \/ i = 4 \/ i = 5 \/ i = 6 \/
          i = 7 \/ i = 8 \/ i = 9) as Hcases by lia.
  repeat (destruct Hcases as [->|Hcases]; [vm_compute; discriminate|]).
  subst i. vm_compute. discriminate.
Defined.

(** ** Analog buffer read *)

Lemma sched_analogread_beyond pin st :
  sched_num_analogs st < pin -> sched_analogread pin st = Some 0.
Proof.
  intros H. unfold sched_analogread.
  destruct (Z.ltb_spec (sched_num_analogs st) pin); [reflexivity|lia].
Qed.

Lemma sched_analogread_at_count st :
  sched_analogread (sched_num_analogs st) st =
  sched_analoglist st !! Z.to_nat (sched_num_analogs st).
Proof. unfold sched_analogread. rewrite Z.ltb_irrefl. reflexivity. Qed.

(** C5: with every channel scanned, the channel number equal to the scan
    count passes the guard [pin > sched_num_analogs] and the function
    indexes [sched_analoglist] one element past its end instead of
    returning 0; only channel numbers strictly above the count are
    answered with 0. *)
Theorem sched_analogread_count_not_guarded p e :
  let st := sched_list_init p e (MAX_ANALOG_PIN p + 1) (boot_state p) in
  sched_num_analogs st = MAX_ANALOG_PIN p + 1 /\
  Z.of_nat (length (sched_analoglist st)) = MAX_ANALOG_PIN p + 1 /\
  sched_analogread (MAX_ANALOG_PIN p + 1) st = None /\
  sched_analogread (MAX_ANALOG_PIN p + 2) st = Some 0.
Proof. destruct p; repeat split; reflexivity. Qed.

(** ** Arming a slot *)

Ltac rdwr :=
  repeat first
    [ rewrite Z.eqb_refl
    | rewrite rd_wr by (rewrite ?length_wr; first [lia | simpl; lia]) ].

Lemma wf_scene_init : wf scene_init.
Proof.
  split; [reflexivity|]. split; [vm_compute; split; discriminate|].
  intros i. unfold rd.
  destruct (schedlist scene_init !! Z.to_nat i) as [s|] eqn:E; simpl;
    [|lia].
  apply list_elem_of_lookup_2 in E. vm_compute in E.
  repeat (apply elem_of_cons in E as [->|E]; [simpl; lia|]).
  apply elem_of_nil in E. contradiction.
Qed.

Lemma rd_neg st i : i < 0 -> rd st i = rd st 0.
Proof.
  intros H. unfold rd. replace (Z.to_nat i) with (Z.to_nat 0) by lia.
  reflexivity.
Qed.

(** Re-registration, slot by slot.  The slot found by the scan is
    rewritten in place and receives the pin snapshot in [laststate] and
    [debounce_ct]; the snapshot of [debounce_state] and [debounce_change]
    goes to [schedlist[sched_count]], the element the loop variable [i]
    designates after the scan. *)
Lemma sched_event_found_rd p e ident recur ms st pos j :
  wf st -> snd (find_ident ident st) = pos -> 0 <= pos -> 0 <= j ->
  let r := sched_event p e ident recur ms st in
  let s := rd st pos in
  let pin := ident <=? MAX_DIGITAL_PIN p in
  rd (snd r) j =
    if j =? pos then
      mk_sched ident
        (if pin then Z.b2z (digitalRead e ident) else laststate s)
        (if pin then (if digitalRead e ident then DEBOUNCE_THRESH_MAX
                      else DEBOUNCE_THRESH_BOTTOM) else debounce_ct s)
        (debounce_state s) (debounce_change s) 0 0
        (if negb (truthy recur) && (ms =? 0) then 0 else 1)
        (to_uchar recur) (to_ulong (ms + millis e)) ms
    else if (j =? sched_count st) && pin then
      set_debounce_state (Z.b2z (digitalRead e ident))
        (set_debounce_change 0 (rd st j))
    else rd st j.
Proof.
  intros Hwf Hfind Hpos Hj r s pin.
  destruct (find_ident_found ident st pos Hfind Hpos) as [Hlt Hid].
  pose proof Hwf as (Hlen & Hcnt & Hrng).
  assert (Hu : to_uchar ident = ident).
  { unfold to_uchar. specialize (Hrng pos). rewrite Hid in Hrng.
    apply Z.mod_small. lia. }
  assert (H0 : 0 <= ident).
  { specialize (Hrng pos). rewrite Hid in Hrng. lia. }
  assert (Hi : fst (find_ident ident st) = sched_count st)
    by (apply find_ident_index; lia).
  subst r. unfold sched_event.
  destruct (find_ident ident st) as [i pos0]. simpl in Hfind, Hi. subst pos0 i.
  destruct (Z.ltb_spec pos 0) as [?|_]; [lia|].
  destruct (Z.leb_spec 0 pos) as [_|?]; [|lia].
  unfold MAX_SCHED in Hcnt.
  assert (Hpin : forall st1 a,
    is_pin p (rd (wr pos (set_active a) st1) pos) =
    is_pin p (rd st1 pos)) .
  { intros st1 a. unfold is_pin. rewrite !id_rd_wr by (intros []; reflexivity).
    reflexivity. }
  assert (Hpin0 : is_pin p (rd (wr pos (set_id ident) st) pos) = pin).
  { rdwr. unfold is_pin. simpl.
    replace (0 <=? ident) with true by (symmetry; apply Z.leb_le; lia).
    reflexivity. }
  assert (Hpin1 : forall f1 f2 f3 f4 f5 f6,
    (forall x, id (f1 x) = id x) -> (forall x, id (f2 x) = id x) ->
    (forall x, id (f3 x) = id x) -> (forall x, id (f4 x) = id x) ->
    (forall x, id (f5 x) = id x) -> (forall x, id (f6 x) = id x) ->
    is_pin p (rd (wr pos f6 (wr pos f5 (wr pos f4 (wr pos f3 (wr pos f2
      (wr pos f1 (wr pos (set_id ident) st))))))) pos) = pin).
  { intros. rewrite <- Hpin0. unfold is_pin. rewrite !id_rd_wr by assumption.
    reflexivity. }
  rewrite Hu.
  destruct (Z.eqb_spec j pos) as [->|Hjp].
  - assert (Hne : (sched_count st =? pos) = false) by (apply Z.eqb_neq; lia).
    destruct (negb (truthy recur) && (ms =? 0)).
    + rewrite Hpin, Hpin1 by (intros []; reflexivity).
      destruct pin; simpl snd.
      * rdwr. simpl id.
        destruct (digitalRead e ident); simpl; rdwr; rewrite ?Hne;
          fold s; destruct s; reflexivity.
      * rdwr. fold s. destruct s; reflexivity.
    + rewrite Hpin1 by (intros []; reflexivity).
      destruct pin; simpl snd.
      * rdwr. simpl id.
        destruct (digitalRead e ident); simpl; rdwr; rewrite ?Hne;
          fold s; destruct s; reflexivity.
      * rdwr. fold s. destruct s; reflexivity.
  - assert (Hne : (pos =? j) = false) by (apply Z.eqb_neq; lia).
    rewrite (Z.eqb_sym j (sched_count st)).
    destruct (negb (truthy recur) && (ms =? 0)).
    + rewrite Hpin, Hpin1 by (intros []; reflexivity).
      destruct pin; simpl snd.
      * rdwr. simpl id.
        destruct (digitalRead e ident); simpl; rdwr; rewrite ?Hne;
          destruct (sched_count st =? j); reflexivity.
      * rdwr. rewrite ?Hne, andb_false_r. reflexivity.
    + rewrite Hpin1 by (intros []; reflexivity).
      destruct pin; simpl snd.
      * rdwr. simpl id.
        destruct (digitalRead e ident); simpl; rdwr; rewrite ?Hne;
          destruct (sched_count st =? j); reflexivity.
      * rdwr. rewrite ?Hne, andb_false_r. reflexivity.
Qed.

Lemma sched_event_found_ret p e ident recur ms st pos :
  wf st -> snd (find_ident ident st) = pos -> 0 <= pos ->
  let r := sched_event p e ident recur ms st in
  fst r = 1 /\ sched_count (snd r) = sched_count st.
Proof.
  intros Hwf Hfind Hpos r. subst r. unfold sched_event.
  destruct (find_ident ident st) as [i pos0]. simpl in Hfind. subst pos0.
  destruct (Z.ltb_spec pos 0) as [?|_]; [lia|].
  destruct (Z.leb_spec 0 pos) as [_|?]; [|lia].
  split; [reflexivity|].
  destruct (negb (truthy recur) && (ms =? 0));
    match goal with |- context [is_pin ?a ?b] => destruct (is_pin a b) end;
    try match goal with
        | |- context [truthy (laststate ?b)] => destruct (truthy (laststate b))
        end; reflexivity.
Qed.

(** First registration, slot by slot: the new slot is
    [schedlist[sched_count]], which is also the element [i] designates, so
    the whole snapshot lands in it. *)
Lemma sched_event_fresh_rd p e ident recur ms st j :
  wf st -> snd (find_ident ident st) < 0 -> sched_count st < MAX_SCHED ->
  0 <= j ->
  let r := sched_event p e ident recur ms st in
  let s := rd st (sched_count st) in
  let pin := to_uchar ident <=? MAX_DIGITAL_PIN p in
  let level := digitalRead e (to_uchar ident) in
  rd (snd r) j =
    if j =? sched_count st then
      mk_sched (to_uchar ident)
        (if pin then Z.b2z level else laststate s)
        (if pin then (if level then DEBOUNCE_THRESH_MAX
                      else DEBOUNCE_THRESH_BOTTOM) else debounce_ct s)
        (if pin then Z.b2z level else debounce_state s)
        (if pin then 0 else debounce_change s) 0 0
        (if negb (truthy recur) && (ms =? 0) then 0 else 1)
        (to_uchar recur) (to_ulong (ms + millis e)) ms
    else rd st j.
Proof.
  intros Hwf Hfind Hroom Hj r s pin level.
  pose proof Hwf as (Hlen & Hcnt & Hrng).
  assert (Hi : fst (find_ident ident st) = sched_count st)
    by (apply find_ident_index; lia).
  assert (Hu : 0 <= to_uchar ident < 256)
    by (unfold to_uchar; apply Z.mod_pos_bound; lia).
  subst r. unfold sched_event.
  destruct (find_ident ident st) as [i pos0]. simpl in Hfind, Hi. subst i.
  destruct (Z.ltb_spec pos0 0) as [_|?]; [|lia].
  destruct (Z.ltb_spec (sched_count st) MAX_SCHED) as [_|?]; [|lia].
  destruct (Z.leb_spec 0 (sched_count st)) as [_|?]; [|lia].
  unfold MAX_SCHED in *.
  set (c := sched_count st) in *.
  set (st0 := set_sched_count (c + 1) st).
  assert (Hlen0 : length (schedlist st0) = 11%nat) by exact Hlen.
  assert (Hrd0 : forall k, rd st0 k = rd st k) by reflexivity.
  assert (Hpin0 : is_pin p (rd (wr c (set_id (to_uchar ident)) st0) c) = pin).
  { rdwr. unfold is_pin. simpl.
    replace (0 <=? to_uchar ident) with true by (symmetry; apply Z.leb_le; lia).
    reflexivity. }
  assert (Hpin1 : forall f1 f2 f3 f4 f5 f6,
    (forall x, id (f1 x) = id x) -> (forall x, id (f2 x) = id x) ->
    (forall x, id (f3 x) = id x) -> (forall x, id (f4 x) = id x) ->
    (forall x, id (f5 x) = id x) -> (forall x, id (f6 x) = id x) ->
    is_pin p (rd (wr c f6 (wr c f5 (wr c f4 (wr c f3 (wr c f2
      (wr c f1 (wr c (set_id (to_uchar ident)) st0))))))) c) = pin).
  { intros. rewrite <- Hpin0. unfold is_pin. rewrite !id_rd_wr by assumption.
    reflexivity. }
  assert (Hpin : forall st1 a,
    is_pin p (rd (wr c (set_active a) st1) c) = is_pin p (rd st1 c)).
  { intros st1 a. unfold is_pin. rewrite !id_rd_wr by (intros []; reflexivity).
    reflexivity. }
  rewrite (Z.eqb_sym j c).
  destruct (negb (truthy recur) && (ms =? 0)).
  - rewrite Hpin, Hpin1 by (intros []; reflexivity).
    destruct pin; simpl snd.
    + rdwr. simpl id. fold level.
      destruct level; simpl; rdwr; rewrite ?Hrd0;
        destruct (c =? j) eqn:E; try reflexivity;
        apply Z.eqb_eq in E; subst j; fold s; destruct s; reflexivity.
    + rdwr. rewrite ?Hrd0. destruct (c =? j) eqn:E; try reflexivity.
      apply Z.eqb_eq in E; subst j; fold s; destruct s; reflexivity.
  - rewrite Hpin1 by (intros []; reflexivity).
    destruct pin; simpl snd.
    + rdwr. simpl id. fold level.
      destruct level; simpl; rdwr; rewrite ?Hrd0;
        destruct (c =? j) eqn:E; try reflexivity;
        apply Z.eqb_eq in E; subst j; fold s; destruct s; reflexivity.
    + rdwr. rewrite ?Hrd0. destruct (c =? j) eqn:E; try reflexivity.
      apply Z.eqb_eq in E; subst j; fold s; destruct s; reflexivity.
Qed.

Lemma sched_event_fresh_ret p e ident recur ms st :
  snd (find_ident ident st) < 0 -> 0 <= sched_count st < MAX_SCHED ->
  let r := sched_event p e ident recur ms st in
  fst r = 1 /\ sched_count (snd r) = sched_count st + 1.
Proof.
  intros Hfind Hroom r. subst r. unfold sched_event.
  destruct (find_ident ident st) as [i pos0]. simpl in Hfind.
  destruct (Z.ltb_spec pos0 0) as [_|?]; [|lia].
  destruct (Z.ltb_spec (sched_count st) MAX_SCHED) as [_|?]; [|lia].
  destruct (Z.leb_spec 0 (sched_count st)) as [_|?]; [|lia].
  split; [reflexivity|].
  destruct (negb (truthy recur) && (ms =? 0));
    match goal with |- context [is_pin ?a ?b] => destruct (is_pin a b) end;
    try match goal with
        | |- context [truthy (laststate ?b)] => destruct (truthy (laststate b))
        end; reflexivity.
Qed.

(** What [sched_event] never touches. *)
Lemma sched_event_globals p e ident recur ms st :
  let st' := snd (sched_event p e ident recur ms st) in
  length (schedlist st') = length (schedlist st) /\
  sched_initialized st' = sched_initialized st /\
  sched_num_analogs st' = sched_num_analogs st /\
  sched_current_analog st' = sched_current_analog st /\
  sched_analoglist st' = sched_analoglist st.
Proof.
  unfold sched_event.
  destruct (find_ident ident st) as [i pos0].
  destruct (pos0 <? 0); [destruct (sched_count st <? MAX_SCHED)|];
    match goal with |- context [0 <=? ?x] => destruct (0 <=? x) end;
    try (simpl; repeat split; reflexivity);
    destruct (negb (truthy recur) && (ms =? 0));
    match goal with |- context [is_pin ?a ?b] => destruct (is_pin a b) end;
    try match goal with
        | |- context [truthy (laststate ?b)] => destruct (truthy (laststate b))
        end; simpl; rewrite ?length_alter; repeat split; reflexivity.
Qed.

(** ** Expiry *)

Lemma sched_check0_due p e pos st :
  0 <= pos < sched_count st ->
  truthy (active (rd st pos)) = true ->
  schedtime (rd st pos) <= millis e ->
  sched_check0 p e pos st =
    (1, wr pos (fun _ => expire_slot p e (rd st pos)) st).
Proof.
  intros Hpos Hact Hdue. unfold sched_check0.
  destruct (Z.ltb_spec pos 0) as [?|_]; [lia|].
  destruct (Z.leb_spec (sched_count st) pos) as [?|_]; [lia|].
  simpl orb. cbv iota. rewrite Hact.
  destruct (Z.leb_spec (schedtime (rd st pos)) (millis e)) as [_|?]; [|lia].
  reflexivity.
Qed.

Lemma sched_check0_idle p e pos st :
  truthy (active (rd st pos)) = false \/ millis e < schedtime (rd st pos) ->
  sched_check0 p e pos st = (0, st).
Proof.
  intros Hidle. unfold sched_check0.
  destruct ((pos <? 0) || (sched_count st <=? pos)); [reflexivity|].
  destruct (truthy (active (rd st pos))); [|reflexivity].
  destruct Hidle as [?|Hlate]; [discriminate|].
  destruct (Z.leb_spec (schedtime (rd st pos)) (millis e)) as [?|_]; [lia|].
  reflexivity.
Qed.

Lemma id_expire_slot p e s : id (expire_slot p e s) = id s.
Proof.
  unfold expire_slot.
  repeat match goal with
         | |- context [if ?c then _ else _] => destruct c; simpl
         end; reflexivity.
Qed.

(** The self-rearm of a recurring slot: the previous due time advances by
    the period, and by one more millisecond when the period is 0. *)
Lemma schedtime_expire_slot p e s :
  truthy (recurring s) = true ->
  schedtime (expire_slot p e s) =
    if schedms s =? 0 then to_ulong (to_ulong (schedtime s + schedms s) + 1)
    else to_ulong (schedtime s + schedms s).
Proof.
  intros Hrec. unfold expire_slot. rewrite Hrec. simpl schedms.
  destruct (schedms s =? 0);
    repeat match goal with
           | |- context [if ?c then _ else _] => destruct c; simpl
           end; reflexivity.
Qed.

(** Outside the pin range the expiry block only moves the due time or
    clears [active]. *)
Lemma expire_slot_timer p e s :
  is_pin p s = false ->
  expire_slot p e s =
    if truthy (recurring s) then
      set_schedtime
        (if schedms s =? 0 then to_ulong (to_ulong (schedtime s + schedms s) + 1)
         else to_ulong (schedtime s + schedms s)) s
    else set_active 0 s.
Proof.
  intros Hpin. unfold expire_slot, is_pin in *.
  destruct (truthy (recurring s)); simpl.
  - destruct (schedms s =? 0); simpl; rewrite Hpin; destruct s; reflexivity.
  - rewrite Hpin. reflexivity.
Qed.

(** ** Due time *)

(** C7, as the code has it: when [sched_event] succeeds in arming or
    re-arming a slot, its due time is the current tick plus the period,
    modulo 2^32; when [sched_check0] observes the expiry of an active
    recurring slot, the new due time is the previous due time plus the
    period modulo 2^32, and for period 0 that value plus one (again
    modulo 2^32), whatever the current tick is.  When the period is not 0
    and the slot is polled at its due tick, this is "now plus period"
    modulo 2^32. *)
Theorem due_time_arm_and_self_rearm p e ident recur ms st :
  wf st ->
  (fst (sched_event p e ident recur ms st) = 1 ->
   let pos := if 0 <=? snd (find_ident ident st)
              then snd (find_ident ident st) else sched_count st in
   schedtime (rd (snd (sched_event p e ident recur ms st)) pos) =
     to_ulong (ms + millis e)) /\
  (forall pos,
   0 <= pos < sched_count st ->
   truthy (active (rd st pos)) = true ->
   truthy (recurring (rd st pos)) = true ->
   schedtime (rd st pos) <= millis e ->
   let r := sched_check0 p e pos st in
   fst r = 1 /\
   schedtime (rd (snd r) pos) =
     (if schedms (rd st pos) =? 0
      then to_ulong (to_ulong (schedtime (rd st pos) + schedms (rd st pos)) + 1)
      else to_ulong (schedtime (rd st pos) + schedms (rd st pos))) /\
   (schedtime (rd st pos) = millis e -> schedms (rd st pos) <> 0 ->
    schedtime (rd (snd r) pos) = to_ulong (millis e + schedms (rd st pos)))).
Proof.
  intros Hwf. split.
  - intros Hok. cbv zeta.
    destruct (Z.leb_spec 0 (snd (find_ident ident st))) as [Hf|Hf]; cbv iota.
    + rewrite (sched_event_found_rd p e ident recur ms st _ _ Hwf eq_refl Hf Hf).
      rewrite Z.eqb_refl. reflexivity.
    + pose proof Hwf as (Hlen & Hcnt & Hrng).
      destruct (Z.ltb_spec (sched_count st) MAX_SCHED) as [Hroom|Hfull].
      * rewrite (sched_event_fresh_rd p e ident recur ms st (sched_count st))
          by (assumption || lia).
        rewrite Z.eqb_refl. reflexivity.
      * exfalso. revert Hok. unfold sched_event.
        destruct (find_ident ident st) as [i pos0]. simpl in Hf.
        destruct (Z.ltb_spec pos0 0) as [_|?]; [|lia].
        destruct (Z.ltb_spec (sched_count st) MAX_SCHED) as [?|_]; [lia|].
        destruct (Z.leb_spec 0 pos0) as [?|_]; [lia|]. simpl. discriminate.
  - intros pos Hpos Hact Hrec Hdue r. subst r.
    rewrite sched_check0_due by assumption. simpl fst. simpl snd.
    rewrite rd_wr_eq by (apply wf_slot_bound; [exact Hwf|lia]).
    rewrite schedtime_expire_slot by exact Hrec.
    split; [reflexivity|]. split; [reflexivity|].
    intros Hnow Hms. rewrite Hnow.
    destruct (Z.eqb_spec (schedms (rd st pos)) 0); [contradiction|reflexivity].
Qed.

Lemma due_time_arm_and_self_rearm_witness :
  schedtime (rd timer_armed 0) = 1000 /\
  schedtime
    (rd (snd (sched_check0 Arduino (all_pins 2000 false) 0
           (snd (sched_check0 Arduino (all_pins 1000 false) 0 timer_armed)))) 0)
    = 3000.
Proof.
  pose proof (due_time_arm_and_self_rearm Arduino (all_pins 0 false) 20 1 1000
                scene_init wf_scene_init) as [Harm _].
  split; [exact (Harm eq_refl)|].
  assert (Hwf : wf (snd (sched_check0 Arduino (all_pins 1000 false) 0 timer_armed))).
  { split; [reflexivity|]. split; [vm_compute; split; discriminate|].
    intros i. unfold rd.
    match goal with |- context [?l !! ?n] => destruct (l !! n) as [s|] eqn:E end;
      simpl; [|lia].
    apply list_elem_of_lookup_2 in E. vm_compute in E.
    repeat (apply elem_of_cons in E as [->|E]; [simpl; lia|]).
    apply elem_of_nil in E. contradiction. }
  pose proof (due_time_arm_and_self_rearm Arduino (all_pins 2000 false) 0 0 0
                _ Hwf) as [_ Hpoll].
  destruct (Hpoll 0) as (_ & _ & Hexact);
    [vm_compute; split; [discriminate|reflexivity] | reflexivity | reflexivity
    | vm_compute; discriminate |].
  rewrite Hexact; [reflexivity | reflexivity | vm_compute; discriminate].
Defined.

(** C7 as stated fails for the self-rearm: the timer armed at 0 for
    1000 ms and polled at 1500 fires, and its next due time is 2000, not
    1500 + 1000. *)
Lemma self_rearm_is_not_now_plus_period :
  let r := sched_check Arduino (all_pins 1500 false) 20 timer_armed in
  fst r = 1 /\
  schedtime (rd (snd r) 0) = 2000 /\
  schedtime (rd (snd r) 0) <> 1500 + schedms (rd (snd r) 0).
Proof. vm_compute. repeat split; discriminate. Qed.

(** ** Edge counters *)

Ltac wf_by_compute :=
  split; [reflexivity|]; split; [vm_compute; split; discriminate|];
  let i := fresh "i" in let s := fresh "s" in let E := fresh "E" in
  intros i; unfold rd;
  match goal with
  | |- context [?l !! ?n] => destruct (l !! n) as [s|] eqn:E
  end; simpl; [|lia];
  apply list_elem_of_lookup_2 in E; vm_compute in E;
  repeat (apply elem_of_cons in E as [->|E]; [simpl; lia|]);
  apply elem_of_nil in E; contradiction.

Lemma wf_scene_low : wf scene_low.
Proof. wf_by_compute. Qed.

Lemma wf_scene_high : wf scene_high.
Proof. wf_by_compute. Qed.

(** C10: a resetting call of [sched_pin_event_count] writes both counters
    of the slot, whatever direction is queried.  The counter of the
    queried direction ends at 0; the other one is compared with a local
    that was never assigned and ends at 0 or 1; neither keeps a count of
    two or more. *)
Theorem event_count_reset_writes_both_counters
    ident level reset holdup0 holddown0 st pos :
  wf st -> snd (find_ident ident st) = pos -> 0 <= pos ->
  truthy reset = true ->
  let st' := snd (sched_pin_event_count ident level reset holdup0 holddown0 st) in
  event_ct_up (rd st' pos) =
    (if truthy level then 0
     else if event_ct_up (rd st pos) =? holdup0 then 0 else 1) /\
  event_ct_down (rd st' pos) =
    (if truthy level
     then (if event_ct_down (rd st pos) =? holddown0 then 0 else 1)
     else 0) /\
  (event_ct_up (rd st' pos) = 0 \/ event_ct_up (rd st' pos) = 1) /\
  (event_ct_down (rd st' pos) = 0 \/ event_ct_down (rd st' pos) = 1).
Proof.
  intros Hwf Hfind Hpos Hreset st'.
  destruct (find_ident_found ident st pos Hfind Hpos) as [Hlt _].
  assert (Hb : 0 <= pos < Z.of_nat (length (schedlist st)))
    by (apply wf_slot_bound; [exact Hwf|lia]).
  subst st'. unfold sched_pin_event_count.
  destruct (find_ident ident st) as [i pos0]. simpl in Hfind. subst pos0.
  destruct (Z.ltb_spec pos 0) as [?|_]; [lia|].
  rewrite Hreset.
  destruct (truthy level); cbv iota beta; rewrite ?Z.eqb_refl; simpl negb;
    cbv iota.
  - rdwr. simpl event_ct_down.
    destruct (event_ct_down (rd st pos) =? holddown0); simpl; rdwr; simpl;
      auto.
  - destruct (event_ct_up (rd st pos) =? holdup0); simpl negb; cbv iota;
      rdwr; simpl event_ct_down; rewrite ?Z.eqb_refl; simpl negb; cbv iota;
      rdwr; simpl; rdwr; simpl; auto.
Qed.

Lemma event_count_reset_writes_both_counters_witness :
  event_ct_down (rd scene_low 0) = 1 /\
  event_ct_up (rd (snd (sched_pin_event_count 6 0 1 0 0 scene_low)) 0) = 1 /\
  event_ct_down (rd (snd (sched_pin_event_count 6 0 1 0 0 scene_low)) 0) = 0.
Proof.
  split; [reflexivity|].
  destruct (event_count_reset_writes_both_counters 6 0 1 0 0 scene_low 0
              wf_scene_low eq_refl ltac:(lia) eq_refl) as (Hup & Hdown & _).
  split; [exact Hup | exact Hdown].
Defined.

(** ** Level query *)

Lemma pin_level_on_active_slot ident level st pos :
  wf st -> snd (find_ident ident st) = pos -> 0 <= pos ->
  truthy (active (rd st pos)) = true ->
  fst (sched_pin_level ident level st) = debounce_state (rd st pos) /\
  snd (sched_pin_level ident level st) = wr pos (set_debounce_change 0) st.
Proof.
  intros Hwf Hfind Hpos Hact.
  destruct (find_ident_found ident st pos Hfind Hpos) as [Hlt _].
  assert (Hb : 0 <= pos < Z.of_nat (length (schedlist st)))
    by (apply wf_slot_bound; [exact Hwf|lia]).
  unfold sched_pin_level.
  destruct (find_ident ident st) as [i pos0]. simpl in Hfind. subst pos0.
  destruct (Z.ltb_spec pos 0) as [?|_]; [lia|].
  unfold sched_pin_test0.
  destruct (Z.ltb_spec pos 0) as [?|_]; [lia|].
  destruct (Z.leb_spec (sched_count st) pos) as [?|_]; [lia|].
  simpl orb. cbv iota. rewrite Hact. simpl. rdwr. split; reflexivity.
Qed.

(** C3, as the code has it: on an active registered slot
    [sched_pin_level] returns the confirmed level and clears
    [debounce_change] on the way, so that [sched_pin_gohigh] and
    [sched_pin_golow] issued right after it return 0. *)
Theorem sched_pin_level_clears_changed ident level st pos :
  wf st -> snd (find_ident ident st) = pos -> 0 <= pos ->
  truthy (active (rd st pos)) = true ->
  let r := sched_pin_level ident level st in
  fst r = debounce_state (rd st pos) /\
  debounce_change (rd (snd r) pos) = 0 /\
  fst (sched_pin_gohigh ident (snd r)) = 0 /\
  fst (sched_pin_golow ident (snd r)) = 0.
Proof.
  intros Hwf Hfind Hpos Hact r.
  destruct (find_ident_found ident st pos Hfind Hpos) as [Hlt _].
  assert (Hb : 0 <= pos < Z.of_nat (length (schedlist st)))
    by (apply wf_slot_bound; [exact Hwf|lia]).
  assert (Hr : r = (debounce_state (rd st pos),
                    wr pos (set_debounce_change 0) st)).
  { subst r. unfold sched_pin_level.
    destruct (find_ident ident st) as [i pos0]. simpl in Hfind. subst pos0.
    destruct (Z.ltb_spec pos 0) as [?|_]; [lia|].
    unfold sched_pin_test0.
    destruct (Z.ltb_spec pos 0) as [?|_]; [lia|].
    destruct (Z.leb_spec (sched_count st) pos) as [?|_]; [lia|].
    simpl orb. cbv iota. rewrite Hact. simpl. rdwr. reflexivity. }
  rewrite Hr. simpl fst. simpl snd.
  split; [reflexivity|]. split; [rdwr; reflexivity|].
  unfold sched_pin_gohigh, sched_pin_golow.
  rewrite find_ident_wr by (intros []; reflexivity).
  destruct (find_ident ident st) as [i pos0]. simpl in Hfind. subst pos0.
  destruct (Z.ltb_spec pos 0) as [?|_]; [lia|].
  unfold sched_pin_test0. simpl sched_count.
  destruct (Z.ltb_spec pos 0) as [?|_]; [lia|].
  destruct (Z.leb_spec (sched_count st) pos) as [?|_]; [lia|].
  simpl orb. cbv iota. rdwr. simpl active. rewrite Hact. simpl.
  split; reflexivity.
Qed.

Lemma sched_pin_level_clears_changed_witness :
  fst (sched_pin_level 6 1 scene_high) = 1 /\
  fst (sched_pin_gohigh 6 (snd (sched_pin_level 6 1 scene_high))) = 0.
Proof.
  destruct (sched_pin_level_clears_changed 6 1 scene_high 0 wf_scene_high
              eq_refl ltac:(lia) eq_refl) as (Hlvl & _ & Hhigh & _).
  split; [exact Hlvl | exact Hhigh].
Defined.

(** C3 as stated fails: after 20 ms of HIGH the rising edge is pending and
    [sched_pin_gohigh] would report it, but once [sched_pin_level] has been
    called the same query reports nothing. *)
Lemma sched_pin_level_consumes_changed_flag :
  fst (sched_pin_gohigh 6 scene_high) = 1 /\
  fst (sched_pin_level 6 1 scene_high) = 1 /\
  fst (sched_pin_gohigh 6 (snd (sched_pin_level 6 1 scene_high))) = 0.
Proof. vm_compute. repeat split. Qed.

(** ** The interrupt, slot by slot *)

Lemma pin_loop_body_globals p e i st :
  sched_count (pin_loop_body p e i st) = sched_count st /\
  sched_initialized (pin_loop_body p e i st) = sched_initialized st /\
  length (schedlist (pin_loop_body p e i st)) = length (schedlist st).
Proof.
  unfold pin_loop_body, sched_check0.
  destruct (is_pin p (rd st i)); [|repeat split; reflexivity].
  destruct ((i <? 0) || (sched_count st <=? i)); [repeat split; reflexivity|].
  destruct (truthy (active (rd st i))); [|repeat split; reflexivity].
  destruct (schedtime (rd st i) <=? millis e); [|repeat split; reflexivity].
  simpl. rewrite length_alter. repeat split; reflexivity.
Qed.

Lemma pin_loop_body_rd p e i st j :
  0 <= i < sched_count st ->
  0 <= i < Z.of_nat (length (schedlist st)) -> 0 <= j ->
  rd (pin_loop_body p e i st) j =
    if j =? i then tick_slot p e (rd st i) else rd st j.
Proof.
  intros Hi Hlen Hj. unfold pin_loop_body, tick_slot.
  destruct (is_pin p (rd st i)); simpl andb.
  - destruct (truthy (active (rd st i))) eqn:Hact; simpl andb.
    + destruct (Z.leb_spec (schedtime (rd st i)) (millis e)) as [Hdue|Hlate].
      * rewrite sched_check0_due by assumption. simpl snd.
        rewrite rd_wr by assumption. rewrite (Z.eqb_sym j i).
        reflexivity.
      * rewrite sched_check0_idle by (right; lia). simpl snd.
        destruct (Z.eqb_spec j i) as [->|_]; reflexivity.
    + rewrite sched_check0_idle by (left; exact Hact). simpl snd.
      destruct (Z.eqb_spec j i) as [->|_]; reflexivity.
  - destruct (Z.eqb_spec j i) as [->|_]; reflexivity.
Qed.

Lemma pin_loop_globals p e n : forall i st,
  let st' := for_up n i (pin_loop_body p e) st in
  sched_count st' = sched_count st /\
  sched_initialized st' = sched_initialized st /\
  length (schedlist st') = length (schedlist st).
Proof.
  induction n as [|n IH]; intros i st; simpl; [repeat split; reflexivity|].
  destruct (IH (i + 1) (pin_loop_body p e i st)) as (H1 & H2 & H3).
  destruct (pin_loop_body_globals p e i st) as (G1 & G2 & G3).
  repeat split; congruence.
Qed.

Lemma pin_loop_rd p e n : forall i st j,
  0 <= i -> i + Z.of_nat n = sched_count st ->
  sched_count st < Z.of_nat (length (schedlist st)) -> 0 <= j ->
  rd (for_up n i (pin_loop_body p e) st) j =
    if (i <=? j) && (j <? sched_count st)
    then tick_slot p e (rd st j) else rd st j.
Proof.
  induction n as [|n IH]; intros i st j Hi Hn Hlen Hj; simpl for_up.
  - destruct (Z.leb_spec i j), (Z.ltb_spec j (sched_count st));
      simpl; try reflexivity; lia.
  - destruct (pin_loop_body_globals p e i st) as (G1 & G2 & G3).
    rewrite IH by (rewrite ?G1, ?G3; lia). rewrite G1.
    rewrite !pin_loop_body_rd by lia.
    destruct (Z.eqb_spec j i) as [->|Hne].
    + destruct (Z.leb_spec (i + 1) i); [lia|]. simpl andb.
      destruct (Z.leb_spec i i); [|lia].
      destruct (Z.ltb_spec i (sched_count st)); [|lia]. reflexivity.
    + destruct (Z.leb_spec (i + 1) j), (Z.leb_spec i j); try lia; reflexivity.
Qed.

Lemma analog_scan_globals e st :
  schedlist (analog_scan e st) = schedlist st /\
  sched_count (analog_scan e st) = sched_count st /\
  sched_initialized (analog_scan e st) = sched_initialized st.
Proof.
  unfold analog_scan. destruct (truthy (sched_num_analogs st));
    [|repeat split; reflexivity].
  cbv zeta.
  match goal with
  | |- context [if sched_num_analogs ?a <=? ?b then _ else _] =>
      destruct (sched_num_analogs a <=? b)
  end; repeat split; reflexivity.
Qed.

Lemma ISR_globals p e st :
  sched_count (ISR p e st) = sched_count st /\
  sched_initialized (ISR p e st) = sched_initialized st /\
  length (schedlist (ISR p e st)) = length (schedlist st).
Proof.
  unfold ISR. destruct (truthy (sched_initialized st));
    [|repeat split; reflexivity].
  unfold sched_background_int.
  match goal with
  | |- context [for_up ?n ?i ?b ?s] =>
      destruct (pin_loop_globals p e n i s) as (H1 & H2 & H3)
  end.
  destruct (analog_scan_globals e (set_sched_priorms (millis e) st))
    as (A1 & A2 & A3).
  rewrite H1, H2, H3, A1, A2, A3. repeat split; reflexivity.
Qed.

(** One interrupt applies [tick_slot] to every registered slot and leaves
    the other elements of the array alone; before [sched_list_init] has
    completed it does nothing. *)
Lemma ISR_rd p e st j :
  wf st -> 0 <= j ->
  rd (ISR p e st) j =
    if truthy (sched_initialized st) && (j <? sched_count st)
    then tick_slot p e (rd st j) else rd st j.
Proof.
  intros (Hlen & Hcnt & _) Hj. unfold ISR.
  destruct (truthy (sched_initialized st)); [|reflexivity]. simpl andb.
  unfold sched_background_int.
  destruct (analog_scan_globals e (set_sched_priorms (millis e) st))
    as (A1 & A2 & A3).
  set (st1 := analog_scan e (set_sched_priorms (millis e) st)) in *.
  assert (Hrd : forall k, rd st1 k = rd st k)
    by (intros k; unfold rd; rewrite A1; reflexivity).
  unfold MAX_SCHED in Hcnt.
  rewrite pin_loop_rd; rewrite ?A1, ?A2; simpl sched_count;
    simpl schedlist; try lia.
  rewrite Hrd. destruct (Z.leb_spec 0 j); [reflexivity|lia].
Qed.

Lemma id_tick_slot p e s : id (tick_slot p e s) = id s.
Proof.
  unfold tick_slot.
  destruct (is_pin p s && truthy (active s) && (schedtime s <=? millis e));
    [apply id_expire_slot|reflexivity].
Qed.

Lemma ISR_id p e st j : wf st -> id (rd (ISR p e st) j) = id (rd st j).
Proof.
  intros Hwf. destruct (Z.le_gt_cases 0 j) as [Hj|Hj].
  - rewrite ISR_rd by assumption.
    destruct (truthy (sched_initialized st) && (j <? sched_count st));
      [apply id_tick_slot|reflexivity].
  - rewrite !(rd_neg _ j) by lia. rewrite ISR_rd by (assumption || lia).
    destruct (truthy (sched_initialized st) && (0 <? sched_count st));
      [apply id_tick_slot|reflexivity].
Qed.

Lemma wf_ISR p e st : wf st -> wf (ISR p e st).
Proof.
  intros Hwf. pose proof Hwf as (Hlen & Hcnt & Hrng).
  destruct (ISR_globals p e st) as (G1 & G2 & G3).
  split; [congruence|]. split; [rewrite G1; exact Hcnt|].
  intros i. rewrite ISR_id by exact Hwf. apply Hrng.
Qed.

Lemma find_ident_ISR p e ident st :
  wf st -> find_ident ident (ISR p e st) = find_ident ident st.
Proof.
  intros Hwf. destruct (ISR_globals p e st) as (G1 & _).
  apply find_ident_ext; [exact G1|]. intros j _. apply ISR_id. exact Hwf.
Qed.

(** ** Re-registration and the snapshot *)

Lemma sched_event_rearm_keeps_level p e ident recur ms st pos :
  wf st -> snd (find_ident ident st) = pos -> 0 <= pos ->
  let st' := snd (sched_event p e ident recur ms st) in
  debounce_state (rd st' pos) = debounce_state (rd st pos) /\
  debounce_change (rd st' pos) = debounce_change (rd st pos).
Proof.
  intros Hwf Hfind Hpos st'. subst st'.
  rewrite (sched_event_found_rd p e ident recur ms st pos pos Hwf Hfind Hpos Hpos).
  rewrite Z.eqb_refl. split; reflexivity.
Qed.

(** C4 at its failing input: pin 6 is registered again while it shows
    HIGH.  The accumulator of its slot takes the snapshot, but the level
    and the changed flag written by the call land in the next array
    element, so the slot still holds LOW; the next interrupt, with the pin
    unchanged, confirms a rising edge, counts it and makes
    [sched_pin_gohigh] fire. *)
Theorem sched_event_rearm_misses_snapshot :
  snd (find_ident 6 scene_armed) = 0 /\
  debounce_ct (rd rearmed_high 0) = DEBOUNCE_THRESH_MAX /\
  debounce_state (rd rearmed_high 0) = LOW /\
  debounce_state (rd rearmed_high 1) = HIGH /\
  let st := run_ticks Arduino 5 [all_pins 5 true] rearmed_high in
  event_ct_up (rd st 0) = 1 /\
  debounce_change (rd st 0) = 1 /\
  fst (sched_pin_gohigh 6 st) = 1.
Proof. vm_compute. repeat split. Qed.

(** ** The edge counter under preemption *)

(** Without an interrupt the access-by-access machine computes what
    [sched_pin_event_count] computes. *)
Ltac machine :=
  repeat first
    [ progress cbn [run_schedule foldl run_slice count_step goto fst snd negb
                    f_pc f_pos f_level f_reset f_val f_holdup f_holddown]
    | progress change (truthy 1) with true
    | rewrite Z.eqb_refl ].

Lemma count_machine_sequential p ident level reset holdup0 holddown0 st :
  let c := run_schedule p [Fg; Fg; Fg; Fg; Fg; Fg]
             (count_enter ident level reset holdup0 holddown0 st, st) in
  let r := sched_pin_event_count ident level reset holdup0 holddown0 st in
  f_pc (fst c) = PcDone /\ f_val (fst c) = fst r /\ snd c = snd r.
Proof.
  unfold sched_pin_event_count, count_enter.
  destruct (find_ident ident st) as [i pos].
  destruct (pos <? 0); [machine; repeat split; reflexivity|].
  machine.
  destruct (truthy level) eqn:Hl; machine; rewrite ?Hl, ?Z.eqb_refl;
    cbn [negb]; machine;
    destruct (truthy reset) eqn:Hr; machine; rewrite ?Z.eqb_refl;
    cbn [negb]; machine;
    try (repeat split; reflexivity).
  - match goal with
    | |- context [event_ct_down ?s =? holddown0] =>
        destruct (event_ct_down s =? holddown0)
    end; cbn [negb]; machine; repeat split; reflexivity.
  - destruct (event_ct_up (rd st pos) =? holdup0); cbn [negb]; machine;
      match goal with
      | |- context [event_ct_down ?s =? ?b] => destruct (event_ct_down s =? b)
      end; cbn [negb]; machine; repeat split; reflexivity.
Qed.

(** An edge confirmed after the stable read and before the comparison of
    the reset is kept: the counter restarts from 1 and the next query
    reports it. *)
Lemma early_interrupt_is_kept p e ident holdup0 holddown0 h1 h2 st pos :
  wf st -> snd (find_ident ident st) = pos -> 0 <= pos ->
  event_ct_up (rd (ISR p e st) pos) <> event_ct_up (rd st pos) ->
  let c := run_schedule p [Fg; Fg; Irq e; Fg; Fg; Fg; Fg]
             (count_enter ident 1 1 holdup0 holddown0 st, st) in
  f_pc (fst c) = PcDone /\
  f_val (fst c) = event_ct_up (rd st pos) /\
  event_ct_up (rd (snd c) pos) = 1 /\
  fst (sched_pin_event_count ident 1 0 h1 h2 (snd c)) = 1.
Proof.
  intros Hwf Hfind Hpos Hedge c.
  destruct (find_ident_found ident st pos Hfind Hpos) as [Hlt _].
  pose proof (wf_ISR p e st Hwf) as Hwf1.
  destruct (ISR_globals p e st) as (G1 & _ & G3).
  assert (Hb : 0 <= pos < Z.of_nat (length (schedlist (ISR p e st))))
    by (apply wf_slot_bound; [exact Hwf1|lia]).
  assert (Hc : exists v,
    c = (mk_frame PcDone pos 1 1 (event_ct_up (rd st pos))
           (event_ct_up (rd st pos)) holddown0,
         wr pos (set_event_ct_down v)
           (wr pos (set_event_ct_up 1) (ISR p e st)))).
  { subst c. unfold count_enter.
    destruct (find_ident ident st) as [i pos0]. simpl in Hfind. subst pos0.
    destruct (Z.ltb_spec pos 0) as [?|_]; [lia|].
    machine.
    destruct (Z.eqb_spec (event_ct_up (rd (ISR p e st) pos))
                (event_ct_up (rd st pos))) as [?|_]; [contradiction|].
    machine.
    match goal with
    | |- context [negb (?a =? ?b)] => destruct (a =? b)
    end; machine; eexists; reflexivity. }
  destruct Hc as [v Hc]. rewrite Hc. simpl fst. simpl snd.
  split; [reflexivity|]. split; [reflexivity|].
  assert (Hup : event_ct_up
                  (rd (wr pos (set_event_ct_down v)
                         (wr pos (set_event_ct_up 1) (ISR p e st))) pos) = 1)
    by (rdwr; reflexivity).
  split; [exact Hup|].
  unfold sched_pin_event_count.
  rewrite !find_ident_wr by (intros []; reflexivity).
  rewrite find_ident_ISR by exact Hwf.
  destruct (find_ident ident st) as [i pos0]. simpl in Hfind. subst pos0.
  destruct (Z.ltb_spec pos 0) as [?|_]; [lia|].
  simpl. exact Hup.
Qed.

(** An edge confirmed after that comparison and before the store is
    overwritten, whatever the interrupt did to the counter. *)
Lemma late_interrupt_is_dropped p e ident holdup0 holddown0 h1 h2 st pos :
  wf st -> snd (find_ident ident st) = pos -> 0 <= pos ->
  let c := run_schedule p [Fg; Fg; Fg; Irq e; Fg; Fg; Fg]
             (count_enter ident 1 1 holdup0 holddown0 st, st) in
  f_pc (fst c) = PcDone /\
  f_val (fst c) = event_ct_up (rd st pos) /\
  event_ct_up (rd (snd c) pos) = 0 /\
  fst (sched_pin_event_count ident 1 0 h1 h2 (snd c)) = 0.
Proof.
  intros Hwf Hfind Hpos c.
  destruct (find_ident_found ident st pos Hfind Hpos) as [Hlt _].
  pose proof (wf_ISR p e st Hwf) as Hwf1.
  destruct (ISR_globals p e st) as (G1 & _ & G3).
  assert (Hb : 0 <= pos < Z.of_nat (length (schedlist (ISR p e st))))
    by (apply wf_slot_bound; [exact Hwf1|lia]).
  assert (Hc : exists v,
    c = (mk_frame PcDone pos 1 1 (event_ct_up (rd st pos))
           (event_ct_up (rd st pos)) holddown0,
         wr pos (set_event_ct_down v)
           (wr pos (set_event_ct_up 0) (ISR p e st)))).
  { subst c. unfold count_enter.
    destruct (find_ident ident st) as [i pos0]. simpl in Hfind. subst pos0.
    destruct (Z.ltb_spec pos 0) as [?|_]; [lia|].
    machine.
    match goal with
    | |- context [negb (?a =? ?b)] => destruct (a =? b)
    end; machine; eexists; reflexivity. }
  destruct Hc as [v Hc]. rewrite Hc. simpl fst. simpl snd.
  split; [reflexivity|]. split; [reflexivity|].
  assert (Hup : event_ct_up
                  (rd (wr pos (set_event_ct_down v)
                         (wr pos (set_event_ct_up 0) (ISR p e st))) pos) = 0)
    by (rdwr; reflexivity).
  split; [exact Hup|].
  unfold sched_pin_event_count.
  rewrite !find_ident_wr by (intros []; reflexivity).
  rewrite find_ident_ISR by exact Hwf.
  destruct (find_ident ident st) as [i pos0]. simpl in Hfind. subst pos0.
  destruct (Z.ltb_spec pos 0) as [?|_]; [lia|].
  simpl. exact Hup.
Qed.

(** C1 at its failing interleaving: the rising count of pin 6 is 1 and is
    read stably; the comparison that opens the reset still sees 1; the
    interrupt then confirms a second rising edge and the counter becomes
    2; the store that follows writes 0.  The call returns 1, the next
    query returns 0, and the second edge is reported by neither. *)
Theorem event_count_reset_drops_late_edge :
  let c0 := (count_enter 6 1 1 0 0 race_state, race_state) in
  event_ct_up (rd race_state 0) = 1 /\
  event_ct_up (rd (snd (run_schedule Arduino (take 4 late_irq) c0)) 0) = 2 /\
  let c := run_schedule Arduino late_irq c0 in
  f_pc (fst c) = PcDone /\
  f_val (fst c) = 1 /\
  event_ct_up (rd (snd c) 0) = 0 /\
  fst (sched_pin_event_count 6 1 0 0 0 (snd c)) = 0.
Proof. vm_compute. repeat split. Qed.

Lemma wf_race_state : wf race_state.
Proof. wf_by_compute. Qed.

Lemma early_interrupt_is_kept_example :
  let c := run_schedule Arduino early_irq
             (count_enter 6 1 1 0 0 race_state, race_state) in
  f_val (fst c) = 1 /\ event_ct_up (rd (snd c) 0) = 1.
Proof.
  destruct (early_interrupt_is_kept Arduino (all_pins 3 true) 6 0 0 0 0
              race_state 0 wf_race_state eq_refl ltac:(lia))
    as (_ & Hval & Hup & _).
  - vm_compute. discriminate.
  - split; [exact Hval | exact Hup].
Qed.

(** ** Cancellation *)

Lemma sched_event_found_id p e ident recur ms st pos j :
  wf st -> snd (find_ident ident st) = pos -> 0 <= pos -> 0 <= j ->
  id (rd (snd (sched_event p e ident recur ms st)) j) = id (rd st j).
Proof.
  intros Hwf Hfind Hpos Hj.
  destruct (find_ident_found ident st pos Hfind Hpos) as [Hlt Hid].
  rewrite (sched_event_found_rd p e ident recur ms st pos j Hwf Hfind Hpos Hj).
  destruct (Z.eqb_spec j pos) as [->|_]; [simpl; congruence|].
  destruct ((j =? sched_count st) && (ident <=? MAX_DIGITAL_PIN p));
    reflexivity.
Qed.

Lemma sched_event_found_wf p e ident recur ms st pos :
  wf st -> snd (find_ident ident st) = pos -> 0 <= pos ->
  let st' := snd (sched_event p e ident recur ms st) in
  wf st' /\ forall x, find_ident x st' = find_ident x st.
Proof.
  intros Hwf Hfind Hpos st'.
  pose proof Hwf as (Hlen & Hcnt & Hrng).
  destruct (sched_event_found_ret p e ident recur ms st pos Hwf Hfind Hpos)
    as [_ Hc].
  destruct (sched_event_globals p e ident recur ms st) as (Hl & _).
  assert (Hid : forall j, 0 <= j -> id (rd st' j) = id (rd st j))
    by (intros j Hj; apply (sched_event_found_id p e ident recur ms st pos);
        assumption).
  split.
  - split; [subst st'; congruence|]. split; [subst st'; rewrite Hc; exact Hcnt|].
    intros i. destruct (Z.le_gt_cases 0 i) as [Hi|Hi].
    + rewrite Hid by exact Hi. apply Hrng.
    + rewrite rd_neg by exact Hi. rewrite Hid by lia. apply Hrng.
  - intros x. apply find_ident_ext; [exact Hc|].
    intros j Hj. apply Hid. lia.
Qed.

Lemma sched_cancel_cancelled p e ident st pos :
  wf st -> snd (find_ident ident st) = pos -> 0 <= pos ->
  cancelled ident pos (snd (sched_cancel p e ident st)).
Proof.
  intros Hwf Hfind Hpos. unfold sched_cancel.
  destruct (sched_event_found_wf p e ident 0 0 st pos Hwf Hfind Hpos)
    as [Hwf' Hfind'].
  split; [exact Hwf'|]. split; [rewrite Hfind'; exact Hfind|].
  rewrite (sched_event_found_rd p e ident 0 0 st pos pos Hwf Hfind Hpos Hpos).
  rewrite Z.eqb_refl. simpl. repeat split; reflexivity.
Qed.

Lemma ISR_cancelled p e ident st pos :
  0 <= pos -> cancelled ident pos st -> cancelled ident pos (ISR p e st).
Proof.
  intros Hpos (Hwf & Hfind & Hact & Hup & Hdown).
  split; [apply wf_ISR; exact Hwf|].
  split; [rewrite find_ident_ISR by exact Hwf; exact Hfind|].
  rewrite ISR_rd by assumption.
  assert (Htick : tick_slot p e (rd st pos) = rd st pos).
  { unfold tick_slot, truthy. rewrite Hact. simpl.
    rewrite andb_false_r. reflexivity. }
  destruct (truthy (sched_initialized st) && (pos <? sched_count st));
    rewrite ?Htick; repeat split; assumption.
Qed.

Lemma run_quiet_cancelled p ident pos ops : forall st,
  0 <= pos -> cancelled ident pos st ->
  cancelled ident pos (run_quiet p ident ops st).
Proof.
  induction ops as [|o ops IH]; intros st Hpos Hc; [exact Hc|].
  unfold run_quiet. simpl foldl. apply IH; [exact Hpos|].
  destruct o as [e|e].
  - destruct Hc as (Hwf & Hfind & _).
    apply sched_cancel_cancelled; assumption.
  - apply ISR_cancelled; assumption.
Qed.

(** C2, as the code has it: for an id that the identifier scan finds in
    the table, [sched_cancel], followed by any number of further
    [sched_cancel] calls and timer interrupts, each interrupt served
    after a completed call and none while a call is in progress, leaves
    the slot in the table, inactive, with both edge counters reset to 0;
    as long as the id is not armed again [sched_check] returns 0 and
    changes nothing, [sched_pin_level] reports 0 and the edge counts read
    0. *)
Theorem sched_cancel_deactivates_and_resets p ident e0 ops st pos :
  wf st -> snd (find_ident ident st) = pos -> 0 <= pos ->
  let st' := run_quiet p ident (QCancel e0 :: ops) st in
  snd (find_ident ident st') = pos /\
  active (rd st' pos) = 0 /\
  event_ct_up (rd st' pos) = 0 /\
  event_ct_down (rd st' pos) = 0 /\
  (forall e, sched_check p e ident st' = (0, st')) /\
  (forall level, sched_pin_level ident level st' = (0, st')) /\
  (forall level h1 h2,
     sched_pin_event_count ident level 0 h1 h2 st' = (0, st')).
Proof.
  intros Hwf Hfind Hpos st'.
  assert (Hc : cancelled ident pos st').
  { subst st'. unfold run_quiet. simpl foldl.
    apply (run_quiet_cancelled p ident pos ops); [exact Hpos|].
    apply sched_cancel_cancelled; assumption. }
  destruct Hc as (Hwf' & Hfind' & Hact & Hup & Hdown).
  repeat (split; [assumption|]).
  split; [|split].
  - intros e. unfold sched_check.
    destruct (find_ident ident st') as [i pos0]. simpl in Hfind'. subst pos0.
    destruct (Z.ltb_spec pos 0) as [?|_]; [lia|].
    apply sched_check0_idle. left. unfold truthy. rewrite Hact. reflexivity.
  - intros level. unfold sched_pin_level.
    destruct (find_ident ident st') as [i pos0]. simpl in Hfind'. subst pos0.
    destruct (Z.ltb_spec pos 0) as [?|_]; [lia|].
    unfold sched_pin_test0, truthy. rewrite Hact. simpl.
    destruct ((pos <? 0) || (sched_count st' <=? pos)); reflexivity.
  - intros level h1 h2. unfold sched_pin_event_count.
    destruct (find_ident ident st') as [i pos0]. simpl in Hfind'. subst pos0.
    destruct (Z.ltb_spec pos 0) as [?|_]; [lia|].
    rewrite Hup, Hdown. destruct (truthy level); reflexivity.
Qed.

Lemma sched_cancel_deactivates_and_resets_witness :
  let st' := run_quiet Arduino 6
               [QCancel (all_pins 20 true); QTick (all_pins 21 true);
                QCancel (all_pins 21 true); QTick (all_pins 22 false)]
               scene_high in
  active (rd st' 0) = 0 /\ event_ct_up (rd st' 0) = 0 /\
  sched_check Arduino (all_pins 23 false) 6 st' = (0, st').
Proof.
  destruct (sched_cancel_deactivates_and_resets Arduino 6 (all_pins 20 true)
              [QTick (all_pins 21 true); QCancel (all_pins 21 true);
               QTick (all_pins 22 false)] scene_high 0
              wf_scene_high eq_refl ltac:(lia))
    as (_ & Hact & Hup & _ & Hpoll & _).
  split; [exact Hact|]. split; [exact Hup|]. apply Hpoll.
Defined.

(** C2 as stated fails: pin 6 has been confirmed HIGH and one rising edge
    has been counted; after [sched_cancel] the rising count reads 0 and
    [sched_pin_level] reports 0. *)
Lemma sched_cancel_resets_counters_and_level :
  truthy (active (rd scene_high 0)) = true /\
  fst (sched_pin_event_count 6 1 0 0 0 scene_high) = 1 /\
  fst (sched_pin_level 6 1 scene_high) = 1 /\
  let st := snd (sched_cancel Arduino (all_pins 20 true) 6 scene_high) in
  fst (sched_pin_event_count 6 1 0 0 0 st) = 0 /\
  fst (sched_pin_level 6 1 st) = 0.
Proof. vm_compute. repeat split. Qed.

(** ** Polling *)

Lemma id_rd_wr_at pos j f st :
  id (f (rd st pos)) = id (rd st pos) ->
  id (rd (wr pos f st) j) = id (rd st j).
Proof.
  intros Hid. unfold rd, wr in *. simpl.
  destruct (decide (Z.to_nat pos = Z.to_nat j)) as [E|E].
  - rewrite <- E, list_lookup_alter_eq.
    destruct (schedlist st !! Z.to_nat pos); simpl in *; [exact Hid|reflexivity].
  - rewrite list_lookup_alter_ne by exact E. reflexivity.
Qed.

Lemma find_ident_last ident st pos :
  0 <= pos < sched_count st -> id (rd st pos) = ident ->
  (forall j, pos < j < sched_count st -> id (rd st j) <> ident) ->
  snd (find_ident ident st) = pos.
Proof.
  intros Hpos Hid Hlast. unfold find_ident.
  pose proof (scan_ids_spec ident st (Z.to_nat (sched_count st)) 0 (-1)) as H.
  simpl in H. rewrite Z2Nat.id in H by lia.
  set (r := snd (scan_ids ident st (Z.to_nat (sched_count st)) 0 (-1))) in *.
  destruct H as [[_ Hno]|[Hr [Hidr Hnor]]].
  - exfalso. apply (Hno pos); [lia|exact Hid].
  - destruct (Z.lt_trichotomy r pos) as [Hlt|[Heq|Hgt]].
    + exfalso. apply (Hnor pos); [lia|exact Hid].
    + exact Heq.
    + exfalso. apply (Hlast r); [lia|exact Hidr].
Qed.

Lemma sched_check_unknown p e ident st :
  (forall i, 0 <= i < sched_count st -> id (rd st i) <> ident) ->
  sched_check p e ident st = (0, st).
Proof.
  intros Hno. unfold sched_check.
  pose proof (find_ident_none ident st Hno) as Hf.
  destruct (find_ident ident st) as [i pos]. simpl in Hf. subst pos.
  reflexivity.
Qed.

Lemma sched_check_not_due p e ident st pos :
  snd (find_ident ident st) = pos ->
  millis e < schedtime (rd st pos) ->
  sched_check p e ident st = (0, st).
Proof.
  intros Hf Hlate. unfold sched_check.
  destruct (find_ident ident st) as [i pos0]. simpl in Hf. subst pos0.
  destruct (pos <? 0); [reflexivity|].
  apply sched_check0_idle. right. exact Hlate.
Qed.

Lemma sched_check_due p e ident st pos :
  snd (find_ident ident st) = pos -> 0 <= pos ->
  truthy (active (rd st pos)) = true ->
  schedtime (rd st pos) <= millis e ->
  sched_check p e ident st =
    (1, wr pos (fun _ => expire_slot p e (rd st pos)) st).
Proof.
  intros Hf Hpos Hact Hdue.
  destruct (find_ident_found ident st pos Hf Hpos) as [Hlt _].
  unfold sched_check.
  destruct (find_ident ident st) as [i pos0]. simpl in Hf. subst pos0.
  destruct (Z.ltb_spec pos 0) as [?|_]; [lia|].
  apply sched_check0_due; [lia|assumption..].
Qed.

Lemma active_expire_slot p e s :
  active (expire_slot p e s) = if truthy (recurring s) then active s else 0.
Proof.
  unfold expire_slot.
  destruct (truthy (recurring s)); simpl;
    repeat match goal with
           | |- context [if ?c then _ else _] => destruct c; simpl
           end; reflexivity.
Qed.

(** A slot that is not recurring fires once: the poll that finds it due
    returns 1 and clears [active], and every later poll returns 0 and
    leaves the state alone. *)
Lemma sched_check_one_shot p e ident st pos :
  wf st -> snd (find_ident ident st) = pos -> 0 <= pos ->
  truthy (active (rd st pos)) = true ->
  truthy (recurring (rd st pos)) = false ->
  schedtime (rd st pos) <= millis e ->
  let r := sched_check p e ident st in
  fst r = 1 /\ active (rd (snd r) pos) = 0 /\
  forall e', sched_check p e' ident (snd r) = (0, snd r).
Proof.
  intros Hwf Hf Hpos Hact Hrec Hdue r.
  destruct (find_ident_found ident st pos Hf Hpos) as [Hlt _].
  assert (Hb : 0 <= pos < Z.of_nat (length (schedlist st)))
    by (apply wf_slot_bound; [exact Hwf|lia]).
  subst r. rewrite (sched_check_due p e ident st pos) by assumption.
  simpl fst. simpl snd.
  assert (Ha : active (rd (wr pos (fun _ => expire_slot p e (rd st pos)) st) pos) = 0).
  { rewrite rd_wr_eq by exact Hb. rewrite active_expire_slot, Hrec.
    reflexivity. }
  split; [reflexivity|]. split; [exact Ha|].
  intros e'. unfold sched_check.
  assert (Hf' : find_ident ident
                  (wr pos (fun _ => expire_slot p e (rd st pos)) st)
                = find_ident ident st).
  { apply find_ident_ext; [reflexivity|]. intros j _.
    apply id_rd_wr_at. apply id_expire_slot. }
  rewrite Hf'. destruct (find_ident ident st) as [i pos0]. simpl in Hf.
  subst pos0. destruct (Z.ltb_spec pos 0) as [?|_]; [lia|].
  apply sched_check0_idle. left. unfold truthy. rewrite Ha. reflexivity.
Qed.

(** ** A recurring timer polled every millisecond *)

Lemma sched_event_fresh_wf p e ident recur ms st :
  wf st -> snd (find_ident ident st) < 0 -> sched_count st < MAX_SCHED ->
  wf (snd (sched_event p e ident recur ms st)).
Proof.
  intros Hwf Hfind Hroom. pose proof Hwf as (Hlen & Hcnt & Hrng).
  destruct (sched_event_fresh_ret p e ident recur ms st Hfind ltac:(lia))
    as [_ Hc].
  destruct (sched_event_globals p e ident recur ms st) as (Hl & _).
  assert (Hid : forall j, 0 <= j ->
    0 <= id (rd (snd (sched_event p e ident recur ms st)) j) < 256).
  { intros j Hj. rewrite sched_event_fresh_rd by assumption.
    destruct (j =? sched_count st); [|apply Hrng].
    simpl. unfold to_uchar. apply Z.mod_pos_bound. lia. }
  split; [congruence|]. split; [rewrite Hc; unfold MAX_SCHED in *; lia|].
  intros i. destruct (Z.le_gt_cases 0 i) as [Hi|Hi].
  - apply Hid. exact Hi.
  - rewrite rd_neg by exact Hi. apply Hid. lia.
Qed.

Lemma sched_event_arms_timer p e ident P st :
  wf st -> MAX_DIGITAL_PIN p < ident <= 127 ->
  fst (sched_event p e ident 1 P st) = 1 ->
  1 <= P -> 0 <= millis e -> millis e + P < 4294967296 ->
  exists pos,
    timer_slot p ident pos P (millis e + P) (snd (sched_event p e ident 1 P st)).
Proof.
  intros Hwf Hid Hok HP Ht Hwrap.
  pose proof Hwf as (Hlen & Hcnt & Hrng).
  assert (Hmax : 0 <= MAX_DIGITAL_PIN p) by (destruct p; simpl; lia).
  assert (Hnp : (ident <=? MAX_DIGITAL_PIN p) = false)
    by (apply Z.leb_gt; lia).
  assert (Hu : to_uchar ident = ident)
    by (unfold to_uchar; apply Z.mod_small; lia).
  assert (Hul : to_ulong (P + millis e) = millis e + P)
    by (unfold to_ulong; rewrite Z.mod_small; lia).
  assert (Hact : (if negb (truthy 1) && (P =? 0) then 0 else 1) = 1)
    by reflexivity.
  destruct (Z.leb_spec 0 (snd (find_ident ident st))) as [Hf|Hf].
  - exists (snd (find_ident ident st)).
    destruct (sched_event_found_wf p e ident 1 P st _ Hwf eq_refl Hf)
      as [Hwf' Hfind'].
    split; [exact Hwf'|]. split; [rewrite Hfind'; reflexivity|].
    split; [exact Hf|].
    rewrite (sched_event_found_rd p e ident 1 P st _ _ Hwf eq_refl Hf Hf).
    rewrite Z.eqb_refl, Hnp, Hact, Hul. unfold is_pin. simpl.
    rewrite Hnp, andb_false_r. repeat split; reflexivity.
  - assert (Hroom : sched_count st < MAX_SCHED).
    { destruct (Z.ltb_spec (sched_count st) MAX_SCHED) as [?|Hfull];
        [assumption|].
      exfalso. revert Hok. unfold sched_event.
      destruct (find_ident ident st) as [i pos0]. simpl in Hf.
      destruct (Z.ltb_spec pos0 0) as [_|?]; [|lia].
      destruct (Z.ltb_spec (sched_count st) MAX_SCHED) as [?|_]; [lia|].
      destruct (Z.leb_spec 0 pos0) as [?|_]; [lia|]. simpl. discriminate. }
    exists (sched_count st).
    destruct (sched_event_fresh_ret p e ident 1 P st Hf ltac:(lia)) as [_ Hc].
    assert (Hslot := sched_event_fresh_rd p e ident 1 P st (sched_count st)
                       Hwf Hf Hroom ltac:(lia)).
    cbv zeta in Hslot. rewrite Z.eqb_refl, Hu, Hnp, Hact, Hul in Hslot.
    split; [apply sched_event_fresh_wf; assumption|].
    split.
    { apply find_ident_last; [lia| rewrite Hslot; reflexivity |].
      intros j Hj. lia. }
    split; [lia|]. rewrite Hslot. unfold is_pin. simpl.
    rewrite Hnp, andb_false_r. repeat split; reflexivity.
Qed.

Lemma timer_slot_ISR p e ident pos P T st :
  timer_slot p ident pos P T st -> timer_slot p ident pos P T (ISR p e st).
Proof.
  intros (Hwf & Hf & Hpos & Hpin & Hact & Hrec & Hms & Hdue).
  assert (Hrd : rd (ISR p e st) pos = rd st pos).
  { rewrite ISR_rd by assumption. unfold tick_slot. rewrite Hpin. simpl.
    destruct (truthy (sched_initialized st) && (pos <? sched_count st));
      reflexivity. }
  split; [apply wf_ISR; exact Hwf|].
  split; [rewrite find_ident_ISR by exact Hwf; exact Hf|].
  rewrite Hrd. repeat split; assumption.
Qed.

Lemma timer_slot_fire p e ident pos P T st :
  timer_slot p ident pos P T st ->
  T <= millis e -> 0 <= T -> 1 <= P -> T + P < 4294967296 ->
  fst (sched_check p e ident st) = 1 /\
  timer_slot p ident pos P (T + P) (snd (sched_check p e ident st)).
Proof.
  intros (Hwf & Hf & Hpos & Hpin & Hact & Hrec & Hms & Hdue) Hnow HT HP Hwrap.
  destruct (find_ident_found ident st pos Hf Hpos) as [Hlt _].
  assert (Hb : 0 <= pos < Z.of_nat (length (schedlist st)))
    by (apply wf_slot_bound; [exact Hwf|lia]).
  rewrite (sched_check_due p e ident st pos) by (assumption || lia).
  simpl fst. simpl snd. split; [reflexivity|].
  assert (Hnew : expire_slot p e (rd st pos) =
                 set_schedtime (T + P) (rd st pos)).
  { rewrite expire_slot_timer by exact Hpin. rewrite Hrec, Hms, Hdue.
    destruct (Z.eqb_spec P 0); [lia|].
    unfold to_ulong. rewrite Z.mod_small by lia. reflexivity. }
  rewrite Hnew.
  assert (Hid : forall j,
    id (rd (wr pos (fun _ => set_schedtime (T + P) (rd st pos)) st) j) =
    id (rd st j)) by (intros j; apply id_rd_wr_at; reflexivity).
  destruct Hwf as (Hlen & Hcnt & Hrng).
  split.
  { split; [rewrite length_wr; exact Hlen|]. split; [exact Hcnt|].
    intros i. rewrite Hid. apply Hrng. }
  split.
  { transitivity (snd (find_ident ident st)); [|exact Hf].
    f_equal. apply find_ident_ext; [reflexivity|].
    intros j _. apply Hid. }
  split; [exact Hpos|].
  rewrite rd_wr_eq by exact Hb. unfold is_pin in *. simpl.
  repeat split; assumption.
Qed.

Lemma run_polled_cadence p ident pos P es : forall t T st,
  timer_slot p ident pos P T st ->
  1 <= P -> 0 <= t -> t < T ->
  t + Z.of_nat (length es) + P < 4294967296 ->
  fst (run_polled p ident t es st) = cadence P (T - t) (length es).
Proof.
  induction es as [|e es IH]; intros t T st Hslot HP Ht HT Hwrap;
    [reflexivity|].
  simpl length in *. simpl run_polled. simpl cadence.
  pose proof (timer_slot_ISR p (at_time (t + 1) e) ident pos P T st Hslot)
    as Hslot1.
  set (st1 := ISR p (at_time (t + 1) e) st) in *.
  destruct (Z.eqb_spec (T - t) 1) as [Hdue|Hlate].
  - destruct (timer_slot_fire p (at_time (t + 1) e) ident pos P T st1 Hslot1)
      as [Hr Hslot2]; [simpl; lia | lia | lia | lia |].
    destruct (sched_check p (at_time (t + 1) e) ident st1) as [r st2].
    simpl in Hr, Hslot2. subst r.
    specialize (IH (t + 1) (T + P) st2 Hslot2 HP ltac:(lia) ltac:(lia)
                  ltac:(lia)).
    destruct (run_polled p ident (t + 1) es st2) as [rs st3].
    simpl in *. rewrite IH. do 2 f_equal. lia.
  - destruct Hslot1 as (Hwf1 & Hf1 & Hpos1 & Hrest).
    rewrite (sched_check_not_due p (at_time (t + 1) e) ident st1 pos Hf1)
      by (destruct Hrest as (_ & _ & _ & _ & ->); simpl; lia).
    specialize (IH (t + 1) T st1
                  (conj Hwf1 (conj Hf1 (conj Hpos1 Hrest))) HP ltac:(lia)
                  ltac:(lia) ltac:(lia)).
    destruct (run_polled p ident (t + 1) es st1) as [rs st3].
    simpl in *. rewrite IH. do 2 f_equal. lia.
Qed.

(** C6, as the code has it.  [sched_check] returns 0 and changes nothing
    for an id that is not in the table and for a slot that is not yet
    due.  A slot in the table that is active, not recurring and due
    returns 1 at that poll and is deactivated by it; every further poll
    of the resulting state returns 0 and changes nothing.  For an id
    above the pin range and at most 127, and while the millisecond
    counter does not wrap (due time plus period below 2^32; for a polled
    run: arming tick plus milliseconds polled plus period below 2^32): a
    recurring slot of period [P >= 1] returns 1 when polled at or after
    its due time and moves its due time exactly one period on; armed
    with period [P] and polled once per millisecond it answers 1 exactly
    every [P] milliseconds, so a 1000 ms timer gives three 1s in 3500 ms,
    at 1000, 2000 and 3000. *)
Theorem sched_check_once_per_expiry p e ident st :
  wf st ->
  ((forall i, 0 <= i < sched_count st -> id (rd st i) <> ident) ->
   sched_check p e ident st = (0, st)) /\
  (millis e < schedtime (rd st (snd (find_ident ident st))) ->
   sched_check p e ident st = (0, st)) /\
  (0 <= snd (find_ident ident st) ->
   truthy (active (rd st (snd (find_ident ident st)))) = true ->
   truthy (recurring (rd st (snd (find_ident ident st)))) = false ->
   schedtime (rd st (snd (find_ident ident st))) <= millis e ->
   fst (sched_check p e ident st) = 1 /\
   active (rd (snd (sched_check p e ident st)) (snd (find_ident ident st))) = 0 /\
   forall e', sched_check p e' ident (snd (sched_check p e ident st)) =
              (0, snd (sched_check p e ident st))) /\
  (forall pos P T,
   timer_slot p ident pos P T st ->
   T <= millis e -> 0 <= T -> 1 <= P -> T + P < 4294967296 ->
   fst (sched_check p e ident st) = 1 /\
   timer_slot p ident pos P (T + P) (snd (sched_check p e ident st))) /\
  (forall P es,
   MAX_DIGITAL_PIN p < ident <= 127 ->
   fst (sched_event p e ident 1 P st) = 1 ->
   1 <= P -> 0 <= millis e ->
   millis e + Z.of_nat (length es) + P < 4294967296 ->
   fst (run_polled p ident (millis e) es (snd (sched_event p e ident 1 P st)))
   = cadence P P (length es)) /\
  (forall es,
   MAX_DIGITAL_PIN p < ident <= 127 ->
   fst (sched_event p e ident 1 1000 st) = 1 ->
   0 <= millis e -> millis e + 4500 < 4294967296 ->
   length es = 3500%nat ->
   fst (run_polled p ident (millis e) es
          (snd (sched_event p e ident 1 1000 st))) = three_in_3500).
Proof.
  intros Hwf.
  assert (Hcad : forall P es,
    MAX_DIGITAL_PIN p < ident <= 127 ->
    fst (sched_event p e ident 1 P st) = 1 ->
    1 <= P -> 0 <= millis e ->
    millis e + Z.of_nat (length es) + P < 4294967296 ->
    fst (run_polled p ident (millis e) es (snd (sched_event p e ident 1 P st)))
    = cadence P P (length es)).
  { intros P es Hid Hok HP Ht Hwrap.
    destruct (sched_event_arms_timer p e ident P st Hwf Hid Hok HP Ht
                ltac:(lia)) as [pos Hslot].
    rewrite (run_polled_cadence p ident pos P es (millis e) (millis e + P))
      by (assumption || lia).
    f_equal. lia. }
  split; [apply sched_check_unknown|].
  split; [apply sched_check_not_due; reflexivity|].
  split; [intros;
          apply (sched_check_one_shot p e ident st (snd (find_ident ident st)));
          assumption || reflexivity|].
  split; [intros pos P T; apply timer_slot_fire|].
  split; [exact Hcad|].
  intros es Hid Hok Ht Hwrap Hlen.
  rewrite Hcad by (rewrite ?Hlen; assumption || lia).
  rewrite Hlen. vm_compute. reflexivity.
Qed.

Lemma wf_tiny_init : wf tiny_init.
Proof. wf_by_compute. Qed.

Lemma sched_check_once_per_expiry_witness :
  fst (run_polled ATtinyX5 7 0 (replicate 3500 (all_pins 0 false))
         (snd (sched_event ATtinyX5 (all_pins 0 false) 7 1 1000 tiny_init)))
  = three_in_3500.
Proof.
  destruct (sched_check_once_per_expiry ATtinyX5 (all_pins 0 false) 7
              tiny_init wf_tiny_init) as (_ & _ & _ & _ & _ & Hrun).
  apply Hrun.
  - simpl. lia.
  - reflexivity.
  - simpl. lia.
  - simpl. lia.
  - reflexivity.
Defined.

(** C6 as stated fails on the Arduino build, where 7 lies in the pin
    range: the interrupt of each millisecond runs [sched_check0] on the
    slot before the foreground can poll it and consumes every expiry, so
    [sched_check 7] polled once per millisecond for 3500 ms never returns
    1. *)
Lemma pin_range_timer_never_fires :
  is_pin Arduino (rd seven_armed 0) = true /\
  truthy (sched_initialized seven_armed) = true /\
  fst (run_polled Arduino 7 0 (replicate 3500 (all_pins 0 false)) seven_armed)
  = replicate 3500 0.
Proof. vm_compute. repeat split. Qed.

(** ** Zero-period debounce *)








(** What the pin queries do on an active registered slot. *)
Lemma sched_pin_gohigh_active ident st pos :
  wf st -> snd (find_ident ident st) = pos -> 0 <= pos ->
  truthy (active (rd st pos)) = true ->
  sched_pin_gohigh ident st =
    (Z.b2z (truthy (debounce_change (rd st pos)) &&
            truthy (debounce_state (rd st pos))),
     wr pos (set_debounce_change 0) st).
Proof.
  intros Hwf Hf Hpos Hact.
  destruct (find_ident_found ident st pos Hf Hpos) as [Hlt _].
  assert (Hb : 0 <= pos < Z.of_nat (length (schedlist st)))
    by (apply wf_slot_bound; [exact Hwf|lia]).
  unfold sched_pin_gohigh.
  destruct (find_ident ident st) as [i pos0]. simpl in Hf. subst pos0.
  destruct (Z.ltb_spec pos 0) as [?|_]; [lia|].
  unfold sched_pin_test0.
  destruct (Z.ltb_spec pos 0) as [?|_]; [lia|].
  destruct (Z.leb_spec (sched_count st) pos) as [?|_]; [lia|].
  simpl orb. cbv iota. rewrite Hact. cbv zeta. rdwr.
  change (truthy 1) with true. simpl negb. cbv iota.
  simpl debounce_state.
  destruct (truthy (debounce_change (rd st pos)));
    destruct (truthy (debounce_state (rd st pos))); reflexivity.
Qed.

Lemma sched_pin_golow_active ident st pos :
  wf st -> snd (find_ident ident st) = pos -> 0 <= pos ->
  truthy (active (rd st pos)) = true ->
  sched_pin_golow ident st =
    (Z.b2z (truthy (debounce_change (rd st pos)) &&
            negb (truthy (debounce_state (rd st pos)))),
     wr pos (set_debounce_change 0) st).
Proof.
  intros Hwf Hf Hpos Hact.
  destruct (find_ident_found ident st pos Hf Hpos) as [Hlt _].
  assert (Hb : 0 <= pos < Z.of_nat (length (schedlist st)))
    by (apply wf_slot_bound; [exact Hwf|lia]).
  unfold sched_pin_golow.
  destruct (find_ident ident st) as [i pos0]. simpl in Hf. subst pos0.
  destruct (Z.ltb_spec pos 0) as [?|_]; [lia|].
  unfold sched_pin_test0.
  destruct (Z.ltb_spec pos 0) as [?|_]; [lia|].
  destruct (Z.leb_spec (sched_count st) pos) as [?|_]; [lia|].
  simpl orb. cbv iota. rewrite Hact. cbv zeta. rdwr.
  change (truthy 1) with true. change (truthy 0) with false.
  simpl negb. cbv iota. simpl debounce_state.
  destruct (truthy (debounce_change (rd st pos)));
    destruct (truthy (debounce_state (rd st pos))); reflexivity.
Qed.





(** * Further properties of the library *)

(** ** Initialisation *)

Lemma for_up_wr_rd f n : forall i st j,
  0 <= i -> i + Z.of_nat n <= Z.of_nat (length (schedlist st)) -> 0 <= j ->
  rd (for_up n i (fun k => wr k f) st) j =
    if (i <=? j) && (j <? i + Z.of_nat n) then f (rd st j) else rd st j.
Proof.
  induction n as [|n IH]; intros i st j Hi Hlen Hj; simpl for_up.
  - destruct (Z.leb_spec i j), (Z.ltb_spec j (i + Z.of_nat 0)); simpl;
      try reflexivity; lia.
  - rewrite IH by (rewrite ?length_wr; lia).
    rewrite rd_wr by lia.
    destruct (Z.eqb_spec i j) as [->|Hne].
    + destruct (Z.leb_spec (j + 1) j); [lia|]. simpl.
      destruct (Z.leb_spec j j); [|lia].
      destruct (Z.ltb_spec j (j + Z.of_nat (S n))); [|lia]. reflexivity.
    + destruct (Z.leb_spec (i + 1) j), (Z.leb_spec i j); try lia; simpl;
        try reflexivity.
      destruct (Z.ltb_spec j (i + 1 + Z.of_nat n)),
               (Z.ltb_spec j (i + Z.of_nat (S n))); try lia; reflexivity.
Qed.

Lemma for_up_wr_globals f n : forall i st,
  let st' := for_up n i (fun k => wr k f) st in
  length (schedlist st') = length (schedlist st) /\
  sched_analoglist st' = sched_analoglist st /\
  sched_ISR_installed st' = sched_ISR_installed st.
Proof.
  induction n as [|n IH]; intros i st; simpl; [repeat split; reflexivity|].
  destruct (IH (i + 1) (wr i f st)) as (H1 & H2 & H3).
  rewrite H1, H2, H3, length_wr. repeat split; reflexivity.
Qed.

Lemma for_up_zero_buffer n : forall i st,
  0 <= i ->
  schedlist
    (for_up n i
       (fun (k : Z) (s : state) =>
          set_sched_analoglist (<[Z.to_nat k := 0]> (sched_analoglist s)) s)
       st) = schedlist st /\
  length (sched_analoglist
    (for_up n i
       (fun (k : Z) (s : state) =>
          set_sched_analoglist (<[Z.to_nat k := 0]> (sched_analoglist s)) s)
       st)) = length (sched_analoglist st) /\
  forall c, 0 <= c ->
    sched_analoglist
      (for_up n i
         (fun (k : Z) (s : state) =>
            set_sched_analoglist (<[Z.to_nat k := 0]> (sched_analoglist s)) s)
         st) !! Z.to_nat c =
      if (i <=? c) && (c <? i + Z.of_nat n)
      then (fun _ => 0) <$> (sched_analoglist st !! Z.to_nat c)
      else sched_analoglist st !! Z.to_nat c.
Proof.
  induction n as [|n IH]; intros i st Hi; simpl for_up.
  - split; [reflexivity|]. split; [reflexivity|]. intros c Hc.
    destruct (Z.leb_spec i c), (Z.ltb_spec c (i + Z.of_nat 0)); simpl;
      try reflexivity; lia.
  - destruct (IH (i + 1)
                (set_sched_analoglist (<[Z.to_nat i := 0]> (sched_analoglist st)) st)
                ltac:(lia)) as (H1 & H2 & H3).
    rewrite H1, H2. simpl.
    split; [reflexivity|]. split; [apply length_insert|]. intros c Hc.
    rewrite H3 by exact Hc. simpl.
    destruct (Z.eq_dec i c) as [->|Hne].
    + destruct (Z.leb_spec (c + 1) c); [lia|]. simpl.
      destruct (Z.leb_spec c c); [|lia].
      destruct (Z.ltb_spec c (c + Z.of_nat (S n))); [|lia]. simpl.
      destruct (sched_analoglist st !! Z.to_nat c) eqn:E.
      * rewrite list_lookup_insert_eq; [reflexivity|].
        apply lookup_lt_Some in E. exact E.
      * rewrite list_insert_ge; [exact E|]. apply lookup_ge_None. exact E.
    + rewrite list_lookup_insert_ne by lia.
      destruct (Z.leb_spec (i + 1) c), (Z.leb_spec i c); try lia; simpl;
        try reflexivity.
      destruct (Z.ltb_spec c (i + 1 + Z.of_nat n)),
               (Z.ltb_spec c (i + Z.of_nat (S n))); try lia; reflexivity.
Qed.

Lemma zero_loop_only_buffer n : forall i st,
  for_up n i
    (fun (k : Z) (s : state) =>
       set_sched_analoglist (<[Z.to_nat k := 0]> (sched_analoglist s)) s) st
  = set_sched_analoglist
      (sched_analoglist
         (for_up n i
            (fun (k : Z) (s : state) =>
               set_sched_analoglist (<[Z.to_nat k := 0]> (sched_analoglist s)) s)
            st)) st.
Proof.
  induction n as [|n IH]; intros i st; simpl for_up.
  - destruct st; reflexivity.
  - rewrite IH at 1. reflexivity.
Qed.

Lemma wr_loop_only_table f n : forall i st,
  for_up n i (fun k => wr k f) st
  = set_schedlist (schedlist (for_up n i (fun k => wr k f) st)) st.
Proof.
  induction n as [|n IH]; intros i st; simpl for_up.
  - destruct st; reflexivity.
  - rewrite IH at 1. reflexivity.
Qed.

Lemma find_ident_empty ident st :
  sched_count st = 0 -> find_ident ident st = (0, -1).
Proof. intros H. unfold find_ident. rewrite H. reflexivity. Qed.

(** What [sched_list_init] leaves behind, field by field. *)
Lemma sched_list_init_fields p e n st :
  length (schedlist st) = 11%nat ->
  let st' := sched_list_init p e n st in
  sched_count st' = 0 /\
  sched_initialized st' = 1 /\
  sched_current_analog st' = 0 /\
  sched_priorms st' = millis e /\
  sched_num_analogs st' =
    (if MAX_ANALOG_PIN p + 1 <? n then MAX_ANALOG_PIN p + 1 else n) /\
  length (schedlist st') = 11%nat /\
  length (sched_analoglist st') = length (sched_analoglist st) /\
  (forall j, 0 <= j ->
     rd st' j = if j <? MAX_SCHED then clear_slot (rd st j) else rd st j) /\
  (forall c, 0 <= c < MAX_ANALOG_PIN p + 1 ->
     sched_analoglist st' !! Z.to_nat c =
       (fun _ => 0) <$> (sched_analoglist st !! Z.to_nat c)).
Proof.
  intros Hlen st'. subst st'. unfold sched_list_init.
  set (st1 := for_up (Z.to_nat MAX_SCHED) 0 (fun i => wr i clear_slot)
                (set_sched_initialized 0 st)).
  set (num := if MAX_ANALOG_PIN p + 1 <? n then MAX_ANALOG_PIN p + 1 else n).
  assert (Hmax : 0 <= MAX_ANALOG_PIN p) by (destruct p; simpl; lia).
  destruct (for_up_zero_buffer (Z.to_nat (MAX_ANALOG_PIN p + 1)) 0
              (set_sched_num_analogs num st1) ltac:(lia)) as (B1 & B2 & B3).
  rewrite (zero_loop_only_buffer (Z.to_nat (MAX_ANALOG_PIN p + 1)) 0
             (set_sched_num_analogs num st1)).
  set (buf := sched_analoglist
                (for_up (Z.to_nat (MAX_ANALOG_PIN p + 1)) 0
                   (fun (k : Z) (s : state) =>
                      set_sched_analoglist
                        (<[Z.to_nat k := 0]> (sched_analoglist s)) s)
                   (set_sched_num_analogs num st1))) in *.
  assert (Hst1 : st1 = set_schedlist (schedlist st1) (set_sched_initialized 0 st))
    by (subst st1; apply wr_loop_only_table).
  assert (Hrd : forall j, 0 <= j ->
    rd st1 j = if j <? MAX_SCHED then clear_slot (rd st j) else rd st j).
  { intros j Hj. subst st1. rewrite for_up_wr_rd; simpl; rewrite ?Hlen;
      unfold MAX_SCHED; try lia.
    destruct (Z.leb_spec 0 j); [|lia]. reflexivity. }
  assert (Hl1 : length (schedlist st1) = 11%nat).
  { destruct (for_up_wr_globals clear_slot (Z.to_nat MAX_SCHED) 0
                (set_sched_initialized 0 st)) as (W1 & _).
    fold st1 in W1. rewrite W1. exact Hlen. }
  assert (Hb1 : sched_analoglist st1 = sched_analoglist st)
    by (rewrite Hst1; reflexivity).
  simpl in B2, B3.
  rewrite Hst1.
  match goal with
  | |- context [if truthy ?c then _ else _] => destruct (truthy c)
  end; simpl;
    (split; [reflexivity|]); (split; [reflexivity|]); (split; [reflexivity|]);
    (split; [reflexivity|]); (split; [reflexivity|]);
    (split; [exact Hl1|]); (split; [exact B2|]);
    (split; [exact Hrd|]);
    intros c Hc; rewrite B3 by lia;
    destruct (Z.leb_spec 0 c); try lia;
    destruct (Z.ltb_spec c (0 + Z.of_nat (Z.to_nat (MAX_ANALOG_PIN p + 1))));
    try lia; reflexivity.
Qed.

Lemma queries_not_found p e ident level reset h1 h2 st :
  snd (find_ident ident st) < 0 ->
  sched_check p e ident st = (0, st) /\
  sched_pin_gohigh ident st = (0, st) /\
  sched_pin_golow ident st = (0, st) /\
  sched_pin_level ident level st = (0, st) /\
  sched_pin_event_count ident level reset h1 h2 st = (0, st).
Proof.
  intros Hf.
  unfold sched_check, sched_pin_gohigh, sched_pin_golow, sched_pin_level,
    sched_pin_event_count.
  destruct (find_ident ident st) as [i pos]. simpl in Hf.
  destruct (Z.ltb_spec pos 0) as [_|?]; [|lia].
  repeat split; reflexivity.
Qed.

Lemma wf_boot_state p : wf (boot_state p).
Proof.
  split; [reflexivity|]. split; [vm_compute; split; discriminate|].
  intros i. unfold rd.
  destruct (schedlist (boot_state p) !! Z.to_nat i) as [s|] eqn:E;
    [|unfold default; simpl; lia].
  change (schedlist (boot_state p)) with (replicate 11 sched_zero) in E.
  apply lookup_replicate in E as [-> _]. unfold default. simpl. lia.
Qed.

(** X1: [sched_list_init] may be called on any table, also in the middle
    of a run.  It leaves an empty, well-formed, initialised table whose
    scan count is the argument clamped to the number of analog pins; on
    that table every identifier is unknown, so every query answers 0 and
    changes nothing, and every analog channel reads 0. *)
Theorem sched_list_init_resets p e n st :
  wf st ->
  length (sched_analoglist st) = Z.to_nat (MAX_ANALOG_PIN p + 1) ->
  let st' := sched_list_init p e n st in
  wf st' /\ sched_count st' = 0 /\
  truthy (sched_initialized st') = true /\
  sched_num_analogs st' = Z.min n (MAX_ANALOG_PIN p + 1) /\
  length (sched_analoglist st') = Z.to_nat (MAX_ANALOG_PIN p + 1) /\
  (forall ident e', sched_check p e' ident st' = (0, st')) /\
  (forall ident, sched_pin_gohigh ident st' = (0, st')) /\
  (forall ident, sched_pin_golow ident st' = (0, st')) /\
  (forall ident level, sched_pin_level ident level st' = (0, st')) /\
  (forall ident level reset h1 h2,
     sched_pin_event_count ident level reset h1 h2 st' = (0, st')) /\
  (forall pin, 0 <= pin <= MAX_ANALOG_PIN p ->
     sched_analogread pin st' = Some 0).
Proof.
  intros (Hlen & Hcnt & Hrng) Hbuf st'.
  destruct (sched_list_init_fields p e n st Hlen)
    as (Hc & Hi & _ & _ & Hn & Hl & Hb & Hrd & Hz).
  fold st' in Hc, Hi, Hn, Hl, Hb, Hrd, Hz.
  assert (Hnf : forall ident, snd (find_ident ident st') < 0)
    by (intros ident; rewrite find_ident_empty by exact Hc; simpl; lia).
  split.
  { split; [exact Hl|]. split; [rewrite Hc; unfold MAX_SCHED; lia|].
    assert (Hid : forall j, 0 <= j -> 0 <= id (rd st' j) < 256).
    { intros j Hj. rewrite Hrd by exact Hj.
      destruct (j <? MAX_SCHED); [simpl; lia|apply Hrng]. }
    intros i. destruct (Z.le_gt_cases 0 i) as [H0|H0]; [apply Hid; exact H0|].
    rewrite rd_neg by exact H0. apply Hid. lia. }
  split; [exact Hc|]. split; [rewrite Hi; reflexivity|].
  split; [rewrite Hn; destruct (Z.ltb_spec (MAX_ANALOG_PIN p + 1) n); lia|].
  split; [rewrite Hb; exact Hbuf|].
  split; [intros ident e';
          destruct (queries_not_found p e' ident 0 0 0 0 st' (Hnf ident))
            as (Q & _); exact Q|].
  split; [intros ident;
          destruct (queries_not_found p e ident 0 0 0 0 st' (Hnf ident))
            as (_ & Q & _); exact Q|].
  split; [intros ident;
          destruct (queries_not_found p e ident 0 0 0 0 st' (Hnf ident))
            as (_ & _ & Q & _); exact Q|].
  split; [intros ident level;
          destruct (queries_not_found p e ident level 0 0 0 st' (Hnf ident))
            as (_ & _ & _ & Q & _); exact Q|].
  split; [intros ident level reset h1 h2;
          destruct (queries_not_found p e ident level reset h1 h2 st'
                      (Hnf ident)) as (_ & _ & _ & _ & Q); exact Q|].
  intros pin Hpin. unfold sched_analogread.
  destruct (sched_num_analogs st' <? pin); [reflexivity|].
  rewrite Hz by lia.
  destruct (sched_analoglist st !! Z.to_nat pin) eqn:E; [reflexivity|].
  apply lookup_ge_None in E. lia.
Qed.

Lemma sched_list_init_resets_witness :
  let st' := sched_list_init Arduino (all_pins 40 false) 9 scene_low in
  sched_count st' = 0 /\ sched_num_analogs st' = 6 /\
  sched_pin_gohigh 6 st' = (0, st').
Proof.
  destruct (sched_list_init_resets Arduino (all_pins 40 false) 9 scene_low
              wf_scene_low ltac:(vm_compute; reflexivity))
    as (_ & Hc & _ & Hn & _ & _ & Hq & _).
  split; [exact Hc|]. split; [exact Hn|]. apply Hq.
Defined.

(** X2: an identifier that no registered slot carries is unknown to every
    query: the two edge queries, the level query and the edge count return
    0 and leave the state as it was. *)
Theorem queries_on_unknown_id ident level reset h1 h2 st :
  (forall i, 0 <= i < sched_count st -> id (rd st i) <> ident) ->
  sched_pin_gohigh ident st = (0, st) /\
  sched_pin_golow ident st = (0, st) /\
  sched_pin_level ident level st = (0, st) /\
  sched_pin_event_count ident level reset h1 h2 st = (0, st).
Proof.
  intros Hno.
  destruct (queries_not_found Arduino (all_pins 0 false) ident level reset
              h1 h2 st) as (_ & Q);
    [rewrite find_ident_none by exact Hno; lia | exact Q].
Qed.

Lemma queries_on_unknown_id_witness :
  sched_pin_gohigh 9 scene_high = (0, scene_high) /\
  sched_pin_event_count 9 1 1 0 0 scene_high = (0, scene_high).
Proof.
  destruct (queries_on_unknown_id 9 1 1 0 0 scene_high) as (H1 & _ & _ & H4).
  - intros i Hi.
    assert (Hc : sched_count scene_high = 1) by (vm_compute; reflexivity).
    rewrite Hc in Hi. assert (i = 0) as -> by lia. vm_compute. discriminate.
  - split; [exact H1 | exact H4].
Defined.

(** ** Registration is stable *)

Lemma same_registration_refl st : same_registration st st.
Proof. repeat split; reflexivity. Qed.

Lemma same_registration_wr pos f st :
  (forall s, id (f s) = id s) -> same_registration st (wr pos f st).
Proof.
  intros Hid. split; [reflexivity|]. split; [apply length_wr|].
  intros j _. apply id_rd_wr. exact Hid.
Qed.

Lemma same_registration_trans st1 st2 st3 :
  same_registration st1 st2 -> same_registration st2 st3 ->
  same_registration st1 st3.
Proof.
  intros (A1 & A2 & A3) (B1 & B2 & B3).
  split; [congruence|]. split; [congruence|].
  intros j Hj. rewrite B3, A3 by exact Hj. reflexivity.
Qed.

Lemma same_registration_wf st st' :
  same_registration st st' -> wf st -> wf st'.
Proof.
  intros (Hc & Hl & Hid) (Hlen & Hcnt & Hrng).
  split; [congruence|]. split; [rewrite Hc; exact Hcnt|].
  intros i. destruct (Z.le_gt_cases 0 i) as [H0|H0].
  - rewrite Hid by exact H0. apply Hrng.
  - rewrite rd_neg by exact H0. rewrite Hid by lia. apply Hrng.
Qed.

Lemma same_registration_find st st' ident :
  same_registration st st' -> find_ident ident st' = find_ident ident st.
Proof.
  intros (Hc & _ & Hid). apply find_ident_ext; [exact Hc|].
  intros j Hj. apply Hid. lia.
Qed.

Lemma same_registration_unique st st' :
  same_registration st st' -> unique_ids st -> unique_ids st'.
Proof.
  intros (Hc & _ & Hid) Hu i j Hi Hj E. rewrite Hc in Hi, Hj.
  apply Hu; [exact Hi|exact Hj|]. rewrite <- !Hid by lia. exact E.
Qed.

Lemma same_registration_check0 p e pos st :
  same_registration st (snd (sched_check0 p e pos st)).
Proof.
  unfold sched_check0.
  destruct ((pos <? 0) || (sched_count st <=? pos));
    [apply same_registration_refl|].
  destruct (truthy (active (rd st pos))); [|apply same_registration_refl].
  destruct (schedtime (rd st pos) <=? millis e);
    [|apply same_registration_refl].
  simpl snd. split; [reflexivity|]. split; [apply length_wr|].
  intros j _. apply id_rd_wr_at. apply id_expire_slot.
Qed.

Lemma same_registration_check p e ident st :
  same_registration st (snd (sched_check p e ident st)).
Proof.
  unfold sched_check. destruct (find_ident ident st) as [i pos].
  destruct (pos <? 0); [apply same_registration_refl|].
  apply same_registration_check0.
Qed.

Lemma same_registration_test0 pos level delta st :
  same_registration st (snd (sched_pin_test0 pos level delta st)).
Proof.
  unfold sched_pin_test0.
  destruct ((pos <? 0) || (sched_count st <=? pos));
    [apply same_registration_refl|].
  destruct (truthy (active (rd st pos))); [|apply same_registration_refl].
  cbv zeta.
  repeat match goal with
         | |- context [if ?c then _ else _] => destruct c
         end; simpl snd;
    apply same_registration_wr; intros []; reflexivity.
Qed.

Lemma same_registration_queries ident level st :
  same_registration st (snd (sched_pin_gohigh ident st)) /\
  same_registration st (snd (sched_pin_golow ident st)) /\
  same_registration st (snd (sched_pin_level ident level st)).
Proof.
  unfold sched_pin_gohigh, sched_pin_golow, sched_pin_level.
  destruct (find_ident ident st) as [i pos].
  destruct (pos <? 0);
    repeat split; try reflexivity;
    try (apply same_registration_test0).
Qed.

Lemma same_registration_count ident level reset h1 h2 st :
  same_registration st (snd (sched_pin_event_count ident level reset h1 h2 st)).
Proof.
  unfold sched_pin_event_count. destruct (find_ident ident st) as [i pos].
  destruct (pos <? 0); [apply same_registration_refl|].
  destruct (truthy level); destruct (truthy reset); simpl snd;
    try apply same_registration_refl;
    repeat match goal with
           | |- context [if ?c then _ else _] => destruct c
           end;
    (eapply same_registration_trans;
      [|apply same_registration_wr; intros []; reflexivity]);
    apply same_registration_wr; intros []; reflexivity.
Qed.

Lemma same_registration_ISR p e st :
  wf st -> same_registration st (ISR p e st).
Proof.
  intros Hwf. destruct (ISR_globals p e st) as (G1 & _ & G3).
  split; [exact G1|]. split; [exact G3|]. intros j _. apply ISR_id. exact Hwf.
Qed.

Lemma same_registration_event_found p e ident recur ms st :
  wf st -> 0 <= snd (find_ident ident st) ->
  same_registration st (snd (sched_event p e ident recur ms st)).
Proof.
  intros Hwf Hf.
  destruct (sched_event_found_ret p e ident recur ms st _ Hwf eq_refl Hf)
    as [_ Hc].
  destruct (sched_event_globals p e ident recur ms st) as (Hl & _).
  split; [exact Hc|]. split; [exact Hl|]. intros j Hj.
  apply (sched_event_found_id p e ident recur ms st
           (snd (find_ident ident st))); (assumption || reflexivity).
Qed.

Lemma sched_event_full p e ident recur ms st :
  snd (find_ident ident st) < 0 -> MAX_SCHED <= sched_count st ->
  sched_event p e ident recur ms st = (0, st).
Proof.
  intros Hf Hfull. unfold sched_event.
  destruct (find_ident ident st) as [i pos]. simpl in Hf.
  destruct (Z.ltb_spec pos 0) as [_|?]; [|lia].
  destruct (Z.ltb_spec (sched_count st) MAX_SCHED) as [?|_]; [lia|].
  destruct (Z.leb_spec 0 pos) as [?|_]; [lia|]. reflexivity.
Qed.

Lemma wf_sched_event p e ident recur ms st :
  wf st -> wf (snd (sched_event p e ident recur ms st)).
Proof.
  intros Hwf.
  destruct (Z.le_gt_cases 0 (snd (find_ident ident st))) as [Hf|Hf].
  - eapply same_registration_wf; [|exact Hwf].
    apply same_registration_event_found; assumption.
  - destruct (Z.lt_ge_cases (sched_count st) MAX_SCHED) as [Hroom|Hfull].
    + apply sched_event_fresh_wf; assumption.
    + rewrite sched_event_full by (assumption || lia). exact Hwf.
Qed.

Lemma wf_sched_list_init p e n st : wf st -> wf (sched_list_init p e n st).
Proof.
  intros (Hlen & Hcnt & Hrng).
  destruct (sched_list_init_fields p e n st Hlen)
    as (Hc & _ & _ & _ & _ & Hl & _ & Hrd & _).
  split; [exact Hl|]. split; [rewrite Hc; unfold MAX_SCHED; lia|].
  assert (Hid : forall j, 0 <= j ->
            0 <= id (rd (sched_list_init p e n st) j) < 256).
  { intros j Hj. rewrite Hrd by exact Hj.
    destruct (j <? MAX_SCHED); [simpl; lia|apply Hrng]. }
  intros i. destruct (Z.le_gt_cases 0 i) as [H0|H0]; [apply Hid; exact H0|].
  rewrite rd_neg by exact H0. apply Hid. lia.
Qed.

Lemma wf_run_op p o st : wf st -> wf (run_op p o st).
Proof.
  intros Hwf. destruct o; simpl.
  - apply wf_sched_list_init. exact Hwf.
  - apply wf_sched_event. exact Hwf.
  - apply wf_sched_event. exact Hwf.
  - eapply same_registration_wf; [apply same_registration_check|exact Hwf].
  - eapply same_registration_wf;
      [apply (same_registration_queries ident 0 st)|exact Hwf].
  - eapply same_registration_wf;
      [apply (same_registration_queries ident 0 st)|exact Hwf].
  - eapply same_registration_wf;
      [apply (same_registration_queries ident level st)|exact Hwf].
  - eapply same_registration_wf; [apply same_registration_count|exact Hwf].
  - apply wf_ISR. exact Hwf.
Qed.

(** X3: whatever the foreground calls and however often the interrupt is
    served, the table stays within its storage: the slot count stays
    between 0 and [MAX_SCHED], the array keeps its [MAX_SCHED+1] elements
    and every stored id stays an [unsigned char].  This holds from program
    start on. *)
Theorem table_stays_within_capacity p ops st :
  wf st ->
  let st' := run_ops p ops st in
  0 <= sched_count st' <= MAX_SCHED /\
  length (schedlist st') = 11%nat /\
  (forall i, 0 <= id (rd st' i) < 256).
Proof.
  intros Hwf st'.
  assert (H : wf st').
  { subst st'. revert st Hwf. induction ops as [|o ops IH]; intros st Hwf;
      [exact Hwf|].
    unfold run_ops. simpl foldl. apply IH. apply wf_run_op. exact Hwf. }
  destruct H as (Hl & Hc & Hr). repeat split; try assumption; apply Hc || apply Hr.
Qed.

Lemma table_stays_within_capacity_witness :
  sched_count
    (run_ops Arduino
       [OpInit (all_pins 0 false) 2; OpEvent (all_pins 0 false) (-3) 1 10;
        OpEvent (all_pins 0 false) (-3) 1 10; OpISR (all_pins 1 true);
        OpCancel (all_pins 1 true) 6] (boot_state Arduino)) <= MAX_SCHED.
Proof.
  destruct (table_stays_within_capacity Arduino
              [OpInit (all_pins 0 false) 2; OpEvent (all_pins 0 false) (-3) 1 10;
               OpEvent (all_pins 0 false) (-3) 1 10; OpISR (all_pins 1 true);
               OpCancel (all_pins 1 true) 6] (boot_state Arduino)
              (wf_boot_state Arduino)) as ((_ & H) & _).
  exact H.
Defined.

(** ** Identifiers *)

Lemma find_ident_none_inv ident st :
  snd (find_ident ident st) < 0 ->
  forall j, 0 <= j < sched_count st -> id (rd st j) <> ident.
Proof.
  intros Hf j Hj. unfold find_ident in Hf.
  pose proof (scan_ids_spec ident st (Z.to_nat (sched_count st)) 0 (-1)) as H.
  simpl in H. destruct H as [[_ Hno]|[Hr _]]; [|lia].
  apply Hno. lia.
Qed.

Lemma find_ident_range ident st :
  let r := snd (find_ident ident st) in r = -1 \/ 0 <= r < sched_count st.
Proof.
  unfold find_ident.
  pose proof (scan_ids_spec ident st (Z.to_nat (sched_count st)) 0 (-1)) as H.
  simpl in H. destruct H as [[Hr _]|[Hr _]]; [left; exact Hr|right; lia].
Qed.

Lemma scan_ids_snoc ident st n : forall i pos,
  scan_ids ident st (S n) i pos =
    (fst (scan_ids ident st n i pos) + 1,
     if ident =? id (rd st (fst (scan_ids ident st n i pos)))
     then fst (scan_ids ident st n i pos)
     else snd (scan_ids ident st n i pos)).
Proof.
  induction n as [|n IH]; intros i pos; [reflexivity|].
  change (scan_ids ident st (S (S n)) i pos)
    with (scan_ids ident st (S n) (i + 1)
            (if ident =? id (rd st i) then i else pos)).
  rewrite IH. reflexivity.
Qed.

Lemma negative_ident_not_found ident st :
  wf st -> ident < 0 -> snd (find_ident ident st) = -1.
Proof.
  intros (_ & _ & Hrng) Hneg. apply find_ident_none.
  intros i _. specialize (Hrng i). lia.
Qed.

(** X4: a negative identifier is never found again.  The stored id is an
    [unsigned char], so the scan's comparison with the [char] argument
    fails for every slot: each [sched_event] on a negative id takes a new
    slot while there is room, leaves all registered slots as they were,
    and the slot it has armed answers 0 to [sched_check] for ever. *)
Theorem negative_id_is_never_found p e e' ident recur ms st :
  wf st -> -128 <= ident < 0 ->
  snd (find_ident ident st) = -1 /\
  sched_check p e' ident st = (0, st) /\
  (sched_count st < MAX_SCHED ->
   let st' := snd (sched_event p e ident recur ms st) in
   fst (sched_event p e ident recur ms st) = 1 /\
   sched_count st' = sched_count st + 1 /\
   id (rd st' (sched_count st)) = ident + 256 /\
   (forall j, 0 <= j < sched_count st -> rd st' j = rd st j) /\
   snd (find_ident ident st') = -1 /\
   sched_check p e' ident st' = (0, st')).
Proof.
  intros Hwf Hneg.
  pose proof (negative_ident_not_found ident st Hwf ltac:(lia)) as Hf.
  split; [exact Hf|].
  split.
  { destruct (queries_not_found p e' ident 0 0 0 0 st ltac:(lia)) as (Q & _).
    exact Q. }
  intros Hroom st'. pose proof Hwf as (Hlen & Hcnt & Hrng).
  destruct (sched_event_fresh_ret p e ident recur ms st ltac:(lia) ltac:(lia))
    as [Hr Hc].
  assert (Hwf' : wf st') by (apply wf_sched_event; exact Hwf).
  pose proof (negative_ident_not_found ident st' Hwf' ltac:(lia)) as Hf'.
  split; [exact Hr|]. split; [exact Hc|].
  split.
  { subst st'. rewrite sched_event_fresh_rd by (assumption || lia).
    rewrite Z.eqb_refl. simpl. unfold to_uchar.
    rewrite <- (Z_mod_plus_full ident 1 256). apply Z.mod_small. lia. }
  split.
  { intros j Hj. subst st'. rewrite sched_event_fresh_rd by (assumption || lia).
    destruct (Z.eqb_spec j (sched_count st)); [lia|reflexivity]. }
  split; [exact Hf'|].
  destruct (queries_not_found p e' ident 0 0 0 0 st' ltac:(lia)) as (Q & _).
  exact Q.
Qed.

Lemma negative_id_is_never_found_witness :
  let st' := snd (sched_event Arduino (all_pins 0 false) (-3) 1 10 scene_init) in
  sched_count st' = 1 /\ id (rd st' 0) = 253 /\
  sched_check Arduino (all_pins 99 false) (-3) st' = (0, st').
Proof.
  destruct (negative_id_is_never_found Arduino (all_pins 0 false)
              (all_pins 99 false) (-3) 1 10 scene_init wf_scene_init
              ltac:(lia)) as (_ & _ & H).
  destruct H as (_ & Hc & Hid & _ & _ & Hq); [vm_compute; reflexivity|].
  split; [exact Hc|]. split; [exact Hid | exact Hq].
Defined.

Lemma unique_ids_fresh p e ident recur ms st :
  wf st -> 0 <= ident <= 127 ->
  snd (find_ident ident st) < 0 -> sched_count st < MAX_SCHED ->
  unique_ids st -> unique_ids (snd (sched_event p e ident recur ms st)).
Proof.
  intros Hwf Hid Hf Hroom Hu. pose proof Hwf as (Hlen & Hcnt & Hrng).
  destruct (sched_event_fresh_ret p e ident recur ms st Hf ltac:(lia))
    as [_ Hc].
  assert (Hu8 : to_uchar ident = ident)
    by (unfold to_uchar; apply Z.mod_small; lia).
  assert (Hrd : forall j, 0 <= j ->
    id (rd (snd (sched_event p e ident recur ms st)) j) =
    if j =? sched_count st then ident else id (rd st j)).
  { intros j Hj. rewrite sched_event_fresh_rd by assumption.
    destruct (j =? sched_count st); [simpl; exact Hu8|reflexivity]. }
  pose proof (find_ident_none_inv ident st Hf) as Hno.
  intros i j Hi Hj E. rewrite Hc in Hi, Hj.
  rewrite !Hrd in E by lia.
  destruct (Z.eqb_spec i (sched_count st)) as [Ei|Ei];
    destruct (Z.eqb_spec j (sched_count st)) as [Ej|Ej].
  - congruence.
  - exfalso. apply (Hno j); [lia|congruence].
  - exfalso. apply (Hno i); [lia|congruence].
  - apply Hu; [lia|lia|exact E].
Qed.

Lemma unique_ids_event p e ident recur ms st :
  wf st -> 0 <= ident <= 127 -> unique_ids st ->
  unique_ids (snd (sched_event p e ident recur ms st)).
Proof.
  intros Hwf Hid Hu.
  destruct (Z.le_gt_cases 0 (snd (find_ident ident st))) as [Hf|Hf].
  - eapply same_registration_unique; [|exact Hu].
    apply same_registration_event_found; assumption.
  - destruct (Z.lt_ge_cases (sched_count st) MAX_SCHED) as [Hroom|Hfull].
    + apply unique_ids_fresh; assumption.
    + rewrite sched_event_full by (assumption || lia). exact Hu.
Qed.

Lemma unique_ids_run_op p o st :
  wf st -> (forall ident, op_ident o = Some ident -> 0 <= ident <= 127) ->
  unique_ids st -> unique_ids (run_op p o st).
Proof.
  intros Hwf Hid Hu. destruct o; simpl.
  - intros i j Hi.
    destruct (sched_list_init_fields p e num_analogs_toscan st)
      as (Hc & _); [apply Hwf|]. rewrite Hc in Hi. lia.
  - apply unique_ids_event; [exact Hwf|apply Hid; reflexivity|exact Hu].
  - apply unique_ids_event; [exact Hwf|apply Hid; reflexivity|exact Hu].
  - eapply same_registration_unique; [apply same_registration_check|exact Hu].
  - eapply same_registration_unique;
      [apply (same_registration_queries ident 0 st)|exact Hu].
  - eapply same_registration_unique;
      [apply (same_registration_queries ident 0 st)|exact Hu].
  - eapply same_registration_unique;
      [apply (same_registration_queries ident level st)|exact Hu].
  - eapply same_registration_unique; [apply same_registration_count|exact Hu].
  - eapply same_registration_unique;
      [apply same_registration_ISR; exact Hwf|exact Hu].
Qed.

(** X5: as long as the identifiers passed to [sched_event] and
    [sched_cancel] are non-negative [char]s, no two registered slots ever
    carry the same id: re-registration rewrites the existing slot, and
    nothing else changes a stored id. *)
Theorem one_slot_per_identifier p ops st :
  wf st -> unique_ids st -> nonneg_idents ops ->
  unique_ids (run_ops p ops st).
Proof.
  revert st. induction ops as [|o ops IH]; intros st Hwf Hu Hn; [exact Hu|].
  unfold run_ops. simpl foldl. apply IH.
  - apply wf_run_op. exact Hwf.
  - apply unique_ids_run_op; [exact Hwf| |exact Hu].
    intros ident E. apply (Hn o); [left; reflexivity|exact E].
  - intros o' ident Hin E. apply (Hn o'); [right; exact Hin|exact E].
Qed.

Lemma one_slot_per_identifier_witness :
  unique_ids
    (run_ops Arduino
       [OpInit (all_pins 0 false) 0; OpEvent (all_pins 0 false) 6 1 1;
        OpEvent (all_pins 0 false) 20 0 1000; OpISR (all_pins 1 true);
        OpEvent (all_pins 1 true) 6 1 1] (boot_state Arduino)).
Proof.
  apply one_slot_per_identifier.
  - apply wf_boot_state.
  - intros i j Hi. simpl in Hi. lia.
  - intros o ident Hin E. simpl in Hin.
    repeat (destruct Hin as [<-|Hin]; [simpl in E; inversion E; lia|]).
    contradiction.
Defined.

(** ** Registering and cancelling *)

Lemma find_ident_fresh_other p e ident recur ms st x :
  wf st -> snd (find_ident ident st) < 0 -> sched_count st < MAX_SCHED ->
  x <> to_uchar ident ->
  snd (find_ident x (snd (sched_event p e ident recur ms st))) =
  snd (find_ident x st).
Proof.
  intros Hwf Hf Hroom Hx. pose proof Hwf as (Hlen & Hcnt & Hrng).
  destruct (sched_event_fresh_ret p e ident recur ms st Hf ltac:(lia))
    as [_ Hc].
  set (st' := snd (sched_event p e ident recur ms st)) in *.
  assert (Hrd : forall j, 0 <= j ->
    id (rd st' j) = if j =? sched_count st then to_uchar ident else id (rd st j)).
  { intros j Hj. subst st'. rewrite sched_event_fresh_rd by assumption.
    destruct (j =? sched_count st); reflexivity. }
  unfold find_ident. rewrite Hc.
  replace (Z.to_nat (sched_count st + 1)) with (S (Z.to_nat (sched_count st)))
    by lia.
  rewrite scan_ids_snoc. simpl snd. rewrite scan_ids_index.
  replace (0 + Z.of_nat (Z.to_nat (sched_count st))) with (sched_count st)
    by lia.
  rewrite Hrd, Z.eqb_refl by lia.
  destruct (Z.eqb_spec x (to_uchar ident)); [contradiction|].
  f_equal. apply scan_ids_ext; [lia|]. intros j Hj.
  rewrite Hrd by lia. destruct (Z.eqb_spec j (sched_count st)); [lia|reflexivity].
Qed.

(** X6: a successful [sched_event] on a non-negative [char] id can be
    looked up afterwards.  The slot the scan then finds holds the id, the
    period, the recurrence flag as an [unsigned char], the due time "now
    plus period" modulo 2^32, both edge counters at 0, and is active
    unless the call was the cancel idiom; every other registered slot is
    exactly as before, and every other id is found where it was.  The call
    succeeds exactly when the id was registered or a slot was free. *)
Theorem sched_event_registers p e ident recur ms st :
  wf st -> 0 <= ident <= 127 ->
  let r := sched_event p e ident recur ms st in
  fst r = (if (0 <=? snd (find_ident ident st))
              || (sched_count st <? MAX_SCHED) then 1 else 0) /\
  (fst r = 1 ->
   let pos := snd (find_ident ident (snd r)) in
   pos = (if 0 <=? snd (find_ident ident st)
          then snd (find_ident ident st) else sched_count st) /\
   0 <= pos < sched_count (snd r) /\
   id (rd (snd r) pos) = ident /\
   schedms (rd (snd r) pos) = ms /\
   recurring (rd (snd r) pos) = to_uchar recur /\
   schedtime (rd (snd r) pos) = to_ulong (ms + millis e) /\
   event_ct_up (rd (snd r) pos) = 0 /\
   event_ct_down (rd (snd r) pos) = 0 /\
   active (rd (snd r) pos) =
     (if negb (truthy recur) && (ms =? 0) then 0 else 1) /\
   (forall j, 0 <= j < sched_count st -> j <> pos ->
      rd (snd r) j = rd st j) /\
   (forall x, x <> ident ->
      snd (find_ident x (snd r)) = snd (find_ident x st))).
Proof.
  intros Hwf Hid r. pose proof Hwf as (Hlen & Hcnt & Hrng).
  assert (Hu8 : to_uchar ident = ident)
    by (unfold to_uchar; apply Z.mod_small; lia).
  destruct (Z.leb_spec 0 (snd (find_ident ident st))) as [Hf|Hf].
  - (* re-registration *)
    destruct (sched_event_found_ret p e ident recur ms st _ Hwf eq_refl Hf)
      as [Hr Hc].
    destruct (sched_event_found_wf p e ident recur ms st _ Hwf eq_refl Hf)
      as [Hwf' Hfind'].
    destruct (find_ident_found ident st _ eq_refl Hf) as [Hlt Hidp].
    fold r in Hr, Hc, Hwf', Hfind'.
    split; [exact Hr|]. intros _ pos. subst pos. rewrite Hfind'.
    set (pos := snd (find_ident ident st)) in *.
    assert (Hslot := sched_event_found_rd p e ident recur ms st pos pos Hwf
                       eq_refl Hf Hf).
    cbv zeta in Hslot. rewrite Z.eqb_refl in Hslot. fold r in Hslot.
    split; [reflexivity|]. split; [rewrite Hc; lia|].
    rewrite Hslot. simpl.
    repeat (split; [reflexivity|]).
    split.
    + intros j Hj Hne. subst r.
      rewrite (sched_event_found_rd p e ident recur ms st pos j Hwf eq_refl Hf)
        by lia.
      destruct (Z.eqb_spec j pos); [contradiction|].
      destruct (Z.eqb_spec j (sched_count st)); [lia|]. reflexivity.
    + intros x _. rewrite Hfind'. reflexivity.
  - destruct (Z.ltb_spec (sched_count st) MAX_SCHED) as [Hroom|Hfull].
    + (* first registration *)
      destruct (sched_event_fresh_ret p e ident recur ms st Hf ltac:(lia))
        as [Hr Hc].
      fold r in Hr, Hc.
      split; [exact Hr|]. intros _ pos.
      assert (Hslot := sched_event_fresh_rd p e ident recur ms st
                         (sched_count st) Hwf Hf Hroom ltac:(lia)).
      cbv zeta in Hslot. rewrite Z.eqb_refl, Hu8 in Hslot. fold r in Hslot.
      assert (Hpos : pos = sched_count st).
      { subst pos. apply find_ident_last; [lia| rewrite Hslot; reflexivity |].
        intros j Hj. lia. }
      rewrite Hpos. split; [reflexivity|]. split; [lia|].
      rewrite Hslot. simpl.
      repeat (split; [reflexivity|]).
      split.
      * intros j Hj Hne. subst r.
        rewrite sched_event_fresh_rd by (assumption || lia).
        destruct (Z.eqb_spec j (sched_count st)); [lia|reflexivity].
      * intros x Hx. subst r. apply find_ident_fresh_other; try assumption.
        rewrite Hu8. exact Hx.
    + (* table full *)
      subst r. rewrite sched_event_full by (assumption || lia).
      split; [reflexivity|]. simpl. discriminate.
Qed.

Lemma sched_event_registers_witness :
  let r := sched_event Arduino (all_pins 7 false) 21 0 250 scene_armed in
  fst r = 1 /\ snd (find_ident 21 (snd r)) = 1 /\
  schedtime (rd (snd r) 1) = 257 /\ rd (snd r) 0 = rd scene_armed 0.
Proof.
  assert (Hwf : wf scene_armed) by wf_by_compute.
  destruct (sched_event_registers Arduino (all_pins 7 false) 21 0 250
              scene_armed Hwf ltac:(lia)) as [Hr H].
  assert (Hok : fst (sched_event Arduino (all_pins 7 false) 21 0 250
                       scene_armed) = 1) by (rewrite Hr; reflexivity).
  destruct (H Hok) as (Hpos & _ & _ & _ & _ & Ht & _ & _ & _ & Hframe & _).
  assert (Hp1 : snd (find_ident 21 (snd (sched_event Arduino (all_pins 7 false)
                                           21 0 250 scene_armed))) = 1)
    by (rewrite Hpos; reflexivity).
  rewrite Hp1 in Ht, Hframe.
  split; [exact Hok|]. split; [exact Hp1|]. split; [exact Ht|].
  apply Hframe; [vm_compute; split; [discriminate|reflexivity] | lia].
Defined.

(** X7: [sched_cancel] on an id that was never registered is not a no-op.
    While a slot is free it registers the id in a new, inactive slot and
    returns 1; the slot stays silent for [sched_check].  With a full table
    it returns 0 and changes nothing. *)
Theorem sched_cancel_unknown_takes_a_slot p e e' ident st :
  wf st -> -128 <= ident <= 127 ->
  (forall i, 0 <= i < sched_count st -> id (rd st i) <> ident) ->
  let r := sched_cancel p e ident st in
  (sched_count st < MAX_SCHED ->
   fst r = 1 /\ sched_count (snd r) = sched_count st + 1 /\
   id (rd (snd r) (sched_count st)) = to_uchar ident /\
   active (rd (snd r) (sched_count st)) = 0 /\
   sched_check p e' ident (snd r) = (0, snd r)) /\
  (sched_count st = MAX_SCHED -> r = (0, st)).
Proof.
  intros Hwf Hid Hno r. subst r. unfold sched_cancel.
  pose proof (find_ident_none ident st Hno) as Hf.
  pose proof Hwf as (Hlen & Hcnt & Hrng).
  split.
  - intros Hroom.
    destruct (sched_event_fresh_ret p e ident 0 0 st ltac:(lia) ltac:(lia))
      as [Hr Hc].
    assert (Hslot := sched_event_fresh_rd p e ident 0 0 st (sched_count st)
                       Hwf ltac:(lia) Hroom ltac:(lia)).
    cbv zeta in Hslot. rewrite Z.eqb_refl in Hslot.
    assert (Hother : forall j, 0 <= j -> j <> sched_count st ->
              rd (snd (sched_event p e ident 0 0 st)) j = rd st j).
    { intros j Hj Hne. rewrite sched_event_fresh_rd by (assumption || lia).
      destruct (Z.eqb_spec j (sched_count st)); [contradiction|reflexivity]. }
    set (st' := snd (sched_event p e ident 0 0 st)) in *.
    split; [exact Hr|]. split; [exact Hc|].
    split; [rewrite Hslot; reflexivity|].
    split; [rewrite Hslot; reflexivity|].
    destruct (find_ident_range ident st') as [Hnf|Hfound].
    + destruct (queries_not_found p e' ident 0 0 0 0 st' ltac:(lia)) as (Q & _).
      exact Q.
    + destruct (find_ident_found ident st' _ eq_refl ltac:(lia)) as [_ Hidp].
      assert (Hpos : snd (find_ident ident st') = sched_count st).
      { destruct (Z.eq_dec (snd (find_ident ident st')) (sched_count st))
          as [E|E]; [exact E|]. exfalso.
        apply (Hno (snd (find_ident ident st'))); [lia|].
        rewrite <- Hidp at 2. rewrite Hother by lia. reflexivity. }
      unfold sched_check.
      destruct (find_ident ident st') as [i pos]. simpl in Hpos. subst pos.
      destruct (Z.ltb_spec (sched_count st) 0); [lia|].
      apply sched_check0_idle. left. rewrite Hslot. reflexivity.
  - intros Hfull. apply sched_event_full; lia.
Qed.

Lemma sched_cancel_unknown_takes_a_slot_witness :
  fst (sched_cancel Arduino (all_pins 3 false) 42 scene_armed) = 1 /\
  sched_count (snd (sched_cancel Arduino (all_pins 3 false) 42 scene_armed)) = 2.
Proof.
  assert (Hwf : wf scene_armed) by wf_by_compute.
  destruct (sched_cancel_unknown_takes_a_slot Arduino (all_pins 3 false)
              (all_pins 4 false) 42 scene_armed Hwf ltac:(lia)) as [H _].
  - intros i Hi.
    assert (Hc : sched_count scene_armed = 1) by (vm_compute; reflexivity).
    rewrite Hc in Hi. assert (i = 0) as -> by lia. vm_compute. discriminate.
  - destruct H as (Hr & Hc & _); [vm_compute; reflexivity|].
    split; [exact Hr | exact Hc].
Defined.

(** ** Pin queries *)

Lemma pin_queries_inactive ident level st pos :
  snd (find_ident ident st) = pos -> 0 <= pos ->
  truthy (active (rd st pos)) = false ->
  sched_pin_gohigh ident st = (0, st) /\
  sched_pin_golow ident st = (0, st) /\
  sched_pin_level ident level st = (0, st).
Proof.
  intros Hf Hpos Hact.
  unfold sched_pin_gohigh, sched_pin_golow, sched_pin_level.
  destruct (find_ident ident st) as [i pos0]. simpl in Hf. subst pos0.
  destruct (Z.ltb_spec pos 0) as [?|_]; [lia|].
  unfold sched_pin_test0. rewrite Hact.
  destruct ((pos <? 0) || (sched_count st <=? pos)); repeat split; reflexivity.
Qed.

(** X8: the pin queries are edge-triggered and touch nothing but the
    changed flag.  Whichever of [sched_pin_gohigh], [sched_pin_golow] and
    [sched_pin_level] is called, the state afterwards is the state before
    or differs from it only in a cleared [debounce_change] of the queried
    slot; an edge query issued right after it returns 0; and the two edge
    queries never both report an edge from the same state. *)
Theorem pin_queries_consume_the_edge q ident st :
  wf st ->
  let r := run_query q ident st in
  (snd r = st \/
   snd r = wr (snd (find_ident ident st)) (set_debounce_change 0) st) /\
  fst (sched_pin_gohigh ident (snd r)) = 0 /\
  fst (sched_pin_golow ident (snd r)) = 0 /\
  (fst (sched_pin_gohigh ident st) = 0 \/ fst (sched_pin_golow ident st) = 0).
Proof.
  intros Hwf r.
  destruct (find_ident_range ident st) as [Hnf|Hfound].
  - (* unknown id *)
    assert (Hr : r = (0, st)).
    { subst r. destruct q; simpl;
        [destruct (queries_not_found Arduino (all_pins 0 false) ident 0 0 0 0 st
                     ltac:(lia)) as (_ & Q & _); exact Q
        |destruct (queries_not_found Arduino (all_pins 0 false) ident 0 0 0 0 st
                     ltac:(lia)) as (_ & _ & Q & _); exact Q
        |destruct (queries_not_found Arduino (all_pins 0 false) ident level 0 0
                     0 st ltac:(lia)) as (_ & _ & _ & Q & _); exact Q]. }
    rewrite Hr. simpl snd.
    destruct (queries_not_found Arduino (all_pins 0 false) ident 0 0 0 0 st
                ltac:(lia)) as (_ & Qh & Ql & _).
    rewrite Qh, Ql. simpl. auto.
  - set (pos := snd (find_ident ident st)) in *.
    assert (Hb : 0 <= pos < Z.of_nat (length (schedlist st)))
      by (apply wf_slot_bound; [exact Hwf|lia]).
    destruct (truthy (active (rd st pos))) eqn:Hact.
    + (* active slot *)
      pose proof (sched_pin_gohigh_active ident st pos Hwf eq_refl
                    ltac:(lia) Hact) as Qh.
      pose proof (sched_pin_golow_active ident st pos Hwf eq_refl
                    ltac:(lia) Hact) as Ql.
      assert (Hs : snd r = wr pos (set_debounce_change 0) st).
      { subst r. destruct q; simpl; [rewrite Qh|rewrite Ql|]; try reflexivity.
        apply (pin_level_on_active_slot ident level st pos Hwf eq_refl
                 ltac:(lia) Hact). }
      rewrite Hs.
      set (st' := wr pos (set_debounce_change 0) st).
      assert (Hwf' : wf st') by (apply wf_wr; [intros []; reflexivity|exact Hwf]).
      assert (Hf' : snd (find_ident ident st') = pos)
        by (subst st'; rewrite find_ident_wr by (intros []; reflexivity);
            reflexivity).
      assert (Hrd : rd st' pos = set_debounce_change 0 (rd st pos))
        by (subst st'; apply rd_wr_eq; exact Hb).
      assert (Hact' : truthy (active (rd st' pos)) = true)
        by (rewrite Hrd; exact Hact).
      rewrite (sched_pin_gohigh_active ident st' pos Hwf' Hf' ltac:(lia) Hact').
      rewrite (sched_pin_golow_active ident st' pos Hwf' Hf' ltac:(lia) Hact').
      rewrite Hrd, Qh, Ql. simpl.
      split; [right; reflexivity|]. split; [reflexivity|].
      split; [reflexivity|].
      destruct (truthy (debounce_change (rd st pos)));
        destruct (truthy (debounce_state (rd st pos))); simpl; auto.
    + (* registered but inactive *)
      destruct (pin_queries_inactive ident 0 st pos eq_refl ltac:(lia) Hact)
        as (Qh & Ql & _).
      assert (Hr : r = (0, st)).
      { subst r. destruct q; simpl; [exact Qh|exact Ql|].
        apply (pin_queries_inactive ident level st pos eq_refl ltac:(lia) Hact). }
      rewrite Hr. simpl snd. rewrite Qh, Ql. simpl. auto.
Qed.

Lemma pin_queries_consume_the_edge_witness :
  fst (sched_pin_golow 6 (snd (run_query QHigh 6 scene_low))) = 0.
Proof.
  destruct (pin_queries_consume_the_edge QHigh 6 scene_low wf_scene_low)
    as (_ & _ & H & _).
  exact H.
Defined.

(** ** What the interrupt leaves alone *)

Lemma expire_slot_keeps_setup p e s :
  recurring (expire_slot p e s) = recurring s /\
  schedms (expire_slot p e s) = schedms s.
Proof.
  unfold expire_slot.
  destruct (truthy (recurring s)); simpl;
    repeat match goal with
           | |- context [if ?c then _ else _] => destruct c; simpl
           end; split; reflexivity.
Qed.

(** X9: the interrupt never registers, removes or reconfigures a slot.
    Before [sched_list_init] has completed it does nothing at all.
    Afterwards it keeps the slot count and the id, recurrence and period
    of every slot, and it changes a slot only if that slot is registered,
    watches a pin, is active and is due: manual timers are advanced by
    [sched_check] alone. *)
Theorem interrupt_leaves_registration_and_timers p e st :
  wf st ->
  (truthy (sched_initialized st) = false -> ISR p e st = st) /\
  sched_count (ISR p e st) = sched_count st /\
  (forall j, 0 <= j ->
     id (rd (ISR p e st) j) = id (rd st j) /\
     recurring (rd (ISR p e st) j) = recurring (rd st j) /\
     schedms (rd (ISR p e st) j) = schedms (rd st j) /\
     (sched_count st <= j \/ is_pin p (rd st j) = false \/
      truthy (active (rd st j)) = false \/ millis e < schedtime (rd st j) ->
      rd (ISR p e st) j = rd st j)).
Proof.
  intros Hwf.
  split; [intros Hini; unfold ISR; rewrite Hini; reflexivity|].
  destruct (ISR_globals p e st) as (G1 & _).
  split; [exact G1|]. intros j Hj.
  rewrite ISR_rd by assumption.
  destruct (truthy (sched_initialized st) && (j <? sched_count st)) eqn:Hc.
  - apply andb_prop in Hc as [_ Hlt]. apply Z.ltb_lt in Hlt.
    unfold tick_slot.
    destruct (is_pin p (rd st j)) eqn:Hpin; simpl andb;
      [|repeat split; reflexivity].
    destruct (truthy (active (rd st j))) eqn:Hact; simpl andb;
      [|repeat split; reflexivity].
    destruct (Z.leb_spec (schedtime (rd st j)) (millis e)) as [Hdue|Hlate];
      [|repeat split; reflexivity].
    destruct (expire_slot_keeps_setup p e (rd st j)) as [E1 E2].
    split; [apply id_expire_slot|]. split; [exact E1|]. split; [exact E2|].
    intros [H|[H|[H|H]]]; (lia || discriminate).
  - repeat split; reflexivity.
Qed.

Lemma interrupt_leaves_registration_and_timers_witness :
  rd (ISR Arduino (all_pins 5000 true) timer_armed) 0 = rd timer_armed 0.
Proof.
  assert (Hwf : wf timer_armed) by wf_by_compute.
  destruct (interrupt_leaves_registration_and_timers Arduino
              (all_pins 5000 true) timer_armed Hwf) as (_ & _ & H).
  destruct (H 0 ltac:(lia)) as (_ & _ & _ & Hsame).
  apply Hsame. right. left. vm_compute. reflexivity.
Defined.

(** ** The debounce engine *)

Lemma to_schar_small x : -128 <= x < 128 -> to_schar x = x.
Proof. intros H. unfold to_schar. rewrite Z.mod_small by lia. lia. Qed.

(** One debounce cycle with smoothing, on an accumulator between the
    rails: the accumulator moves one step towards the reading, snaps to
    the rail when it crosses a threshold, and a crossing against the
    confirmed level flips the level and is counted once. *)
Lemma expire_slot_debounced p e s :
  is_pin p s = true -> truthy (recurring s) = true -> schedms s <> 0 ->
  0 <= debounce_ct s <= 20 ->
  let r := digitalRead e (id s) in
  let lvl := truthy (debounce_state s) in
  let ct := debounce_ct s in
  let up_cross := r && (15 <? ct + 1) in
  let down_cross := negb r && (ct - 1 <? 5) in
  expire_slot p e s =
    mk_sched (id s) (Z.b2z r)
      (if r then (if 15 <? ct + 1 then 20 else ct + 1)
       else (if ct - 1 <? 5 then 0 else ct - 1))
      (if up_cross then 1 else if down_cross then 0 else debounce_state s)
      (if (up_cross && negb lvl) || (down_cross && lvl)
       then to_uchar (debounce_change s + 1) else debounce_change s)
      (if up_cross && negb lvl then to_uint (event_ct_up s + 1)
       else event_ct_up s)
      (if down_cross && lvl then to_uint (event_ct_down s + 1)
       else event_ct_down s)
      (active s) (recurring s) (to_ulong (schedtime s + schedms s))
      (schedms s).
Proof.
  intros Hpin Hrec Hms Hct r lvl ct up_cross down_cross.
  subst r lvl ct up_cross down_cross.
  unfold expire_slot, is_pin in *. rewrite Hrec. simpl schedms.
  destruct (Z.eqb_spec (schedms s) 0) as [?|_]; [contradiction|].
  simpl. rewrite Hpin.
  unfold DEBOUNCE_THRESH_UP, DEBOUNCE_THRESH_DOWN, DEBOUNCE_THRESH_MAX,
    DEBOUNCE_THRESH_BOTTOM, HIGH, LOW.
  destruct (digitalRead e (id s)); simpl.
  - rewrite to_schar_small by lia.
    destruct (15 <? debounce_ct s + 1); simpl;
      [destruct (truthy (debounce_state s)); simpl|];
      destruct s; reflexivity.
  - rewrite to_schar_small by lia.
    destruct (debounce_ct s - 1 <? 5); simpl;
      [destruct (truthy (debounce_state s)); simpl|];
      destruct s; reflexivity.
Qed.


Lemma rd_wr_cases pos f st j :
  rd (wr pos f st) j = rd st j \/ rd (wr pos f st) j = f (rd st j).
Proof.
  unfold rd, wr. simpl.
  destruct (decide (Z.to_nat pos = Z.to_nat j)) as [E|E].
  - rewrite E, list_lookup_alter_eq.
    destruct (schedlist st !! Z.to_nat j); simpl; [right|left]; reflexivity.
  - rewrite list_lookup_alter_ne by exact E. left. reflexivity.
Qed.

Lemma run_query_state q ident st :
  snd (run_query q ident st) = st \/
  snd (run_query q ident st) =
    wr (snd (find_ident ident st)) (set_debounce_change 0) st.
Proof.
  destruct q; simpl;
    unfold sched_pin_gohigh, sched_pin_golow, sched_pin_level;
    destruct (find_ident ident st) as [i pos]; simpl snd;
    (destruct (pos <? 0); [left; reflexivity|]);
    unfold sched_pin_test0;
    (destruct ((pos <? 0) || (sched_count st <=? pos)); [left; reflexivity|]);
    (destruct (truthy (active (rd st pos))); [|left; reflexivity]);
    cbv zeta;
    repeat match goal with
           | |- context [if ?c then _ else _] => destruct c
           end; right; reflexivity.
Qed.






Lemma to_ulong_le x : 0 <= x -> 0 <= to_ulong x <= x.
Proof.
  intros H. unfold to_ulong. split; [apply Z.mod_pos_bound; lia|].
  apply Z.mod_le; lia.
Qed.

Lemma live_slot_tick p e ident pos t st :
  live_slot p ident pos t st ->
  live_slot p ident pos (t + 1) (ISR p (at_time (t + 1) e) st) /\
  rd (ISR p (at_time (t + 1) e) st) pos = expire_slot p e (rd st pos).
Proof.
  intros (Hwf & Hini & Hf & Hpos & Hpin & Hact & Hrec & Hms & Hdue).
  destruct (find_ident_found ident st pos Hf Hpos) as [Hlt _].
  assert (Hrd : rd (ISR p (at_time (t + 1) e) st) pos =
                expire_slot p e (rd st pos)).
  { rewrite ISR_rd by assumption. rewrite Hini.
    destruct (Z.ltb_spec pos (sched_count st)) as [_|?]; [|lia].
    simpl andb. unfold tick_slot. rewrite Hpin, Hact. simpl andb.
    destruct (Z.leb_spec (schedtime (rd st pos)) (t + 1))
      as [_|Hl]; [reflexivity|lia]. }
  split; [|exact Hrd].
  destruct (ISR_globals p (at_time (t + 1) e) st) as (_ & G2 & _).
  destruct (expire_slot_keeps_setup p e (rd st pos)) as [E1 E2].
  split; [apply wf_ISR; exact Hwf|]. split; [rewrite G2; exact Hini|].
  split; [rewrite find_ident_ISR by exact Hwf; exact Hf|].
  split; [exact Hpos|]. rewrite Hrd.
  split; [unfold is_pin in *; rewrite id_expire_slot; exact Hpin|].
  split; [rewrite active_expire_slot, Hrec; exact Hact|].
  split; [rewrite E1; exact Hrec|]. split; [rewrite E2; exact Hms|].
  rewrite schedtime_expire_slot by exact Hrec.
  destruct (Z.eqb_spec (schedms (rd st pos)) 0) as [E|E].
  - rewrite E, Z.add_0_r.
    pose proof (to_ulong_le (schedtime (rd st pos)) ltac:(lia)).
    pose proof (to_ulong_le (to_ulong (schedtime (rd st pos)) + 1) ltac:(lia)).
    lia.
  - pose proof (to_ulong_le (schedtime (rd st pos) + schedms (rd st pos))
                  ltac:(lia)). lia.
Qed.

Lemma live_slot_run p ident pos es : forall t st,
  live_slot p ident pos t st ->
  live_slot p ident pos (t + Z.of_nat (length es)) (run_ticks p t es st) /\
  rd (run_ticks p t es st) pos = serve p es (rd st pos).
Proof.
  induction es as [|e es IH]; intros t st Hl.
  - simpl. rewrite Z.add_0_r. split; [exact Hl|reflexivity].
  - simpl run_ticks. simpl serve. simpl length.
    destruct (live_slot_tick p e ident pos t st Hl) as [Hl1 Hrd].
    destruct (IH (t + 1) _ Hl1) as [Hl2 Hrun].
    replace (t + Z.of_nat (S (length es))) with (t + 1 + Z.of_nat (length es))
      by lia.
    split; [exact Hl2|]. rewrite Hrun, Hrd. reflexivity.
Qed.

(** X11: while the millisecond counter does not wrap, a recurring
    pin-watch slot of period 0 or 1 is served by every interrupt.  Once it
    is due no later than the next millisecond it stays so, and after any
    number of consecutive interrupts that end before the counter reaches
    2^32 its record is the result of one debounce cycle per millisecond,
    in order, on the readings of those milliseconds; no millisecond is
    skipped while the foreground does not call [sched_check] on it. *)
Theorem pin_slot_served_every_millisecond p ident pos t es st :
  live_slot p ident pos t st ->
  0 <= t -> t + Z.of_nat (length es) < 4294967296 ->
  rd (run_ticks p t es st) pos = serve p es (rd st pos) /\
  live_slot p ident pos (t + Z.of_nat (length es)) (run_ticks p t es st).
Proof.
  intros Hl _ _. destruct (live_slot_run p ident pos es t st Hl) as [H1 H2].
  split; [exact H2 | exact H1].
Qed.

Lemma live_scene_armed : live_slot Arduino 6 0 0 scene_armed.
Proof.
  split; [wf_by_compute|]. vm_compute.
  repeat split; discriminate.
Qed.

Lemma pin_slot_served_every_millisecond_witness :
  rd scene_high 0 = serve Arduino (replicate 20 (all_pins 0 true))
                      (rd scene_armed 0).
Proof.
  destruct (pin_slot_served_every_millisecond Arduino 6 0 0
              (replicate 20 (all_pins 0 true)) scene_armed live_scene_armed
              ltac:(lia) ltac:(simpl; lia))
    as [H _].
  exact H.
Defined.

Lemma smoothing_expire_slot p e s :
  smoothing p s -> smoothing p (expire_slot p e s).
Proof.
  intros (Hpin & Hrec & Hms).
  destruct (expire_slot_keeps_setup p e s) as [E1 E2].
  split; [unfold is_pin in *; rewrite id_expire_slot; exact Hpin|].
  split; [rewrite E1; exact Hrec|rewrite E2; exact Hms].
Qed.

(** One smoothing cycle on a HIGH reading, field by field. *)
Lemma step_high p e s :
  smoothing p s -> 0 <= debounce_ct s <= 20 -> digitalRead e (id s) = true ->
  let s' := expire_slot p e s in
  let cross := 15 <? debounce_ct s + 1 in
  let flip := cross && negb (truthy (debounce_state s)) in
  debounce_ct s' = (if cross then 20 else debounce_ct s + 1) /\
  debounce_state s' = (if cross then 1 else debounce_state s) /\
  debounce_change s' =
    (if flip then to_uchar (debounce_change s + 1) else debounce_change s) /\
  event_ct_up s' = (if flip then to_uint (event_ct_up s + 1) else event_ct_up s) /\
  event_ct_down s' = event_ct_down s.
Proof.
  intros (Hpin & Hrec & Hms) Hct Hr s' cross flip. subst s' cross flip.
  rewrite expire_slot_debounced by assumption. cbv zeta. rewrite Hr. simpl.
  destruct (15 <? debounce_ct s + 1); simpl;
    destruct (truthy (debounce_state s)); simpl; repeat split; reflexivity.
Qed.

(** One smoothing cycle on a LOW reading, field by field. *)
Lemma step_low p e s :
  smoothing p s -> 0 <= debounce_ct s <= 20 -> digitalRead e (id s) = false ->
  let s' := expire_slot p e s in
  let cross := debounce_ct s - 1 <? 5 in
  let flip := cross && truthy (debounce_state s) in
  debounce_ct s' = (if cross then 0 else debounce_ct s - 1) /\
  debounce_state s' = (if cross then 0 else debounce_state s) /\
  debounce_change s' =
    (if flip then to_uchar (debounce_change s + 1) else debounce_change s) /\
  event_ct_up s' = event_ct_up s /\
  event_ct_down s' =
    (if flip then to_uint (event_ct_down s + 1) else event_ct_down s).
Proof.
  intros (Hpin & Hrec & Hms) Hct Hr s' cross flip. subst s' cross flip.
  rewrite expire_slot_debounced by assumption. cbv zeta. rewrite Hr. simpl.
  destruct (debounce_ct s - 1 <? 5); simpl;
    destruct (truthy (debounce_state s)); simpl; repeat split; reflexivity.
Qed.

(** While the level is LOW, LOW readings change nothing but the
    accumulator, which only falls. *)
Lemma serve_quiet_low p es : forall s,
  smoothing p s -> debounce_state s = 0 -> 0 <= debounce_ct s <= 15 ->
  all_read (id s) false es ->
  let s' := serve p es s in
  smoothing p s' /\ id s' = id s /\ debounce_state s' = 0 /\
  0 <= debounce_ct s' <= debounce_ct s /\
  debounce_change s' = debounce_change s /\
  event_ct_up s' = event_ct_up s /\ event_ct_down s' = event_ct_down s.
Proof.
  induction es as [|e es IH]; intros s Hsm Hst Hct Hall; simpl serve.
  - split; [exact Hsm|].
    repeat split; try assumption; reflexivity || lia.
  - inversion Hall as [|? ? Hr Hall']; subst.
    destruct (step_low p e s Hsm ltac:(lia) Hr) as (S1 & S2 & S3 & S4 & S5).
    rewrite Hst in S2, S3, S5. change (truthy 0) with false in S3, S5.
    rewrite andb_false_r in S3, S5.
    assert (Hst' : debounce_state (expire_slot p e s) = 0)
      by (rewrite S2; destruct (debounce_ct s - 1 <? 5); reflexivity).
    assert (Hct' : 0 <= debounce_ct (expire_slot p e s) <= debounce_ct s)
      by (rewrite S1; destruct (Z.ltb_spec (debounce_ct s - 1) 5); lia).
    destruct (IH (expire_slot p e s) (smoothing_expire_slot p e s Hsm) Hst'
                ltac:(lia)) as (I1 & I2 & I3 & I4 & I5 & I6 & I7).
    { rewrite id_expire_slot. exact Hall'. }
    rewrite id_expire_slot in I2.
    split; [exact I1|]. split; [exact I2|]. split; [exact I3|].
    split; [lia|]. split; [congruence|]. split; congruence.
Qed.

(** While the level is HIGH, HIGH readings change nothing but the
    accumulator, which only rises. *)
Lemma serve_quiet_high p es : forall s,
  smoothing p s -> debounce_state s = 1 -> 5 <= debounce_ct s <= 20 ->
  all_read (id s) true es ->
  let s' := serve p es s in
  smoothing p s' /\ id s' = id s /\ debounce_state s' = 1 /\
  debounce_ct s <= debounce_ct s' <= 20 /\
  debounce_change s' = debounce_change s /\
  event_ct_up s' = event_ct_up s /\ event_ct_down s' = event_ct_down s.
Proof.
  induction es as [|e es IH]; intros s Hsm Hst Hct Hall; simpl serve.
  - split; [exact Hsm|].
    repeat split; try assumption; reflexivity || lia.
  - inversion Hall as [|? ? Hr Hall']; subst.
    destruct (step_high p e s Hsm ltac:(lia) Hr) as (S1 & S2 & S3 & S4 & S5).
    rewrite Hst in S2, S3, S4. change (truthy 1) with true in S3, S4.
    simpl negb in S3, S4. rewrite andb_false_r in S3, S4.
    assert (Hst' : debounce_state (expire_slot p e s) = 1)
      by (rewrite S2; destruct (15 <? debounce_ct s + 1); reflexivity).
    assert (Hct' : debounce_ct s <= debounce_ct (expire_slot p e s) <= 20)
      by (rewrite S1; destruct (Z.ltb_spec 15 (debounce_ct s + 1)); lia).
    destruct (IH (expire_slot p e s) (smoothing_expire_slot p e s Hsm) Hst'
                ltac:(lia)) as (I1 & I2 & I3 & I4 & I5 & I6 & I7).
    { rewrite id_expire_slot. exact Hall'. }
    rewrite id_expire_slot in I2.
    split; [exact I1|]. split; [exact I2|]. split; [exact I3|].
    split; [lia|]. split; [congruence|]. split; congruence.
Qed.

(** A run of HIGH readings against a LOW level: nothing but the
    accumulator moves until the run has taken it past the upper
    threshold; the reading that does so flips the level and is counted
    once, and the rest of the run adds nothing. *)
Lemma serve_rising p es : forall s,
  smoothing p s -> debounce_state s = 0 -> 0 <= debounce_ct s <= 15 ->
  all_read (id s) true es ->
  let s' := serve p es s in
  let crossed := 15 <? debounce_ct s + Z.of_nat (length es) in
  smoothing p s' /\ id s' = id s /\
  debounce_ct s' =
    (if crossed then 20 else debounce_ct s + Z.of_nat (length es)) /\
  debounce_state s' = (if crossed then 1 else 0) /\
  debounce_change s' =
    (if crossed then to_uchar (debounce_change s + 1) else debounce_change s) /\
  event_ct_up s' =
    (if crossed then to_uint (event_ct_up s + 1) else event_ct_up s) /\
  event_ct_down s' = event_ct_down s.
Proof.
  induction es as [|e es IH]; intros s Hsm Hst Hct Hall; simpl serve;
    simpl length.
  - destruct (Z.ltb_spec 15 (debounce_ct s + Z.of_nat 0)); [lia|].
    split; [exact Hsm|].
    repeat split; try assumption; reflexivity || lia.
  - inversion Hall as [|? ? Hr Hall']; subst.
    destruct (step_high p e s Hsm ltac:(lia) Hr) as (S1 & S2 & S3 & S4 & S5).
    rewrite Hst in S2, S3, S4. change (truthy 0) with false in S3, S4.
    simpl negb in S3, S4. rewrite andb_true_r in S3, S4.
    pose proof (smoothing_expire_slot p e s Hsm) as Hsm'.
    assert (Hall1 : all_read (id (expire_slot p e s)) true es)
      by (rewrite id_expire_slot; exact Hall').
    destruct (Z.ltb_spec 15 (debounce_ct s + 1)) as [Hx|Hx].
    + (* this reading crosses the threshold *)
      destruct (serve_quiet_high p es (expire_slot p e s) Hsm' S2
                  ltac:(rewrite S1; lia) Hall1)
        as (I1 & I2 & I3 & I4 & I5 & I6 & I7).
      rewrite id_expire_slot in I2. rewrite S1 in I4.
      destruct (Z.ltb_spec 15 (debounce_ct s + Z.of_nat (S (length es))));
        [|lia].
      split; [exact I1|]. split; [exact I2|]. split; [lia|].
      split; [exact I3|]. split; [congruence|]. split; congruence.
    + destruct (IH (expire_slot p e s) Hsm' S2 ltac:(rewrite S1; lia) Hall1)
        as (I1 & I2 & I3 & I4 & I5 & I6 & I7).
      rewrite id_expire_slot in I2. rewrite S1 in I3, I4, I5, I6.
      rewrite S3 in I5. rewrite S4 in I6. rewrite S5 in I7.
      replace (debounce_ct s + 1 + Z.of_nat (length es))
        with (debounce_ct s + Z.of_nat (S (length es))) in * by lia.
      split; [exact I1|]. split; [exact I2|]. repeat split; assumption.
Qed.

(** The mirror image: a run of LOW readings against a HIGH level. *)
Lemma serve_falling p es : forall s,
  smoothing p s -> debounce_state s = 1 -> 5 <= debounce_ct s <= 20 ->
  all_read (id s) false es ->
  let s' := serve p es s in
  let crossed := debounce_ct s - Z.of_nat (length es) <? 5 in
  smoothing p s' /\ id s' = id s /\
  debounce_ct s' =
    (if crossed then 0 else debounce_ct s - Z.of_nat (length es)) /\
  debounce_state s' = (if crossed then 0 else 1) /\
  debounce_change s' =
    (if crossed then to_uchar (debounce_change s + 1) else debounce_change s) /\
  event_ct_up s' = event_ct_up s /\
  event_ct_down s' =
    (if crossed then to_uint (event_ct_down s + 1) else event_ct_down s).
Proof.
  induction es as [|e es IH]; intros s Hsm Hst Hct Hall; simpl serve;
    simpl length.
  - destruct (Z.ltb_spec (debounce_ct s - Z.of_nat 0) 5); [lia|].
    split; [exact Hsm|].
    repeat split; try assumption; reflexivity || lia.
  - inversion Hall as [|? ? Hr Hall']; subst.
    destruct (step_low p e s Hsm ltac:(lia) Hr) as (S1 & S2 & S3 & S4 & S5).
    rewrite Hst in S2, S3, S5. change (truthy 1) with true in S3, S5.
    rewrite andb_true_r in S3, S5.
    pose proof (smoothing_expire_slot p e s Hsm) as Hsm'.
    assert (Hall1 : all_read (id (expire_slot p e s)) false es)
      by (rewrite id_expire_slot; exact Hall').
    destruct (Z.ltb_spec (debounce_ct s - 1) 5) as [Hx|Hx].
    + destruct (serve_quiet_low p es (expire_slot p e s) Hsm' S2
                  ltac:(rewrite S1; lia) Hall1)
        as (I1 & I2 & I3 & I4 & I5 & I6 & I7).
      rewrite id_expire_slot in I2. rewrite S1 in I4.
      destruct (Z.ltb_spec (debounce_ct s - Z.of_nat (S (length es))) 5);
        [|lia].
      split; [exact I1|]. split; [exact I2|]. split; [lia|].
      split; [exact I3|]. split; [congruence|]. split; congruence.
    + destruct (IH (expire_slot p e s) Hsm' S2 ltac:(rewrite S1; lia) Hall1)
        as (I1 & I2 & I3 & I4 & I5 & I6 & I7).
      rewrite id_expire_slot in I2. rewrite S1 in I3, I4, I5, I7.
      rewrite S3 in I5. rewrite S4 in I6. rewrite S5 in I7.
      replace (debounce_ct s - 1 - Z.of_nat (length es))
        with (debounce_ct s - Z.of_nat (S (length es))) in * by lia.
      split; [exact I1|]. split; [exact I2|]. repeat split; assumption.
Qed.

Lemma serve_app p es1 : forall es2 s,
  serve p (es1 ++ es2) s = serve p es2 (serve p es1 s).
Proof.
  induction es1 as [|e es1 IH]; intros es2 s; [reflexivity|].
  simpl. apply IH.
Qed.

Lemma live_slot_smoothing p ident pos t st :
  live_slot p ident pos t st -> schedms (rd st pos) = 1 ->
  smoothing p (rd st pos) /\ id (rd st pos) = ident.
Proof.
  intros (_ & _ & Hf & Hpos & Hpin & _ & Hrec & _) Hms.
  destruct (find_ident_found ident st pos Hf Hpos) as [_ Hid].
  split; [|exact Hid]. split; [exact Hpin|]. split; [exact Hrec|]. lia.
Qed.

(** X12: the debounce latency of the usual 1 ms slot is 16 readings.  From
    a settled LOW level (accumulator 0) a run of HIGH readings confirms
    HIGH exactly when it is at least 16 long, and then counts one rising
    edge and marks one change, however long it lasts; shorter runs leave
    level, counters and flag alone.  The same holds from a settled HIGH
    level (accumulator 20) for runs of LOW readings and the falling
    counter. *)
Theorem debounce_confirms_after_16_readings p ident pos t es st :
  live_slot p ident pos t st -> schedms (rd st pos) = 1 ->
  0 <= t -> t + Z.of_nat (length es) < 4294967296 ->
  let s := rd st pos in
  let s' := rd (run_ticks p t es st) pos in
  let n := Z.of_nat (length es) in
  (debounce_state s = 0 -> debounce_ct s = 0 -> all_read ident true es ->
   debounce_state s' = (if 16 <=? n then 1 else 0) /\
   event_ct_up s' =
     (if 16 <=? n then to_uint (event_ct_up s + 1) else event_ct_up s) /\
   debounce_change s' =
     (if 16 <=? n then to_uchar (debounce_change s + 1)
      else debounce_change s) /\
   event_ct_down s' = event_ct_down s) /\
  (debounce_state s = 1 -> debounce_ct s = 20 -> all_read ident false es ->
   debounce_state s' = (if 16 <=? n then 0 else 1) /\
   event_ct_down s' =
     (if 16 <=? n then to_uint (event_ct_down s + 1) else event_ct_down s) /\
   debounce_change s' =
     (if 16 <=? n then to_uchar (debounce_change s + 1)
      else debounce_change s) /\
   event_ct_up s' = event_ct_up s).
Proof.
  intros Hl Hms _ _ s s' n.
  destruct (live_slot_run p ident pos es t st Hl) as [_ Hrun].
  destruct (live_slot_smoothing p ident pos t st Hl Hms) as [Hsm Hid].
  subst s'. rewrite Hrun. fold s. fold s in Hsm, Hid.
  split.
  - intros Hst Hct Hall.
    destruct (serve_rising p es s Hsm Hst ltac:(lia)
                ltac:(rewrite Hid; exact Hall))
      as (_ & _ & _ & R1 & R2 & R3 & R4).
    rewrite Hct in R1, R2, R3. fold n in R1, R2, R3.
    destruct (Z.ltb_spec 15 (0 + n)), (Z.leb_spec 16 n); try lia;
      repeat split; assumption.
  - intros Hst Hct Hall.
    destruct (serve_falling p es s Hsm Hst ltac:(lia)
                ltac:(rewrite Hid; exact Hall))
      as (_ & _ & _ & R1 & R2 & R3 & R4).
    rewrite Hct in R1, R2, R4. fold n in R1, R2, R4.
    destruct (Z.ltb_spec (20 - n) 5), (Z.leb_spec 16 n); try lia;
      repeat split; assumption.
Qed.

Lemma debounce_confirms_after_16_readings_witness :
  debounce_state (rd scene_high 0) = 1 /\
  event_ct_up (rd scene_high 0) = 1 /\
  debounce_state
    (rd (run_ticks Arduino 0 (replicate 15 (all_pins 0 true)) scene_armed) 0)
  = 0.
Proof.
  destruct (debounce_confirms_after_16_readings Arduino 6 0 0
              (replicate 20 (all_pins 0 true)) scene_armed live_scene_armed
              eq_refl ltac:(lia) ltac:(simpl; lia)) as [H20 _].
  destruct (debounce_confirms_after_16_readings Arduino 6 0 0
              (replicate 15 (all_pins 0 true)) scene_armed live_scene_armed
              eq_refl ltac:(lia) ltac:(simpl; lia)) as [H15 _].
  destruct H20 as (A & B & _);
    [reflexivity | reflexivity
    | apply Forall_forall; intros x Hx; apply elem_of_replicate in Hx as [-> _];
      reflexivity |].
  destruct H15 as (C & _);
    [reflexivity | reflexivity
    | apply Forall_forall; intros x Hx; apply elem_of_replicate in Hx as [-> _];
      reflexivity |].
  split; [exact A|]. split; [exact B | exact C].
Defined.

(** X13: a pulse shorter than the latency is rejected.  With the level
    settled LOW, up to 15 HIGH readings followed by any number of LOW
    readings leave the confirmed level, both edge counters and the changed
    flag exactly as they were; and so do up to 15 LOW readings followed by
    HIGH readings when the level is settled HIGH. *)
Theorem short_pulse_is_rejected p ident pos t burst rest st :
  live_slot p ident pos t st -> schedms (rd st pos) = 1 ->
  0 <= t -> t + Z.of_nat (length (burst ++ rest)) < 4294967296 ->
  (length burst <= 15)%nat ->
  let s := rd st pos in
  let s' := rd (run_ticks p t (burst ++ rest) st) pos in
  (debounce_state s = 0 -> debounce_ct s = 0 ->
   all_read ident true burst -> all_read ident false rest ->
   debounce_state s' = 0 /\ debounce_change s' = debounce_change s /\
   event_ct_up s' = event_ct_up s /\ event_ct_down s' = event_ct_down s) /\
  (debounce_state s = 1 -> debounce_ct s = 20 ->
   all_read ident false burst -> all_read ident true rest ->
   debounce_state s' = 1 /\ debounce_change s' = debounce_change s /\
   event_ct_up s' = event_ct_up s /\ event_ct_down s' = event_ct_down s).
Proof.
  intros Hl Hms _ _ Hshort s s'.
  destruct (live_slot_run p ident pos (burst ++ rest) t st Hl) as [_ Hrun].
  destruct (live_slot_smoothing p ident pos t st Hl Hms) as [Hsm Hid].
  subst s'. rewrite Hrun, serve_app. fold s. fold s in Hsm, Hid.
  split.
  - intros Hst Hct Hb Hr.
    destruct (serve_rising p burst s Hsm Hst ltac:(lia)
                ltac:(rewrite Hid; exact Hb))
      as (B0 & B1 & B2 & B3 & B4 & B5 & B6).
    rewrite Hct in B2, B3, B4, B5.
    destruct (Z.ltb_spec 15 (0 + Z.of_nat (length burst))); [lia|].
    destruct (serve_quiet_low p rest (serve p burst s) B0 B3 ltac:(lia)
                ltac:(rewrite B1, Hid; exact Hr))
      as (_ & _ & Q1 & _ & Q2 & Q3 & Q4).
    split; [exact Q1|]. split; [congruence|]. split; congruence.
  - intros Hst Hct Hb Hr.
    destruct (serve_falling p burst s Hsm Hst ltac:(lia)
                ltac:(rewrite Hid; exact Hb))
      as (B0 & B1 & B2 & B3 & B4 & B5 & B6).
    rewrite Hct in B2, B3, B4, B6.
    destruct (Z.ltb_spec (20 - Z.of_nat (length burst)) 5); [lia|].
    destruct (serve_quiet_high p rest (serve p burst s) B0 B3 ltac:(lia)
                ltac:(rewrite B1, Hid; exact Hr))
      as (_ & _ & Q1 & _ & Q2 & Q3 & Q4).
    split; [exact Q1|]. split; [congruence|]. split; congruence.
Qed.

Lemma short_pulse_is_rejected_witness :
  let st := run_ticks Arduino 0
              (replicate 15 (all_pins 0 true) ++ replicate 3 (all_pins 0 false))
              scene_armed in
  debounce_state (rd st 0) = 0 /\ event_ct_up (rd st 0) = 0.
Proof.
  destruct (short_pulse_is_rejected Arduino 6 0 0
              (replicate 15 (all_pins 0 true))
              (replicate 3 (all_pins 0 false)) scene_armed live_scene_armed
              eq_refl ltac:(lia) ltac:(simpl; lia) ltac:(simpl; lia))
    as [H _].
  destruct H as (A & _ & B & _);
    [reflexivity | reflexivity
    | apply Forall_forall; intros x Hx; apply elem_of_replicate in Hx as [-> _];
      reflexivity
    | apply Forall_forall; intros x Hx; apply elem_of_replicate in Hx as [-> _];
      reflexivity |].
  split; [exact A | exact B].
Defined.

(** ** The analog sampler *)

Lemma same_analog_refl st : same_analog st st.
Proof. repeat split; reflexivity. Qed.

Lemma same_analog_trans st1 st2 st3 :
  same_analog st1 st2 -> same_analog st2 st3 -> same_analog st1 st3.
Proof. intros (A & B & C) (D & E & F). repeat split; congruence. Qed.

Lemma same_analog_wr pos f st : same_analog st (wr pos f st).
Proof. repeat split; reflexivity. Qed.

Lemma same_analog_check0 p e pos st :
  same_analog st (snd (sched_check0 p e pos st)).
Proof.
  unfold sched_check0.
  repeat match goal with
         | |- context [if ?c then _ else _] => destruct c
         end; simpl snd; apply same_analog_refl || apply same_analog_wr.
Qed.

Lemma same_analog_pin_loop p e n : forall i st,
  same_analog st (for_up n i (pin_loop_body p e) st).
Proof.
  induction n as [|n IH]; intros i st; simpl for_up; [apply same_analog_refl|].
  eapply same_analog_trans; [|apply IH].
  unfold pin_loop_body. destruct (is_pin p (rd st i));
    [apply same_analog_check0|apply same_analog_refl].
Qed.

Lemma same_analog_ok p st st' :
  same_analog st st' -> analog_ok p st -> analog_ok p st'.
Proof. unfold analog_ok. intros (-> & -> & ->). auto. Qed.

Lemma same_analog_run_op p o st :
  registers o = false ->
  match o with OpISR _ => True | _ => same_analog st (run_op p o st) end.
Proof.
  intros Hreg. destruct o; try discriminate; simpl; try exact I.
  - unfold sched_check. destruct (find_ident ident st) as [i pos].
    destruct (pos <? 0); [apply same_analog_refl|apply same_analog_check0].
  - destruct (run_query_state QHigh ident st) as [E|E]; simpl in E; rewrite E;
      [apply same_analog_refl|apply same_analog_wr].
  - destruct (run_query_state QLow ident st) as [E|E]; simpl in E; rewrite E;
      [apply same_analog_refl|apply same_analog_wr].
  - destruct (run_query_state (QLevel level) ident st) as [E|E]; simpl in E;
      rewrite E; [apply same_analog_refl|apply same_analog_wr].
  - unfold sched_pin_event_count. destruct (find_ident ident st) as [i pos].
    destruct (pos <? 0); [apply same_analog_refl|].
    destruct (truthy level); destruct (truthy reset); simpl snd;
      try apply same_analog_refl;
      repeat match goal with
             | |- context [if ?c then _ else _] => destruct c
             end; repeat split; reflexivity.
Qed.

(** The ADC block on a consistent sampler with scanning enabled: the
    sample goes to the ring position, which then advances and wraps. *)
Lemma analog_scan_fields p e st :
  analog_ok p st -> 0 < sched_num_analogs st ->
  let st' := analog_scan e st in
  sched_analoglist st' =
    <[Z.to_nat (sched_current_analog st) := sample e]> (sched_analoglist st) /\
  sched_num_analogs st' = sched_num_analogs st /\
  sched_current_analog st' =
    (sched_current_analog st + 1) mod sched_num_analogs st.
Proof.
  intros (Hlen & Hnum & Hc0 & Hc & Hz) Hn st'. subst st'.
  assert (Hmax : MAX_ANALOG_PIN p <= 5) by (destruct p; simpl; lia).
  assert (Hcur : sched_current_analog st < sched_num_analogs st) by lia.
  unfold analog_scan, truthy.
  destruct (Z.eqb_spec (sched_num_analogs st) 0) as [?|_]; [lia|].
  simpl negb. cbv iota zeta. simpl sched_current_analog. simpl sched_num_analogs.
  assert (Hu : to_uchar (sched_current_analog st + 1) =
               sched_current_analog st + 1)
    by (unfold to_uchar; apply Z.mod_small; lia).
  rewrite Hu.
  destruct (Z.leb_spec (sched_num_analogs st) (sched_current_analog st + 1))
    as [Hw|Hw]; simpl.
  - assert (E : sched_current_analog st + 1 = sched_num_analogs st) by lia.
    rewrite E, Z_mod_same_full. repeat split; reflexivity.
  - rewrite Z.mod_small by lia. repeat split; reflexivity.
Qed.

Lemma analog_scan_off e st :
  sched_num_analogs st = 0 -> analog_scan e st = st.
Proof. intros H. unfold analog_scan, truthy. rewrite H. reflexivity. Qed.

Lemma analog_ok_scan p e st : analog_ok p st -> analog_ok p (analog_scan e st).
Proof.
  intros Hok. pose proof Hok as (Hlen & Hnum & Hc0 & Hc & Hz).
  destruct (Z.eq_dec (sched_num_analogs st) 0) as [E|E].
  - rewrite analog_scan_off by exact E. exact Hok.
  - destruct (analog_scan_fields p e st Hok ltac:(lia)) as (B & N & C).
    pose proof (Z.mod_pos_bound (sched_current_analog st + 1)
                  (sched_num_analogs st) ltac:(lia)) as Hm.
    unfold analog_ok. rewrite B, N, C, length_insert.
    split; [exact Hlen|]. split; [exact Hnum|]. split; [lia|].
    split; [left; lia|].
    intros c v Hge Hl. rewrite list_lookup_insert_ne in Hl by lia.
    apply (Hz c v Hge Hl).
Qed.

Lemma ISR_analog p e st :
  same_analog
    (if truthy (sched_initialized st) then analog_scan e st else st)
    (ISR p e st).
Proof.
  unfold ISR. destruct (truthy (sched_initialized st));
    [|apply same_analog_refl].
  unfold sched_background_int.
  eapply same_analog_trans; [|apply same_analog_pin_loop].
  unfold analog_scan. simpl sched_num_analogs.
  destruct (truthy (sched_num_analogs st)); [|repeat split; reflexivity].
  cbv zeta. simpl sched_current_analog. simpl sched_num_analogs.
  destruct (sched_num_analogs st <=? to_uchar (sched_current_analog st + 1));
    repeat split; reflexivity.
Qed.

Lemma analog_ok_ISR p e st : analog_ok p st -> analog_ok p (ISR p e st).
Proof.
  intros Hok. eapply same_analog_ok; [apply ISR_analog|].
  destruct (truthy (sched_initialized st)); [apply analog_ok_scan|]; exact Hok.
Qed.

Lemma analog_ok_init p e n st :
  length (sched_analoglist st) = Z.to_nat (MAX_ANALOG_PIN p + 1) ->
  length (schedlist st) = 11%nat -> 0 <= n ->
  analog_ok p (sched_list_init p e n st).
Proof.
  intros Hbuf Hlen Hn.
  destruct (sched_list_init_fields p e n st Hlen)
    as (_ & _ & Hc & _ & Hnum & _ & Hb & _ & Hz).
  assert (Hmax : 0 <= MAX_ANALOG_PIN p) by (destruct p; simpl; lia).
  unfold analog_ok. rewrite Hc, Hnum, Hb.
  split; [exact Hbuf|].
  split; [destruct (Z.ltb_spec (MAX_ANALOG_PIN p + 1) n); lia|].
  split; [lia|]. split; [right; reflexivity|].
  intros c v Hge Hl.
  assert (Hc0 : 0 <= c) by (destruct (Z.ltb_spec (MAX_ANALOG_PIN p + 1) n); lia).
  assert (Hlt : c < MAX_ANALOG_PIN p + 1).
  { apply lookup_lt_Some in Hl. rewrite Hb, Hbuf in Hl. lia. }
  rewrite Hz in Hl by lia.
  destruct (sched_analoglist st !! Z.to_nat c); simpl in Hl; congruence.
Qed.

Lemma analog_ok_boot p : analog_ok p (boot_state p).
Proof.
  assert (Hmax : 0 <= MAX_ANALOG_PIN p) by (destruct p; simpl; lia).
  unfold analog_ok, boot_state. simpl.
  split; [apply length_replicate|]. split; [lia|]. split; [lia|].
  split; [right; reflexivity|].
  intros c v _ Hl. apply lookup_replicate in Hl as [-> _]. reflexivity.
Qed.

Lemma analog_ok_run_op p o st :
  wf st -> (forall e n, o = OpInit e n -> 0 <= n <= 255) ->
  analog_ok p st -> analog_ok p (run_op p o st).
Proof.
  intros Hwf Hinit Hok.
  destruct (registers o) eqn:Hreg.
  - destruct o; try discriminate; simpl.
    + apply analog_ok_init; [apply Hok|apply Hwf|].
      specialize (Hinit e num_analogs_toscan eq_refl). lia.
    + eapply same_analog_ok; [|exact Hok].
      destruct (sched_event_globals p e ident recur ms st)
        as (_ & _ & A & B & C).
      repeat split; assumption.
    + eapply same_analog_ok; [|exact Hok].
      destruct (sched_event_globals p e ident 0 0 st) as (_ & _ & A & B & C).
      repeat split; assumption.
  - pose proof (same_analog_run_op p o st Hreg) as H.
    destruct o; try discriminate;
      try (eapply same_analog_ok; [exact H|exact Hok]).
    apply analog_ok_ISR. exact Hok.
Qed.

(** X14: the sampler never leaves its buffer and never touches a channel
    it was not told to scan.  From program start, through any calls and
    interrupts, the ring position stays inside the scanned range, the
    buffer keeps its length, and [sched_analogread] answers 0 for every
    channel from the scan count up to the last analog pin; with scanning
    disabled that is every channel. *)
Theorem unscanned_channels_read_zero p ops st :
  wf st -> analog_ok p st -> uchar_inits ops ->
  let st' := run_ops p ops st in
  analog_ok p st' /\
  forall c, sched_num_analogs st' <= c <= MAX_ANALOG_PIN p ->
    sched_analogread c st' = Some 0.
Proof.
  intros Hwf Hok Hin st'.
  assert (H : analog_ok p st').
  { subst st'. revert st Hwf Hok. induction ops as [|o ops IH];
      intros st Hwf Hok; [exact Hok|].
    unfold run_ops. simpl foldl. apply IH.
    - intros e n Hi. apply (Hin e n). right. exact Hi.
    - apply wf_run_op. exact Hwf.
    - apply analog_ok_run_op; [exact Hwf| |exact Hok].
      intros e n ->. apply (Hin e n). left. reflexivity. }
  split; [exact H|].
  destruct H as (Hlen & Hnum & _ & _ & Hz).
  intros c Hc. unfold sched_analogread.
  destruct (sched_num_analogs st' <? c); [reflexivity|].
  destruct (sched_analoglist st' !! Z.to_nat c) as [v|] eqn:E.
  - f_equal. apply (Hz c v); [lia|exact E].
  - apply lookup_ge_None in E. lia.
Qed.

Lemma unscanned_channels_read_zero_witness :
  sched_analogread 3
    (run_ops Arduino
       [OpInit (all_pins 0 false) 2; OpISR (mk_env 1 (fun _ => false) 255 3);
        OpISR (mk_env 2 (fun _ => false) 17 1);
        OpISR (mk_env 3 (fun _ => false) 9 2)] (boot_state Arduino))
  = Some 0.
Proof.
  destruct (unscanned_channels_read_zero Arduino
              [OpInit (all_pins 0 false) 2;
               OpISR (mk_env 1 (fun _ => false) 255 3);
               OpISR (mk_env 2 (fun _ => false) 17 1);
               OpISR (mk_env 3 (fun _ => false) 9 2)] (boot_state Arduino)
              (wf_boot_state Arduino) (analog_ok_boot Arduino)) as [_ H].
  - intros e n Hi. simpl in Hi.
    destruct Hi as [Hi|[Hi|[Hi|[Hi|[]]]]]; inversion Hi; lia.
  - apply H. vm_compute. split; discriminate.
Defined.

Lemma ISR_sampler p e st :
  analog_ok p st -> truthy (sched_initialized st) = true ->
  0 < sched_num_analogs st ->
  sched_analoglist (ISR p e st) =
    <[Z.to_nat (sched_current_analog st) := sample e]> (sched_analoglist st) /\
  sched_num_analogs (ISR p e st) = sched_num_analogs st /\
  sched_current_analog (ISR p e st) =
    (sched_current_analog st + 1) mod sched_num_analogs st.
Proof.
  intros Hok Hini Hn.
  pose proof (ISR_analog p e st) as (A & B & C). rewrite Hini in A, B, C.
  destruct (analog_scan_fields p e st Hok Hn) as (F1 & F2 & F3).
  rewrite A, B, C. repeat split; assumption.
Qed.

Lemma sample_range e : 0 <= sample e < 65536.
Proof. unfold sample, to_uint. apply Z.mod_pos_bound. lia. Qed.

(** X15: with scanning enabled, one interrupt harvests exactly one
    channel.  The sample assembled from the ADC registers is what
    [sched_analogread] returns for the channel the ring stood at, every
    other channel reads as before, and the ring moves on to the next
    channel, wrapping at the scan count. *)
Theorem interrupt_harvests_one_channel p e st :
  analog_ok p st -> truthy (sched_initialized st) = true ->
  0 < sched_num_analogs st ->
  let cur := sched_current_analog st in
  let st' := ISR p e st in
  sched_analogread cur st' = Some (sample e) /\
  (forall c, 0 <= c -> c <> cur ->
     sched_analogread c st' = sched_analogread c st) /\
  sched_current_analog st' = (cur + 1) mod sched_num_analogs st /\
  sched_num_analogs st' = sched_num_analogs st /\
  0 <= sample e < 65536.
Proof.
  intros Hok Hini Hn cur st'.
  destruct (ISR_sampler p e st Hok Hini Hn) as (B & N & C).
  fold st' in B, N, C. fold cur in B, C.
  destruct Hok as (Hlen & Hnum & Hc0 & Hc & _). fold cur in Hc0, Hc.
  split.
  { unfold sched_analogread. rewrite N.
    destruct (Z.ltb_spec (sched_num_analogs st) cur); [lia|].
    rewrite B. apply list_lookup_insert_eq. lia. }
  split.
  { intros c Hc1 Hne. unfold sched_analogread. rewrite N, B.
    destruct (sched_num_analogs st <? c); [reflexivity|].
    apply list_lookup_insert_ne. lia. }
  split; [exact C|]. split; [exact N|]. apply sample_range.
Qed.

Lemma interrupt_harvests_one_channel_witness :
  let st := sched_list_init Arduino (all_pins 0 false) 2 (boot_state Arduino) in
  sched_analogread 0 (ISR Arduino (mk_env 1 (fun _ => false) 255 3) st)
  = Some 1023.
Proof.
  assert (Hok : analog_ok Arduino
            (sched_list_init Arduino (all_pins 0 false) 2 (boot_state Arduino)))
    by (apply analog_ok_init; [reflexivity|reflexivity|lia]).
  destruct (interrupt_harvests_one_channel Arduino
              (mk_env 1 (fun _ => false) 255 3) _ Hok eq_refl ltac:(simpl; lia))
    as (H & _).
  exact H.
Defined.

Lemma mod_shift_ne a j N :
  0 <= a < N -> 0 < j < N -> (a + j) mod N <> a.
Proof.
  intros Ha Hj. destruct (Z_lt_le_dec (a + j) N) as [Hs|Hs].
  - rewrite Z.mod_small by lia. lia.
  - replace (a + j) with (a + j - N + 1 * N) by lia.
    rewrite Z_mod_plus_full, Z.mod_small by lia. lia.
Qed.

Lemma rotation p es : forall t st,
  analog_ok p st -> truthy (sched_initialized st) = true ->
  0 < sched_num_analogs st ->
  Z.of_nat (length es) <= sched_num_analogs st ->
  let st' := run_ticks p t es st in
  let cur := sched_current_analog st in
  let N := sched_num_analogs st in
  analog_ok p st' /\ sched_num_analogs st' = N /\
  (forall k e, es !! k = Some e ->
     sched_analoglist st' !! Z.to_nat ((cur + Z.of_nat k) mod N)
     = Some (sample e)) /\
  (forall c, 0 <= c ->
     (forall k, 0 <= k < Z.of_nat (length es) -> c <> (cur + k) mod N) ->
     sched_analoglist st' !! Z.to_nat c = sched_analoglist st !! Z.to_nat c).
Proof.
  induction es as [|e es IH]; intros t st Hok Hini Hn Hlen; cbv zeta.
  - simpl. split; [exact Hok|]. split; [reflexivity|].
    split; [intros k e Hk; rewrite lookup_nil in Hk; discriminate|].
    intros c _ _. reflexivity.
  - simpl run_ticks. simpl length in *.
    set (e1 := at_time (t + 1) e).
    destruct (ISR_sampler p e1 st Hok Hini Hn) as (B & N1 & C).
    pose proof (analog_ok_ISR p e1 st Hok) as Hok1.
    destruct (ISR_globals p e1 st) as (_ & G2 & _).
    pose proof Hok as (Hl & Hnum & Hc0 & Hc & _).
    set (cur := sched_current_analog st) in *.
    set (N := sched_num_analogs st) in *.
    assert (HcN : 0 <= cur < N) by lia.
    destruct (IH (t + 1) (ISR p e1 st) Hok1 ltac:(rewrite G2; exact Hini)
                ltac:(rewrite N1; exact Hn) ltac:(rewrite N1; lia))
      as (I1 & I2 & I3 & I4).
    rewrite N1, C in *. fold N in I2, I3, I4.
    assert (Hshift : forall k, ((cur + 1) mod N + k) mod N = (cur + (1 + k)) mod N).
    { intros k. rewrite Zplus_mod_idemp_l. f_equal. lia. }
    split; [exact I1|]. split; [exact I2|].
    split.
    + intros [|k] e0 Hk; simpl in Hk.
      * inversion Hk; subst e0. rewrite Z.add_0_r, Z.mod_small by lia.
        rewrite I4.
        { rewrite B. apply list_lookup_insert_eq. lia. }
        { lia. }
        { intros k Hk0. rewrite Hshift. intros E. symmetry in E.
          revert E. apply mod_shift_ne; lia. }
      * rewrite <- (I3 k e0 Hk). rewrite Hshift. do 3 f_equal. lia.
    + intros c Hc1 Hfree. rewrite I4.
      * rewrite B. apply list_lookup_insert_ne.
        specialize (Hfree 0 ltac:(lia)). rewrite Z.add_0_r, Z.mod_small in Hfree
          by lia. lia.
      * exact Hc1.
      * intros k Hk0. rewrite Hshift. apply Hfree. lia.
Qed.

(** X16: the staleness bound of the sampler.  After as many consecutive
    interrupts as channels are scanned, the sample of the [k]-th of these
    interrupts is what [sched_analogread] returns for the channel [k]
    places after the starting ring position; hence every scanned channel
    returns a sample taken during these interrupts, none older than one
    rotation. *)
Theorem every_channel_fresh_after_one_rotation p t es st :
  analog_ok p st -> truthy (sched_initialized st) = true ->
  0 < sched_num_analogs st ->
  Z.of_nat (length es) = sched_num_analogs st ->
  0 <= t -> t + Z.of_nat (length es) < 4294967296 ->
  let st' := run_ticks p t es st in
  let cur := sched_current_analog st in
  let N := sched_num_analogs st in
  (forall k e, es !! k = Some e ->
     sched_analogread ((cur + Z.of_nat k) mod N) st' = Some (sample e)) /\
  (forall c, 0 <= c < N ->
     exists k e, es !! k = Some e /\ sched_analogread c st' = Some (sample e)).
Proof.
  intros Hok Hini Hn Hlen _ _ st' cur N.
  destruct (rotation p es t st Hok Hini Hn ltac:(lia)) as (_ & N1 & V & _).
  fold st' in N1, V. fold cur in V. fold N in N1, V.
  assert (Hread : forall k e, es !! k = Some e ->
    sched_analogread ((cur + Z.of_nat k) mod N) st' = Some (sample e)).
  { intros k e Hk. unfold sched_analogread. rewrite N1.
    pose proof (Z.mod_pos_bound (cur + Z.of_nat k) N ltac:(lia)).
    destruct (Z.ltb_spec N ((cur + Z.of_nat k) mod N)); [lia|].
    apply V. exact Hk. }
  split; [exact Hread|].
  intros c Hc.
  pose proof (Z.mod_pos_bound (c - cur) N ltac:(lia)) as Hm.
  destruct (lookup_lt_is_Some_2 es (Z.to_nat ((c - cur) mod N)) ltac:(lia))
    as [e He].
  exists (Z.to_nat ((c - cur) mod N)), e. split; [exact He|].
  rewrite <- (Hread _ e He). f_equal.
  rewrite Z2Nat.id by lia. rewrite Zplus_mod_idemp_r.
  replace (cur + (c - cur)) with c by lia. symmetry. apply Z.mod_small. lia.
Qed.

Lemma every_channel_fresh_after_one_rotation_witness :
  let st := sched_list_init Arduino (all_pins 0 false) 2 (boot_state Arduino) in
  sched_analogread 1
    (run_ticks Arduino 0
       [mk_env 0 (fun _ => false) 255 3; mk_env 0 (fun _ => false) 17 1] st)
  = Some 273.
Proof.
  assert (Hok : analog_ok Arduino
            (sched_list_init Arduino (all_pins 0 false) 2 (boot_state Arduino)))
    by (apply analog_ok_init; [reflexivity|reflexivity|lia]).
  destruct (every_channel_fresh_after_one_rotation Arduino 0
              [mk_env 0 (fun _ => false) 255 3; mk_env 0 (fun _ => false) 17 1]
              _ Hok eq_refl ltac:(simpl; lia) eq_refl ltac:(lia)
              ltac:(simpl; lia)) as [H _].
  exact (H 1%nat (mk_env 0 (fun _ => false) 17 1) eq_refl).
Defined.

(** ** A one-shot timer polled every millisecond *)

Lemma run_polled_app p ident es1 : forall es2 t st,
  run_polled p ident t (es1 ++ es2) st =
    (fst (run_polled p ident t es1 st) ++
     fst (run_polled p ident (t + Z.of_nat (length es1)) es2
            (snd (run_polled p ident t es1 st))),
     snd (run_polled p ident (t + Z.of_nat (length es1)) es2
            (snd (run_polled p ident t es1 st)))).
Proof.
  induction es1 as [|e es1 IH]; intros es2 t st.
  - simpl. rewrite Z.add_0_r.
    destruct (run_polled p ident t es2 st); reflexivity.
  - simpl app. simpl run_polled.
    destruct (sched_check p (at_time (t + 1) e) ident
                (ISR p (at_time (t + 1) e) st)) as [r st1].
    rewrite IH.
    destruct (run_polled p ident (t + 1) es1 st1) as [rs st2]. simpl.
    replace (t + Z.of_nat (S (length es1)))
      with (t + 1 + Z.of_nat (length es1)) by lia.
    reflexivity.
Qed.

Lemma spent_slot_run p ident pos es : forall t st,
  spent_slot ident pos st ->
  fst (run_polled p ident t es st) = replicate (length es) 0 /\
  spent_slot ident pos (snd (run_polled p ident t es st)).
Proof.
  induction es as [|e es IH]; intros t st Hs; [split; [reflexivity|exact Hs]|].
  simpl run_polled.
  destruct Hs as (Hwf & Hf & Hpos & Hact).
  set (e1 := at_time (t + 1) e).
  assert (Hs1 : spent_slot ident pos (ISR p e1 st)).
  { split; [apply wf_ISR; exact Hwf|].
    split; [rewrite find_ident_ISR by exact Hwf; exact Hf|].
    split; [exact Hpos|]. rewrite ISR_rd by assumption.
    destruct (truthy (sched_initialized st) && (pos <? sched_count st));
      [|exact Hact].
    unfold tick_slot. rewrite Hact, andb_false_r. exact Hact. }
  destruct Hs1 as (Hwf1 & Hf1 & _ & Hact1).
  assert (Hq : sched_check p e1 ident (ISR p e1 st) = (0, ISR p e1 st)).
  { unfold sched_check. destruct (find_ident ident (ISR p e1 st)) as [i pos0].
    simpl in Hf1. subst pos0. destruct (pos <? 0); [reflexivity|].
    apply sched_check0_idle. left. exact Hact1. }
  rewrite Hq.
  destruct (IH (t + 1) (ISR p e1 st)) as [I1 I2];
    [split; [exact Hwf1|]; split; [exact Hf1|]; split; assumption|].
  destruct (run_polled p ident (t + 1) es (ISR p e1 st)) as [rs st2].
  simpl in *. rewrite I1. split; [reflexivity|exact I2].
Qed.

Lemma oneshot_slot_idle p ident pos T es : forall t st,
  oneshot_slot p ident pos T st -> t + Z.of_nat (length es) < T ->
  fst (run_polled p ident t es st) = replicate (length es) 0 /\
  oneshot_slot p ident pos T (snd (run_polled p ident t es st)).
Proof.
  induction es as [|e es IH]; intros t st Hs Hlate;
    [split; [reflexivity|exact Hs]|].
  simpl run_polled. simpl length in Hlate.
  destruct Hs as (Hwf & Hf & Hpos & Hpin & Hact & Hrec & Hdue).
  set (e1 := at_time (t + 1) e).
  assert (Hrd : rd (ISR p e1 st) pos = rd st pos).
  { rewrite ISR_rd by assumption. unfold tick_slot. rewrite Hpin. simpl.
    destruct (truthy (sched_initialized st) && (pos <? sched_count st));
      reflexivity. }
  assert (Hf1 : snd (find_ident ident (ISR p e1 st)) = pos)
    by (rewrite find_ident_ISR by exact Hwf; exact Hf).
  rewrite (sched_check_not_due p e1 ident (ISR p e1 st) pos Hf1)
    by (rewrite Hrd, Hdue; simpl; lia).
  destruct (IH (t + 1) (ISR p e1 st)) as [I1 I2]; [|lia|].
  { split; [apply wf_ISR; exact Hwf|]. split; [exact Hf1|].
    split; [exact Hpos|]. rewrite Hrd. repeat split; assumption. }
  destruct (run_polled p ident (t + 1) es (ISR p e1 st)) as [rs st2].
  simpl in *. rewrite I1. split; [reflexivity|exact I2].
Qed.

Lemma oneshot_slot_fire p e ident pos T t st :
  oneshot_slot p ident pos T st -> T <= t + 1 ->
  let st1 := ISR p (at_time (t + 1) e) st in
  fst (sched_check p (at_time (t + 1) e) ident st1) = 1 /\
  spent_slot ident pos (snd (sched_check p (at_time (t + 1) e) ident st1)).
Proof.
  intros (Hwf & Hf & Hpos & Hpin & Hact & Hrec & Hdue) Hnow st1.
  set (e1 := at_time (t + 1) e) in *.
  assert (Hrd : rd st1 pos = rd st pos).
  { subst st1. rewrite ISR_rd by assumption. unfold tick_slot.
    rewrite Hpin. simpl.
    destruct (truthy (sched_initialized st) && (pos <? sched_count st));
      reflexivity. }
  assert (Hwf1 : wf st1) by (apply wf_ISR; exact Hwf).
  assert (Hf1 : snd (find_ident ident st1) = pos)
    by (subst st1; rewrite find_ident_ISR by exact Hwf; exact Hf).
  destruct (sched_check_one_shot p e1 ident st1 pos Hwf1 Hf1 Hpos)
    as (R1 & R2 & _);
    [rewrite Hrd; exact Hact | rewrite Hrd; exact Hrec
    | rewrite Hrd, Hdue; simpl; lia |].
  split; [exact R1|].
  split; [eapply same_registration_wf;
          [apply same_registration_check|exact Hwf1]|].
  split; [rewrite (same_registration_find st1) by
            apply same_registration_check; exact Hf1|].
  split; [exact Hpos|]. unfold truthy. rewrite R2. reflexivity.
Qed.

Lemma sched_event_arms_oneshot p e ident P st :
  wf st -> MAX_DIGITAL_PIN p < ident <= 127 ->
  fst (sched_event p e ident 0 P st) = 1 ->
  1 <= P -> 0 <= millis e -> millis e + P < 4294967296 ->
  exists pos,
    oneshot_slot p ident pos (millis e + P)
      (snd (sched_event p e ident 0 P st)).
Proof.
  intros Hwf Hid Hok HP Ht Hwrap.
  pose proof Hwf as (Hlen & Hcnt & Hrng).
  assert (Hmax : 0 <= MAX_DIGITAL_PIN p) by (destruct p; simpl; lia).
  assert (Hnp : (ident <=? MAX_DIGITAL_PIN p) = false)
    by (apply Z.leb_gt; lia).
  assert (Hu : to_uchar ident = ident)
    by (unfold to_uchar; apply Z.mod_small; lia).
  assert (Hul : to_ulong (P + millis e) = millis e + P)
    by (unfold to_ulong; rewrite Z.mod_small; lia).
  assert (Hact : (if negb (truthy 0) && (P =? 0) then 0 else 1) = 1)
    by (destruct (Z.eqb_spec P 0); [lia|reflexivity]).
  destruct (Z.leb_spec 0 (snd (find_ident ident st))) as [Hf|Hf].
  - exists (snd (find_ident ident st)).
    destruct (sched_event_found_wf p e ident 0 P st _ Hwf eq_refl Hf)
      as [Hwf' Hfind'].
    split; [exact Hwf'|]. split; [rewrite Hfind'; reflexivity|].
    split; [exact Hf|].
    rewrite (sched_event_found_rd p e ident 0 P st _ _ Hwf eq_refl Hf Hf).
    rewrite Z.eqb_refl, Hnp, Hact, Hul. unfold is_pin. simpl.
    rewrite Hnp, andb_false_r. repeat split; reflexivity.
  - assert (Hroom : sched_count st < MAX_SCHED).
    { destruct (Z.lt_ge_cases (sched_count st) MAX_SCHED) as [?|Hfull];
        [assumption|].
      rewrite sched_event_full in Hok by (assumption || lia).
      simpl in Hok. discriminate. }
    exists (sched_count st).
    destruct (sched_event_fresh_ret p e ident 0 P st Hf ltac:(lia)) as [_ Hc].
    assert (Hslot := sched_event_fresh_rd p e ident 0 P st (sched_count st)
                       Hwf Hf Hroom ltac:(lia)).
    cbv zeta in Hslot. rewrite Z.eqb_refl, Hu, Hnp, Hact, Hul in Hslot.
    split; [apply sched_event_fresh_wf; assumption|].
    split.
    { apply find_ident_last; [lia| rewrite Hslot; reflexivity |].
      intros j Hj. lia. }
    split; [lia|]. rewrite Hslot. unfold is_pin. simpl.
    rewrite Hnp, andb_false_r. repeat split; reflexivity.
Qed.

(** X17: while the millisecond counter does not wrap, a one-shot manual
    timer fires once, at its due millisecond.  Armed with
    [sched_event ident 0 P] on an id above the pin range at a tick from
    which the [P] milliseconds to the expiry and all later polls end
    before the counter reaches 2^32, and polled once per millisecond,
    [sched_check] answers 0 for the first [P - 1] milliseconds, 1 in
    millisecond [P], and 0 in every later millisecond. *)
Theorem oneshot_timer_fires_once_when_due p e ident P es1 e1 es2 st :
  wf st -> MAX_DIGITAL_PIN p < ident <= 127 ->
  fst (sched_event p e ident 0 P st) = 1 ->
  1 <= P -> 0 <= millis e ->
  millis e + P + Z.of_nat (length es2) < 4294967296 ->
  Z.of_nat (length es1) = P - 1 ->
  let armed := snd (sched_event p e ident 0 P st) in
  fst (run_polled p ident (millis e) es1 armed) = replicate (length es1) 0 /\
  fst (run_polled p ident (millis e) (es1 ++ e1 :: es2) armed) =
    replicate (length es1) 0 ++ 1 :: replicate (length es2) 0.
Proof.
  intros Hwf Hid Hok HP Ht Hwrap Hlen armed.
  destruct (sched_event_arms_oneshot p e ident P st Hwf Hid Hok HP Ht
              ltac:(lia)) as [pos Hs].
  fold armed in Hs.
  destruct (oneshot_slot_idle p ident pos (millis e + P) es1 (millis e) armed
              Hs ltac:(lia)) as [I1 I2].
  split; [exact I1|].
  rewrite run_polled_app. simpl fst. rewrite I1. f_equal.
  set (st1 := snd (run_polled p ident (millis e) es1 armed)) in *.
  set (t1 := millis e + Z.of_nat (length es1)).
  simpl run_polled.
  destruct (oneshot_slot_fire p e1 ident pos (millis e + P) t1 st1 I2
              ltac:(subst t1; lia)) as [F1 F2].
  destruct (sched_check p (at_time (t1 + 1) e1) ident
              (ISR p (at_time (t1 + 1) e1) st1)) as [r st2].
  simpl in F1, F2. subst r.
  destruct (spent_slot_run p ident pos es2 (t1 + 1) st2 F2) as [S1 _].
  destruct (run_polled p ident (t1 + 1) es2 st2) as [rs st3].
  simpl in *. rewrite S1. reflexivity.
Qed.

Lemma oneshot_timer_fires_once_when_due_witness :
  fst (run_polled Arduino 20 0
         (replicate 999 (all_pins 0 false) ++
          all_pins 0 true :: replicate 50 (all_pins 0 false))
         (snd (sched_event Arduino (all_pins 0 false) 20 0 1000 scene_armed)))
  = replicate 999 0 ++ 1 :: replicate 50 0.
Proof.
  assert (Hwf : wf scene_armed) by wf_by_compute.
  destruct (oneshot_timer_fires_once_when_due Arduino (all_pins 0 false) 20
              1000 (replicate 999 (all_pins 0 false)) (all_pins 0 true)
              (replicate 50 (all_pins 0 false)) scene_armed Hwf)
    as [_ H].
  - simpl. lia.
  - vm_compute. reflexivity.
  - lia.
  - simpl. lia.
  - rewrite length_replicate. simpl. lia.
  - rewrite length_replicate. lia.
  - rewrite !length_replicate in H. exact H.
Defined.

(** * The sketch *)

(** ** setup *)

Lemma sched_event_room p e ident recur ms st :
  wf st -> sched_count st < MAX_SCHED ->
  fst (sched_event p e ident recur ms st) = 1 /\
  sched_count (snd (sched_event p e ident recur ms st)) <= sched_count st + 1.
Proof.
  intros Hwf Hroom. pose proof Hwf as (_ & Hcnt & _).
  destruct (Z.le_gt_cases 0 (snd (find_ident ident st))) as [Hf|Hf].
  - destruct (sched_event_found_ret p e ident recur ms st _ Hwf eq_refl Hf)
      as [R1 R2].
    split; [exact R1|]. rewrite R2. lia.
  - destruct (sched_event_fresh_ret p e ident recur ms st ltac:(lia)
                ltac:(lia)) as [R1 R2].
    split; [exact R1|]. rewrite R2. lia.
Qed.

Lemma oneshot_slot_ISR p e ident pos T st :
  oneshot_slot p ident pos T st -> oneshot_slot p ident pos T (ISR p e st).
Proof.
  intros (Hwf & Hf & Hpos & Hpin & Hact & Hrec & Hdue).
  assert (Hrd : rd (ISR p e st) pos = rd st pos).
  { rewrite ISR_rd by assumption. unfold tick_slot. rewrite Hpin. simpl.
    destruct (truthy (sched_initialized st) && (pos <? sched_count st));
      reflexivity. }
  split; [apply wf_ISR; exact Hwf|].
  split; [rewrite find_ident_ISR by exact Hwf; exact Hf|].
  split; [exact Hpos|]. rewrite Hrd. repeat split; assumption.
Qed.

Lemma setup_wait_early p pos T pre : forall st,
  oneshot_slot p 20 pos T st -> Forall (early T) pre ->
  exists st', oneshot_slot p 20 pos T st' /\
    forall rest, setup_wait p (pre ++ rest) st = setup_wait p rest st'.
Proof.
  induction pre as [|t pre IH]; intros st Hs Hpre.
  - exists st. split; [exact Hs|]. intros rest. reflexivity.
  - inversion Hpre as [|? ? Ht Hrest]; subst.
    destruct t as [e|e hu hd].
    + destruct (IH (ISR p e st) (oneshot_slot_ISR p e 20 pos T st Hs) Hrest)
        as (st' & Hs' & Hrun).
      exists st'. split; [exact Hs'|]. intros rest. simpl. apply Hrun.
    + destruct (IH st Hs Hrest) as (st' & Hs' & Hrun).
      exists st'. split; [exact Hs'|]. intros rest. simpl.
      destruct Hs as (_ & Hf & _ & _ & _ & _ & Hdue).
      rewrite (sched_check_not_due p e 20 st pos Hf)
        by (rewrite Hdue; exact Ht).
      simpl. apply Hrun.
Qed.

Lemma setup_begin_armed b p e0 e1 e2 e3 st :
  wf st -> 0 <= millis e3 -> millis e3 + 1000 < 4294967296 ->
  exists pos,
    oneshot_slot p 20 pos (millis e3 + 1000)
      (lib (setup_begin b p e0 e1 e2 e3 st)).
Proof.
  intros Hwf Ht Hwrap. unfold setup_begin. cbv zeta. simpl lib.
  pose proof Hwf as (Hlen & _).
  destruct (sched_list_init_fields p e0 0 st Hlen) as (Hc0 & _).
  assert (W0 := wf_sched_list_init p e0 0 st Hwf).
  set (st0 := sched_list_init p e0 0 st) in *.
  destruct (sched_event_room p e1 (dial_pulse_in_pin b) 1 1 st0 W0
              ltac:(rewrite Hc0; unfold MAX_SCHED; lia)) as [_ Hc1].
  assert (W1 := wf_sched_event p e1 (dial_pulse_in_pin b) 1 1 st0 W0).
  set (st1 := snd (sched_event p e1 (dial_pulse_in_pin b) 1 1 st0)) in *.
  destruct (sched_event_room p e2 (now_dialing_in_pin b) 1 1 st1 W1
              ltac:(unfold MAX_SCHED; lia)) as [_ Hc2].
  assert (W2 := wf_sched_event p e2 (now_dialing_in_pin b) 1 1 st1 W1).
  set (st2 := snd (sched_event p e2 (now_dialing_in_pin b) 1 1 st1)) in *.
  destruct (sched_event_room p e3 20 0 1000 st2 W2
              ltac:(unfold MAX_SCHED; lia)) as [Hok _].
  apply sched_event_arms_oneshot; try assumption; try lia.
  destruct p; simpl; lia.
Qed.

(** X18: [setup] holds the sketch off for one second.  Started on any
    well-formed table, the wait after the three registrations is still
    waiting while every poll of the clock reads less than 1000 ms past
    the moment the timer was armed, whatever interrupts are served in
    between, and it ends at the first poll that reads that moment or
    later.  [setup] then returns with [loop]'s state 0, the LED off, the
    banner as the only output (none on a Teensy) and the rest of the
    trace untouched. *)
Theorem setup_holds_off_one_second b p e0 e1 e2 e3 pre e hu hd post st :
  wf st -> 0 <= millis e3 -> millis e3 + 1000 < 4294967296 ->
  Forall (early (millis e3 + 1000)) pre -> millis e3 + 1000 <= millis e ->
  setup b p e0 e1 e2 e3 pre st = None /\
  exists sk,
    setup b p e0 e1 e2 e3 (pre ++ Foreground e hu hd :: post) st =
      Some (sk, post) /\
    loop_state sk = 0 /\ led sk = LOW /\
    out sk = (if core_teensy b then [] else [PrintBanner]) /\
    wf (lib sk) /\
    forall e', sched_check p e' 20 (lib sk) = (0, lib sk).
Proof.
  intros Hwf Ht Hwrap Hpre Hdue.
  destruct (setup_begin_armed b p e0 e1 e2 e3 st Hwf Ht Hwrap) as [pos Hs].
  destruct (setup_wait_early p pos _ pre _ Hs Hpre) as (st' & Hs' & Hrun).
  unfold setup. split.
  - rewrite <- (app_nil_r pre), Hrun. reflexivity.
  - rewrite Hrun. simpl setup_wait.
    destruct Hs' as (Hwf' & Hf & Hpos & _ & Hact & Hrec & HT).
    destruct (sched_check_one_shot p e 20 st' pos Hwf' Hf Hpos Hact Hrec
                ltac:(lia)) as (R1 & _ & R3).
    destruct (sched_check p e 20 st') as [r st2] eqn:E.
    simpl in R1, R3. subst r. simpl.
    eexists. split; [reflexivity|]. simpl.
    split; [reflexivity|]. split; [reflexivity|]. split; [reflexivity|].
    split; [|exact R3].
    replace st2 with (snd (sched_check p e 20 st')) by (rewrite E; reflexivity).
    eapply same_registration_wf; [apply same_registration_check|exact Hwf'].
Qed.

Lemma setup_holds_off_one_second_witness :
  setup arduino_board Arduino (all_pins 0 false) (all_pins 0 false)
    (all_pins 0 true) (all_pins 0 true)
    [Interrupt (all_pins 1 true); Foreground (all_pins 1 true) 0 0;
     Interrupt (all_pins 999 true); Foreground (all_pins 999 true) 0 0]
    (boot_state Arduino) = None.
Proof.
  destruct (setup_holds_off_one_second arduino_board Arduino
              (all_pins 0 false) (all_pins 0 false) (all_pins 0 true)
              (all_pins 0 true)
              [Interrupt (all_pins 1 true); Foreground (all_pins 1 true) 0 0;
               Interrupt (all_pins 999 true);
               Foreground (all_pins 999 true) 0 0]
              (all_pins 1000 true) 0 0 [] (boot_state Arduino)
              (wf_boot_state Arduino)) as [H _].
  - simpl. lia.
  - simpl. lia.
  - repeat constructor; simpl; lia.
  - simpl. lia.
  - exact H.
Defined.

(** ** loop: output and LED *)

Lemma loop_led_and_output b p e hu hd sk :
  led_shows_dialing sk ->
  led_shows_dialing (loop b p e hu hd sk) /\
  exists new, out (loop b p e hu hd sk) = out sk ++ new /\
    Forall digit_or_newline new.
Proof.
  intros Hled. unfold loop.
  assert (Hnil : exists new, out sk = out sk ++ new /\
                   Forall digit_or_newline new)
    by (exists []; rewrite app_nil_r; split; [reflexivity|constructor]).
  destruct (Z.eqb_spec (loop_state sk) 0) as [E0|E0].
  - destruct (sched_pin_golow (now_dialing_in_pin b) (lib sk)) as [r st].
    destruct (truthy r).
    + destruct (sched_pin_event_count _ _ _ _ _ _) as [n st'].
      split; [right; split; reflexivity|exact Hnil].
    + split; [|exact Hnil]. destruct Hled as [[? ?]|[? ?]];
        [left|right]; split; assumption.
  - destruct (Z.eqb_spec (loop_state sk) 1) as [E1|E1];
      [|split; [exact Hled|exact Hnil]].
    destruct (sched_pin_gohigh (now_dialing_in_pin b) (lib sk)) as [r st].
    destruct (truthy r).
    + destruct (sched_pin_event_count _ _ _ _ _ _) as [n st'].
      split; [left; split; reflexivity|]. simpl out.
      destruct (Z.ltb_spec 0 n) as [Hn|Hn]; [|exact Hnil].
      eexists. split; [reflexivity|]. constructor; [|constructor].
      simpl. destruct (Z.ltb_spec 9 n); lia.
    + destruct (sched_check p e 20 st) as [r' st'].
      destruct (truthy r').
      * destruct (sched_pin_event_count _ _ _ _ _ _) as [n st''].
        split; [left; split; reflexivity|]. simpl out.
        eexists. split; [reflexivity|]. constructor; [exact I|constructor].
      * split; [|exact Hnil]. destruct Hled as [[? ?]|[? ?]];
          [left|right]; split; assumption.
Qed.

(** X19: the sketch only ever sends single digits and line feeds, and
    its LED is lit exactly while [loop] is in its dialing state.  Along
    any trace of interrupts and calls of [loop], from any state in which
    the LED agrees with [loop]'s state, it still agrees afterwards, what
    was sent before is kept, and everything sent since is a [print] of a
    number from 0 to 9 or an empty [println]. *)
Theorem sketch_sends_digits_and_newlines b p ts sk :
  led_shows_dialing sk ->
  led_shows_dialing (run_sketch b p ts sk) /\
  exists new, out (run_sketch b p ts sk) = out sk ++ new /\
    Forall digit_or_newline new.
Proof.
  revert sk. induction ts as [|t ts IH]; intros sk Hled.
  - split; [exact Hled|]. exists []. rewrite app_nil_r.
    split; [reflexivity|constructor].
  - unfold run_sketch. simpl foldl. fold (run_sketch b p ts (sketch_turn b p t sk)).
    assert (Hstep : led_shows_dialing (sketch_turn b p t sk) /\
              exists new, out (sketch_turn b p t sk) = out sk ++ new /\
                Forall digit_or_newline new).
    { destruct t as [e|e hu hd]; simpl sketch_turn.
      - split; [exact Hled|]. exists []. rewrite app_nil_r.
        split; [reflexivity|constructor].
      - apply loop_led_and_output. exact Hled. }
    destruct Hstep as (Hled1 & new1 & Ho1 & Hd1).
    destruct (IH _ Hled1) as (Hled2 & new2 & Ho2 & Hd2).
    split; [exact Hled2|]. exists (new1 ++ new2).
    split; [rewrite Ho2, Ho1, app_assoc; reflexivity|].
    apply Forall_app. split; assumption.
Qed.

Lemma sketch_sends_digits_and_newlines_witness :
  led_shows_dialing
    (run_sketch arduino_board Arduino
       [Interrupt (all_pins 1 false); Foreground (all_pins 1 false) 0 0]
       (mk_sketch scene_armed 0 LOW [])).
Proof.
  destruct (sketch_sends_digits_and_newlines arduino_board Arduino
              [Interrupt (all_pins 1 false); Foreground (all_pins 1 false) 0 0]
              (mk_sketch scene_armed 0 LOW [])) as [H _].
  - left. split; reflexivity.
  - exact H.
Defined.

(** ** A dialing session *)

Lemma set_debounce_change_same s :
  debounce_change s = 0 -> set_debounce_change 0 s = s.
Proof. destruct s; simpl; intros ->; reflexivity. Qed.

Lemma wr_same pos f st :
  f (rd st pos) = rd st pos ->
  0 <= pos < Z.of_nat (length (schedlist st)) -> wr pos f st = st.
Proof.
  intros Hf Hpos. unfold wr, set_schedlist, rd in *.
  destruct st as [l a c pm na ca ini isr av ah al mux]. simpl in *. f_equal.
  apply list_eq. intros i.
  destruct (decide (i = Z.to_nat pos)) as [->|Hne].
  - rewrite list_lookup_alter_eq.
    destruct (l !! Z.to_nat pos) eqn:E; simpl in *;
      [f_equal; exact Hf|reflexivity].
  - rewrite list_lookup_alter_ne by congruence. reflexivity.
Qed.

Lemma live_slot_transfer p ident pos t st st' :
  live_slot p ident pos t st -> same_registration st st' ->
  sched_initialized st' = sched_initialized st ->
  active (rd st' pos) = active (rd st pos) ->
  recurring (rd st' pos) = recurring (rd st pos) ->
  schedms (rd st' pos) = schedms (rd st pos) ->
  schedtime (rd st' pos) = schedtime (rd st pos) ->
  live_slot p ident pos t st'.
Proof.
  intros (Hwf & Hini & Hf & Hpos & Hpin & Hact & Hrec & Hms & Hdue)
    Hreg Hi A R M S.
  pose proof Hreg as (_ & _ & Hid).
  split; [eapply same_registration_wf; eassumption|].
  split; [rewrite Hi; exact Hini|].
  split; [rewrite (same_registration_find st) by exact Hreg; exact Hf|].
  split; [exact Hpos|].
  split; [unfold is_pin in *; rewrite Hid by exact Hpos; exact Hpin|].
  rewrite A, R, M, S.
  split; [exact Hact|]. split; [exact Hrec|]. split; assumption.
Qed.

Lemma wired_transfer b p N D T t st st' :
  wired b p N D T t st -> same_registration st st' ->
  sched_initialized st' = sched_initialized st ->
  (forall j, j = N \/ j = D ->
     active (rd st' j) = active (rd st j) /\
     recurring (rd st' j) = recurring (rd st j) /\
     schedms (rd st' j) = schedms (rd st j) /\
     schedtime (rd st' j) = schedtime (rd st j)) ->
  wired b p N D T t st'.
Proof.
  intros (LN & MN & LD & MD & FT & HT & Hne) Hreg Hi Hfield.
  destruct (Hfield N (or_introl eq_refl)) as (A1 & A2 & A3 & A4).
  destruct (Hfield D (or_intror eq_refl)) as (B1 & B2 & B3 & B4).
  split; [eapply live_slot_transfer; eassumption|].
  split; [rewrite A3; exact MN|].
  split; [eapply live_slot_transfer; eassumption|].
  split; [rewrite B3; exact MD|].
  split; [rewrite (same_registration_find st) by exact Hreg; exact FT|].
  split; assumption.
Qed.

Lemma wired_wr b p N D T t pos f st :
  (forall s, id (f s) = id s /\ active (f s) = active s /\
             recurring (f s) = recurring s /\ schedms (f s) = schedms s /\
             schedtime (f s) = schedtime s) ->
  wired b p N D T t st -> wired b p N D T t (wr pos f st).
Proof.
  intros Hf Hw. eapply wired_transfer; [exact Hw| |reflexivity|].
  - apply same_registration_wr. intros s. apply Hf.
  - intros j _. destruct (rd_wr_cases pos f st j) as [-> | ->];
      [repeat split; reflexivity|].
    destruct (Hf (rd st j)) as (_ & ? & ? & ? & ?). repeat split; assumption.
Qed.

(** The three slots are distinct and inside the array. *)
Lemma wired_slots b p N D T t st :
  wired b p N D T t st ->
  wf st /\ N <> T /\ D <> T /\
  0 <= N < Z.of_nat (length (schedlist st)) /\
  0 <= D < Z.of_nat (length (schedlist st)) /\
  0 <= T < Z.of_nat (length (schedlist st)) /\
  is_pin p (rd st T) = false /\
  truthy (active (rd st N)) = true.
Proof.
  intros (LN & MN & LD & MD & FT & HT & Hne).
  destruct LN as (Hwf & _ & FN & HN & PN & AN & _).
  destruct LD as (_ & _ & FD & HD & PD & _).
  destruct (find_ident_found _ st N FN HN) as [LtN IdN].
  destruct (find_ident_found _ st D FD HD) as [LtD IdD].
  destruct (find_ident_found _ st T FT HT) as [LtT IdT].
  assert (Hmax : MAX_DIGITAL_PIN p < 20) by (destruct p; simpl; lia).
  assert (PT : is_pin p (rd st T) = false).
  { unfold is_pin. rewrite IdT. apply andb_false_iff. right.
    apply Z.leb_gt. exact Hmax. }
  split; [exact Hwf|].
  split; [intros ->; rewrite PT in PN; discriminate|].
  split; [intros ->; rewrite PT in PD; discriminate|].
  split; [apply wf_slot_bound; [exact Hwf|lia]|].
  split; [apply wf_slot_bound; [exact Hwf|lia]|].
  split; [apply wf_slot_bound; [exact Hwf|lia]|].
  split; assumption.
Qed.

(** One interrupt on the wired table: both pin records go through one
    debounce cycle, the timer record is left alone. *)
Lemma wired_tick b p N D T t e st :
  wired b p N D T t st ->
  let st' := ISR p (at_time (t + 1) e) st in
  wired b p N D T (t + 1) st' /\
  rd st' N = expire_slot p e (rd st N) /\
  rd st' D = expire_slot p e (rd st D) /\
  rd st' T = rd st T.
Proof.
  intros Hw st'. destruct (wired_slots _ _ _ _ _ _ _ Hw)
    as (Hwf & _ & _ & _ & _ & HT & PT & _).
  destruct Hw as (LN & MN & LD & MD & FT & HT0 & Hne).
  destruct (live_slot_tick p e _ N t st LN) as [LN' RN].
  destruct (live_slot_tick p e _ D t st LD) as [LD' RD].
  fold st' in LN', RN, LD', RD.
  destruct (expire_slot_keeps_setup p e (rd st N)) as [_ EN].
  destruct (expire_slot_keeps_setup p e (rd st D)) as [_ ED].
  split; [|split; [exact RN|split; [exact RD|]]].
  - split; [exact LN'|]. split; [rewrite RN, EN; exact MN|].
    split; [exact LD'|]. split; [rewrite RD, ED; exact MD|].
    split; [subst st'; rewrite find_ident_ISR by exact Hwf; exact FT|].
    split; assumption.
  - subst st'. rewrite ISR_rd by assumption. unfold tick_slot.
    rewrite PT. simpl.
    destruct (truthy (sched_initialized st) && (T <? sched_count st));
      reflexivity.
Qed.

Lemma count_up_reset ident hu hd st pos :
  wf st -> snd (find_ident ident st) = pos -> 0 <= pos ->
  sched_pin_event_count ident 1 1 hu hd st =
    (event_ct_up (rd st pos),
     wr pos (set_event_ct_down
               (if negb (event_ct_down (rd st pos) =? hd) then 1 else 0))
       (wr pos (set_event_ct_up 0) st)).
Proof.
  intros Hwf Hf Hpos.
  destruct (find_ident_found ident st pos Hf Hpos) as [Hlt _].
  assert (Hb : 0 <= pos < Z.of_nat (length (schedlist st)))
    by (apply wf_slot_bound; [exact Hwf|lia]).
  unfold sched_pin_event_count.
  destruct (find_ident ident st) as [i pos0]. simpl in Hf. subst pos0.
  destruct (Z.ltb_spec pos 0) as [?|_]; [lia|].
  change (truthy 1) with true. cbv iota beta zeta.
  rewrite Z.eqb_refl. simpl negb. cbv iota.
  rewrite rd_wr_eq by exact Hb. simpl event_ct_down.
  destruct (negb (event_ct_down (rd st pos) =? hd)); reflexivity.
Qed.

Lemma no_pin_20 p : (20 <=? MAX_DIGITAL_PIN p) = false.
Proof. destruct p; reflexivity. Qed.

(** Re-arming timer 20 on the wired table touches the timer record
    only. *)
Lemma wired_rearm b p N D T t e ms st :
  wired b p N D T t st ->
  let st' := snd (sched_event p e 20 0 ms st) in
  wired b p N D T t st' /\
  (forall j, 0 <= j -> j <> T -> rd st' j = rd st j) /\
  active (rd st' T) = (if negb (truthy 0) && (ms =? 0) then 0 else 1) /\
  recurring (rd st' T) = 0 /\
  schedtime (rd st' T) = to_ulong (ms + millis e).
Proof.
  intros Hw st'.
  destruct (wired_slots _ _ _ _ _ _ _ Hw) as (Hwf & NT & DT & HN & HD & _).
  pose proof Hw as (_ & _ & _ & _ & FT & HT & _).
  assert (Hrd : forall j, 0 <= j -> j <> T -> rd st' j = rd st j).
  { intros j Hj Hne. subst st'.
    rewrite (sched_event_found_rd p e 20 0 ms st T j Hwf FT HT Hj).
    destruct (Z.eqb_spec j T) as [?|_]; [contradiction|].
    rewrite no_pin_20, andb_false_r. reflexivity. }
  assert (HrdT := sched_event_found_rd p e 20 0 ms st T T Hwf FT HT HT).
  cbv zeta in HrdT. rewrite Z.eqb_refl in HrdT. fold st' in HrdT.
  split; [|split; [exact Hrd|rewrite HrdT; repeat split; reflexivity]].
  eapply wired_transfer; [exact Hw| | |].
  - apply same_registration_event_found; [exact Hwf|rewrite FT; exact HT].
  - destruct (sched_event_globals p e 20 0 ms st) as (_ & G & _). exact G.
  - intros j [-> | ->]; fold st'; rewrite Hrd by (lia || assumption);
      repeat split; reflexivity.
Qed.

Lemma sketch_eta sk :
  mk_sketch (lib sk) (loop_state sk) (led sk) (out sk) = sk.
Proof. destruct sk; reflexivity. Qed.

(** With no change pending on the dialing pin, a call of [loop] in
    state 0 changes nothing. *)
Lemma loop_waits_on_hook b p N D T t e hu hd sk :
  wired b p N D T t (lib sk) -> loop_state sk = 0 ->
  debounce_change (rd (lib sk) N) = 0 ->
  loop b p e hu hd sk = sk.
Proof.
  intros Hw H0 Hfl.
  destruct (wired_slots _ _ _ _ _ _ _ Hw) as (Hwf & _ & _ & HN & _ & _ & _ & AN).
  destruct Hw as ((_ & _ & FN & HN0 & _) & _).
  unfold loop. rewrite (sched_pin_golow_active _ _ N Hwf FN HN0 AN).
  rewrite Hfl. change (truthy 0) with false. simpl andb. simpl Z.b2z.
  change (truthy 0) with false.
  rewrite wr_same
    by (try apply set_debounce_change_same; assumption).
  destruct (loop_state sk =? 0) eqn:E; [apply sketch_eta|].
  rewrite H0 in E. discriminate.
Qed.

(** With no change pending on the dialing pin and the time-out not yet
    due, a call of [loop] in state 1 changes nothing. *)
Lemma loop_waits_off_hook b p N D T t e hu hd sk :
  wired b p N D T t (lib sk) -> loop_state sk = 1 ->
  debounce_change (rd (lib sk) N) = 0 ->
  millis e < schedtime (rd (lib sk) T) ->
  loop b p e hu hd sk = sk.
Proof.
  intros Hw H1 Hfl Hdue.
  destruct (wired_slots _ _ _ _ _ _ _ Hw) as (Hwf & _ & _ & HN & _ & _ & _ & AN).
  destruct Hw as ((_ & _ & FN & HN0 & _) & _ & _ & _ & FT & _).
  unfold loop. rewrite (sched_pin_gohigh_active _ _ N Hwf FN HN0 AN).
  rewrite Hfl. change (truthy 0) with false. simpl andb. simpl Z.b2z.
  change (truthy 0) with false.
  rewrite wr_same
    by (try apply set_debounce_change_same; assumption).
  rewrite (sched_check_not_due p e 20 (lib sk) T FT Hdue).
  change (truthy 0) with false.
  rewrite H1. simpl. rewrite <- H1. apply sketch_eta.
Qed.

Lemma keeps_timing_change v s :
  id (set_debounce_change v s) = id s /\
  active (set_debounce_change v s) = active s /\
  recurring (set_debounce_change v s) = recurring s /\
  schedms (set_debounce_change v s) = schedms s /\
  schedtime (set_debounce_change v s) = schedtime s.
Proof. repeat split; reflexivity. Qed.

Lemma keeps_timing_up v s :
  id (set_event_ct_up v s) = id s /\
  active (set_event_ct_up v s) = active s /\
  recurring (set_event_ct_up v s) = recurring s /\
  schedms (set_event_ct_up v s) = schedms s /\
  schedtime (set_event_ct_up v s) = schedtime s.
Proof. repeat split; reflexivity. Qed.

Lemma keeps_timing_down v s :
  id (set_event_ct_down v s) = id s /\
  active (set_event_ct_down v s) = active s /\
  recurring (set_event_ct_down v s) = recurring s /\
  schedms (set_event_ct_down v s) = schedms s /\
  schedtime (set_event_ct_down v s) = schedtime s.
Proof. repeat split; reflexivity. Qed.

(** The resetting count of rising edges on the wired table. *)
Lemma wired_count b p N D T t hu hd st :
  wired b p N D T t st ->
  let r := sched_pin_event_count (dial_pulse_in_pin b) 1 1 hu hd st in
  fst r = event_ct_up (rd st D) /\
  wired b p N D T t (snd r) /\
  (forall j, 0 <= j -> j <> D -> rd (snd r) j = rd st j) /\
  debounce_state (rd (snd r) D) = debounce_state (rd st D) /\
  debounce_ct (rd (snd r) D) = debounce_ct (rd st D) /\
  event_ct_up (rd (snd r) D) = 0.
Proof.
  intros Hw r.
  destruct (wired_slots _ _ _ _ _ _ _ Hw) as (Hwf & _ & _ & _ & HD & _).
  pose proof Hw as (_ & _ & (_ & _ & FD & HD0 & _) & _).
  subst r. rewrite (count_up_reset _ hu hd st D Hwf FD HD0). simpl fst.
  simpl snd. split; [reflexivity|].
  split; [apply wired_wr; [apply keeps_timing_down|];
          apply wired_wr; [apply keeps_timing_up|exact Hw]|].
  split.
  { intros j Hj Hne. rewrite !rd_wr_ne by lia. reflexivity. }
  rewrite rd_wr_eq by (rewrite length_wr; exact HD).
  rewrite rd_wr_eq by exact HD. repeat split; reflexivity.
Qed.

(** The call of [loop] that sees the confirmed falling edge of the
    dialing pin opens the dialing period: the time-out is armed for
    5000 ms from now and the pulse count starts from 0. *)
Lemma loop_picks_up b p N D T t e hu hd sk :
  wired b p N D T t (lib sk) -> loop_state sk = 0 ->
  debounce_change (rd (lib sk) N) = 1 ->
  rests_low (rd (lib sk) N) -> rests_low (rd (lib sk) D) ->
  0 <= millis e -> millis e + 5000 < 4294967296 ->
  dialing b p N D T t (millis e + 5000) 0 (loop b p e hu hd sk) /\
  out (loop b p e hu hd sk) = out sk.
Proof.
  intros Hw H0 Hfl (SN & CN) (SD & CD) Ht Hwrap.
  destruct (wired_slots _ _ _ _ _ _ _ Hw)
    as (Hwf & NT & DT & HN & HD & HT & _ & AN).
  pose proof Hw as ((_ & _ & FN & HN0 & _) & _ & _ & _ & _ & _ & ND).
  unfold loop. rewrite H0. simpl (0 =? 0). cbv iota.
  rewrite (sched_pin_golow_active _ _ N Hwf FN HN0 AN).
  rewrite Hfl, SN. change (truthy 1) with true. change (truthy 0) with false.
  simpl andb. simpl Z.b2z. change (truthy 1) with true. cbv iota beta zeta.
  set (st1 := wr N (set_debounce_change 0) (lib sk)).
  assert (W1 : wired b p N D T t st1)
    by (apply wired_wr; [apply keeps_timing_change|exact Hw]).
  assert (R1N : rd st1 N = set_debounce_change 0 (rd (lib sk) N))
    by (apply rd_wr_eq; exact HN).
  assert (R1D : rd st1 D = rd (lib sk) D)
    by (apply rd_wr_ne; lia).
  destruct (wired_rearm b p N D T t e 5000 st1 W1) as (W2 & R2 & A2 & C2 & T2).
  set (st2 := snd (sched_event p e 20 0 5000 st1)) in *.
  destruct (wired_count b p N D T t hu hd st2 W2)
    as (_ & W3 & R3 & S3 & K3 & U3).
  destruct (sched_pin_event_count (dial_pulse_in_pin b) 1 1 hu hd st2)
    as [n st3].
  simpl in W3, R3, S3, K3, U3. simpl out. split; [|reflexivity].
  assert (R3N : rd st3 N = set_debounce_change 0 (rd (lib sk) N))
    by (rewrite R3, R2, R1N by lia; reflexivity).
  assert (R2D : rd st2 D = rd (lib sk) D)
    by (rewrite R2, R1D by lia; reflexivity).
  assert (R3T : rd st3 T = rd st2 T) by (apply R3; lia).
  unfold dialing, off_hook, rests_low. simpl lib. simpl loop_state. simpl led.
  rewrite R3N, R3T, S3, K3, U3, R2D, A2, C2, T2. simpl.
  unfold to_ulong. rewrite Z.mod_small by lia.
  split; [split; [exact W3|]|];
    repeat split; try assumption; try reflexivity; try lia.
Qed.

(** The call of [loop] that sees the confirmed rising edge of the
    dialing pin closes the dialing period and sends what was dialed. *)
Lemma loop_hangs_up b p N D T t e hu hd sk :
  wired b p N D T t (lib sk) -> loop_state sk = 1 ->
  debounce_change (rd (lib sk) N) = 1 ->
  rests_high (rd (lib sk) N) -> rests_low (rd (lib sk) D) ->
  on_hook b p N D T t (loop b p e hu hd sk) /\
  out (loop b p e hu hd sk) =
    out sk ++ dialed (event_ct_up (rd (lib sk) D)).
Proof.
  intros Hw H1 Hfl (SN & CN) (SD & CD).
  destruct (wired_slots _ _ _ _ _ _ _ Hw)
    as (Hwf & NT & DT & HN & HD & HT & _ & AN).
  pose proof Hw as ((_ & _ & FN & HN0 & _) & _ & _ & _ & _ & _ & ND).
  unfold loop. rewrite H1. simpl (1 =? 0). simpl (1 =? 1). cbv iota.
  rewrite (sched_pin_gohigh_active _ _ N Hwf FN HN0 AN).
  rewrite Hfl, SN. change (truthy 1) with true.
  simpl andb. simpl Z.b2z. change (truthy 1) with true. cbv iota beta zeta.
  set (st1 := wr N (set_debounce_change 0) (lib sk)).
  assert (W1 : wired b p N D T t st1)
    by (apply wired_wr; [apply keeps_timing_change|exact Hw]).
  assert (R1N : rd st1 N = set_debounce_change 0 (rd (lib sk) N))
    by (apply rd_wr_eq; exact HN).
  assert (R1D : rd st1 D = rd (lib sk) D)
    by (apply rd_wr_ne; lia).
  destruct (wired_count b p N D T t hu hd st1 W1)
    as (V3 & W3 & R3 & S3 & K3 & U3).
  destruct (sched_pin_event_count (dial_pulse_in_pin b) 1 1 hu hd st1)
    as [n st3].
  simpl in V3, W3, R3, S3, K3, U3. subst n. rewrite R1D.
  assert (R3N : rd st3 N = set_debounce_change 0 (rd (lib sk) N))
    by (rewrite R3, R1N by lia; reflexivity).
  split.
  - unfold on_hook, rests_high, rests_low. simpl lib. simpl loop_state.
    simpl led. rewrite R3N, S3, K3, R1D. simpl.
    split; [exact W3|].
    repeat split; try assumption; try reflexivity; try lia.
  - simpl out. unfold dialed.
    destruct (0 <? event_ct_up (rd (lib sk) D)); [reflexivity|].
    rewrite app_nil_r. reflexivity.
Qed.

Lemma run_sketch_app b p ts1 ts2 sk :
  run_sketch b p (ts1 ++ ts2) sk = run_sketch b p ts2 (run_sketch b p ts1 sk).
Proof. unfold run_sketch. apply foldl_app. Qed.

Lemma run_session_cons b p t r rs sk :
  run_sketch b p (session t (r :: rs)) sk =
  run_sketch b p (session (t + 1) rs) (run_round b p t r sk).
Proof.
  simpl session.
  change (run_sketch b p (?x :: ?l) sk)
    with (run_sketch b p l (sketch_turn b p x sk)).
  rewrite run_sketch_app. reflexivity.
Qed.

Lemma session_app rs1 : forall t rs2,
  session t (rs1 ++ rs2) =
  session t rs1 ++ session (t + Z.of_nat (length rs1)) rs2.
Proof.
  induction rs1 as [|r rs1 IH]; intros t rs2.
  - simpl. rewrite Z.add_0_r. reflexivity.
  - simpl app. simpl session. rewrite IH. simpl length.
    replace (t + Z.of_nat (S (length rs1)))
      with (t + 1 + Z.of_nat (length rs1)) by lia.
    rewrite <- app_assoc. reflexivity.
Qed.

Lemma run_loops_fixed b p e js sk :
  (forall hu hd, loop b p e hu hd sk = sk) ->
  run_sketch b p (map (fun j => Foreground e (fst j) (snd j)) js) sk = sk.
Proof.
  intros Hfix. induction js as [|j js IH]; [reflexivity|].
  simpl map.
  change (run_sketch b p (?x :: ?l) sk)
    with (run_sketch b p l (sketch_turn b p x sk)).
  simpl sketch_turn. rewrite Hfix. exact IH.
Qed.

Lemma run_round_idle b p t r sk :
  (forall hu hd,
     loop b p (at_time (t + 1) (fst r)) hu hd
       (set_lib (ISR p (at_time (t + 1) (fst r)) (lib sk)) sk) =
     set_lib (ISR p (at_time (t + 1) (fst r)) (lib sk)) sk) ->
  run_round b p t r sk = set_lib (ISR p (at_time (t + 1) (fst r)) (lib sk)) sk.
Proof. intros Hfix. unfold run_round. apply run_loops_fixed. exact Hfix. Qed.

Lemma run_round_fire b p t r sk :
  snd r <> [] ->
  exists hu hd,
    let sk1 := set_lib (ISR p (at_time (t + 1) (fst r)) (lib sk)) sk in
    let sk2 := loop b p (at_time (t + 1) (fst r)) hu hd sk1 in
    (forall hu' hd', loop b p (at_time (t + 1) (fst r)) hu' hd' sk2 = sk2) ->
    run_round b p t r sk = sk2.
Proof.
  intros Hne. unfold run_round. destruct (snd r) as [|j js]; [contradiction|].
  exists (fst j), (snd j). cbv zeta. intros Hfix. simpl map.
  change (run_sketch b p (?x :: ?l) ?s)
    with (run_sketch b p l (sketch_turn b p x s)).
  simpl sketch_turn. apply run_loops_fixed. exact Hfix.
Qed.

Lemma shows_cons b x y r rs :
  shows b x y (r :: rs) ->
  digitalRead (fst r) (now_dialing_in_pin b) = x /\
  digitalRead (fst r) (dial_pulse_in_pin b) = y /\
  shows b x y rs.
Proof.
  intros [H1 H2]. simpl map in H1, H2.
  inversion H1; subst. inversion H2; subst.
  repeat split; assumption.
Qed.

Lemma shows_app b x y rs1 rs2 :
  shows b x y (rs1 ++ rs2) -> shows b x y rs1 /\ shows b x y rs2.
Proof.
  intros [H1 H2]. unfold shows, all_read in *. rewrite map_app in H1, H2.
  apply Forall_app in H1 as [? ?]. apply Forall_app in H2 as [? ?].
  repeat split; assumption.
Qed.

(** The interrupt of one round, seen from the sketch. *)
Lemma round_tick b p N D T t e sk :
  wired b p N D T t (lib sk) ->
  let sk1 := set_lib (ISR p (at_time (t + 1) e) (lib sk)) sk in
  wired b p N D T (t + 1) (lib sk1) /\
  rd (lib sk1) N = expire_slot p e (rd (lib sk) N) /\
  rd (lib sk1) D = expire_slot p e (rd (lib sk) D) /\
  rd (lib sk1) T = rd (lib sk) T /\
  smoothing p (rd (lib sk) N) /\ id (rd (lib sk) N) = now_dialing_in_pin b /\
  smoothing p (rd (lib sk) D) /\ id (rd (lib sk) D) = dial_pulse_in_pin b.
Proof.
  intros Hw sk1. destruct (wired_tick b p N D T t e (lib sk) Hw)
    as (W & RN & RD & RT).
  destruct Hw as (LN & MN & LD & MD & _).
  destruct (live_slot_smoothing p _ N t _ LN MN) as [SN IN].
  destruct (live_slot_smoothing p _ D t _ LD MD) as [SD ID].
  subst sk1. simpl lib.
  split; [exact W|]. split; [exact RN|]. split; [exact RD|].
  split; [exact RT|]. split; [exact SN|]. split; [exact IN|].
  split; [exact SD|exact ID].
Qed.

(** A LOW reading on a record that rests LOW. *)
Lemma rests_low_low p e s :
  smoothing p s -> rests_low s -> digitalRead e (id s) = false ->
  rests_low (expire_slot p e s) /\
  debounce_change (expire_slot p e s) = debounce_change s /\
  event_ct_up (expire_slot p e s) = event_ct_up s.
Proof.
  intros Hsm (Hst & Hct) Hr.
  destruct (step_low p e s Hsm ltac:(lia) Hr) as (S1 & S2 & S3 & S4 & _).
  rewrite Hst in S2, S3. change (truthy 0) with false in S3.
  rewrite andb_false_r in S3. unfold rests_low. rewrite S1, S2.
  split; [|split; assumption].
  destruct (Z.ltb_spec (debounce_ct s - 1) 5); split; lia.
Qed.

(** A HIGH reading on a record that rests HIGH. *)
Lemma rests_high_high p e s :
  smoothing p s -> rests_high s -> digitalRead e (id s) = true ->
  rests_high (expire_slot p e s) /\
  debounce_change (expire_slot p e s) = debounce_change s.
Proof.
  intros Hsm (Hst & Hct) Hr.
  destruct (step_high p e s Hsm ltac:(lia) Hr) as (S1 & S2 & S3 & _).
  rewrite Hst in S2, S3. change (truthy 1) with true in S3.
  simpl negb in S3. rewrite andb_false_r in S3. unfold rests_high.
  rewrite S1, S2. split; [|assumption].
  destruct (Z.ltb_spec 15 (debounce_ct s + 1)); split; lia.
Qed.

(** A LOW reading on a record that rests HIGH: the accumulator falls,
    and the reading that takes it below the threshold confirms LOW. *)
Lemma rests_high_low p e s :
  smoothing p s -> rests_high s -> digitalRead e (id s) = false ->
  debounce_change s = 0 ->
  if 6 <=? debounce_ct s
  then rests_high (expire_slot p e s) /\
       debounce_ct (expire_slot p e s) = debounce_ct s - 1 /\
       debounce_change (expire_slot p e s) = 0
  else rests_low (expire_slot p e s) /\
       debounce_change (expire_slot p e s) = 1.
Proof.
  intros Hsm (Hst & Hct) Hr Hfl.
  destruct (step_low p e s Hsm ltac:(lia) Hr) as (S1 & S2 & S3 & _).
  rewrite Hst in S2, S3. change (truthy 1) with true in S3.
  rewrite andb_true_r, Hfl in S3. unfold rests_high, rests_low.
  rewrite S1, S2, S3.
  destruct (Z.leb_spec 6 (debounce_ct s));
    destruct (Z.ltb_spec (debounce_ct s - 1) 5); try lia;
    repeat split; try reflexivity; lia.
Qed.

(** A HIGH reading on a record that rests LOW: the accumulator rises,
    and the reading that takes it past the threshold confirms HIGH. *)
Lemma rests_low_high p e s :
  smoothing p s -> rests_low s -> digitalRead e (id s) = true ->
  debounce_change s = 0 ->
  if debounce_ct s <=? 14
  then rests_low (expire_slot p e s) /\
       debounce_ct (expire_slot p e s) = debounce_ct s + 1 /\
       debounce_change (expire_slot p e s) = 0
  else rests_high (expire_slot p e s) /\
       debounce_change (expire_slot p e s) = 1.
Proof.
  intros Hsm (Hst & Hct) Hr Hfl.
  destruct (step_high p e s Hsm ltac:(lia) Hr) as (S1 & S2 & S3 & _).
  rewrite Hst in S2, S3. change (truthy 0) with false in S3.
  simpl negb in S3. rewrite andb_true_r, Hfl in S3.
  unfold rests_high, rests_low. rewrite S1, S2, S3.
  destruct (Z.leb_spec (debounce_ct s) 14);
    destruct (Z.ltb_spec 15 (debounce_ct s + 1)); try lia;
    repeat split; try reflexivity; lia.
Qed.

(** *** One millisecond at a time *)

(** On the hook, a millisecond in which the dialing pin shows HIGH and
    the pulse pin LOW changes nothing the sketch looks at. *)
Lemma round_on_hook_quiet b p N D T t r sk :
  on_hook b p N D T t sk ->
  digitalRead (fst r) (now_dialing_in_pin b) = true ->
  digitalRead (fst r) (dial_pulse_in_pin b) = false ->
  on_hook b p N D T (t + 1) (run_round b p t r sk) /\
  out (run_round b p t r sk) = out sk.
Proof.
  intros (Hw & H0 & Hled & HN & Hfl & HD) RdN RdD.
  destruct (round_tick b p N D T t (fst r) sk Hw)
    as (W & RN & RD & RT & SN & IN & SD & ID).
  destruct (rests_high_high p (fst r) _ SN HN ltac:(rewrite IN; exact RdN))
    as [HN' Hfl'].
  destruct (rests_low_low p (fst r) _ SD HD ltac:(rewrite ID; exact RdD))
    as (HD' & _).
  rewrite run_round_idle.
  - split; [|reflexivity]. split; [exact W|]. cbv zeta in RN, RD.
    rewrite RN, RD. simpl loop_state. simpl led.
    split; [exact H0|]. split; [exact Hled|]. split; [exact HN'|].
    split; [congruence|exact HD'].
  - intros hu hd. apply (loop_waits_on_hook b p N D T (t + 1));
      [exact W|exact H0|]. cbv zeta in RN. rewrite RN. congruence.
Qed.

(** On the hook, a LOW reading of the dialing pin that does not yet
    confirm. *)
Lemma round_on_hook_wait b p N D T t r sk :
  on_hook b p N D T t sk -> 6 <= debounce_ct (rd (lib sk) N) ->
  digitalRead (fst r) (now_dialing_in_pin b) = false ->
  digitalRead (fst r) (dial_pulse_in_pin b) = false ->
  on_hook b p N D T (t + 1) (run_round b p t r sk) /\
  debounce_ct (rd (lib (run_round b p t r sk)) N) =
    debounce_ct (rd (lib sk) N) - 1 /\
  out (run_round b p t r sk) = out sk.
Proof.
  intros (Hw & H0 & Hled & HN & Hfl & HD) Hc RdN RdD.
  destruct (round_tick b p N D T t (fst r) sk Hw)
    as (W & RN & RD & RT & SN & IN & SD & ID).
  pose proof (rests_high_low p (fst r) _ SN HN
                ltac:(rewrite IN; exact RdN) Hfl) as Hstep.
  destruct (Z.leb_spec 6 (debounce_ct (rd (lib sk) N))) as [_|?]; [|lia].
  destruct Hstep as (HN' & Hct' & Hfl').
  destruct (rests_low_low p (fst r) _ SD HD ltac:(rewrite ID; exact RdD))
    as (HD' & _).
  cbv zeta in RN, RD.
  rewrite run_round_idle.
  - rewrite RN. split; [|split; [exact Hct'|reflexivity]].
    split; [exact W|]. rewrite RN, RD.
    split; [exact H0|]. split; [exact Hled|]. split; [exact HN'|].
    split; [exact Hfl'|exact HD'].
  - intros hu hd. apply (loop_waits_on_hook b p N D T (t + 1));
      [exact W|exact H0|]. rewrite RN. exact Hfl'.
Qed.

(** On the hook, the LOW reading of the dialing pin that confirms: the
    first call of [loop] in that millisecond opens the dialing period. *)
Lemma round_on_hook_fire b p N D T t r sk :
  on_hook b p N D T t sk -> debounce_ct (rd (lib sk) N) < 6 ->
  digitalRead (fst r) (now_dialing_in_pin b) = false ->
  digitalRead (fst r) (dial_pulse_in_pin b) = false ->
  snd r <> [] -> 0 <= t -> t + 5001 < 4294967296 ->
  dialing b p N D T (t + 1) (t + 5001) 0 (run_round b p t r sk) /\
  out (run_round b p t r sk) = out sk.
Proof.
  intros (Hw & H0 & Hled & HN & Hfl & HD) Hc RdN RdD Hjs Ht Hwrap.
  destruct (round_tick b p N D T t (fst r) sk Hw)
    as (W & RN & RD & RT & SN & IN & SD & ID).
  pose proof (rests_high_low p (fst r) _ SN HN
                ltac:(rewrite IN; exact RdN) Hfl) as Hstep.
  destruct (Z.leb_spec 6 (debounce_ct (rd (lib sk) N))) as [?|_]; [lia|].
  destruct Hstep as (HN' & Hfl').
  destruct (rests_low_low p (fst r) _ SD HD ltac:(rewrite ID; exact RdD))
    as (HD' & _).
  cbv zeta in RN, RD.
  destruct (run_round_fire b p t r sk Hjs) as (hu & hd & Hrun).
  cbv zeta in Hrun.
  set (sk1 := set_lib (ISR p (at_time (t + 1) (fst r)) (lib sk)) sk) in *.
  destruct (loop_picks_up b p N D T (t + 1) (at_time (t + 1) (fst r)) hu hd
              sk1 W H0) as [Hd Ho].
  { rewrite RN. exact Hfl'. }
  { rewrite RN. exact HN'. }
  { rewrite RD. exact HD'. }
  { simpl. lia. }
  { simpl. lia. }
  simpl millis in Hd.
  replace (t + 1 + 5000) with (t + 5001) in Hd by lia.
  rewrite Hrun.
  - split; [exact Hd|exact Ho].
  - intros hu' hd'.
    destruct Hd as ((W2 & S2 & _ & _ & F2 & _ & _ & T2) & _).
    apply (loop_waits_off_hook b p N D T (t + 1)); try assumption.
    rewrite T2. simpl. lia.
Qed.

(** Off the hook, a millisecond in which the dialing pin shows LOW: the
    calls of [loop] change nothing while the time-out is not due. *)
Lemma round_off_hook b p N D T t due r sk :
  off_hook b p N D T t due sk ->
  digitalRead (fst r) (now_dialing_in_pin b) = false -> t + 1 < due ->
  let sk1 := set_lib (ISR p (at_time (t + 1) (fst r)) (lib sk)) sk in
  run_round b p t r sk = sk1 /\ off_hook b p N D T (t + 1) due sk1.
Proof.
  intros (Hw & H1 & Hled & HN & Hfl & TA & TR & TD) RdN Hdue sk1.
  destruct (round_tick b p N D T t (fst r) sk Hw)
    as (W & RN & RD & RT & SN & IN & SD & ID).
  destruct (rests_low_low p (fst r) _ SN HN ltac:(rewrite IN; exact RdN))
    as (HN' & Hfl' & _).
  cbv zeta in RN, RD, RT. fold sk1 in W, RN, RD, RT.
  assert (Hoff : off_hook b p N D T (t + 1) due sk1).
  { split; [exact W|]. rewrite RN, RT.
    split; [exact H1|]. split; [exact Hled|]. split; [exact HN'|].
    split; [congruence|]. repeat split; assumption. }
  split; [|exact Hoff].
  apply run_round_idle. intros hu hd. fold sk1.
  apply (loop_waits_off_hook b p N D T (t + 1)); try assumption.
  - rewrite RN. congruence.
  - rewrite RT, TD. simpl. exact Hdue.
Qed.

(** Off the hook, a HIGH reading of the dialing pin that does not yet
    confirm. *)
Lemma round_dialing_wait b p N D T t due k r sk :
  dialing b p N D T t due k sk -> debounce_ct (rd (lib sk) N) <= 14 ->
  digitalRead (fst r) (now_dialing_in_pin b) = true ->
  digitalRead (fst r) (dial_pulse_in_pin b) = false -> t + 1 < due ->
  dialing b p N D T (t + 1) due k (run_round b p t r sk) /\
  debounce_ct (rd (lib (run_round b p t r sk)) N) =
    debounce_ct (rd (lib sk) N) + 1 /\
  out (run_round b p t r sk) = out sk.
Proof.
  intros ((Hw & H1 & Hled & HN & Hfl & TA & TR & TD) & HD & HK)
    Hc RdN RdD Hdue.
  destruct (round_tick b p N D T t (fst r) sk Hw)
    as (W & RN & RD & RT & SN & IN & SD & ID).
  pose proof (rests_low_high p (fst r) _ SN HN
                ltac:(rewrite IN; exact RdN) Hfl) as Hstep.
  destruct (Z.leb_spec (debounce_ct (rd (lib sk) N)) 14) as [_|?]; [|lia].
  destruct Hstep as (HN' & Hct' & Hfl').
  destruct (rests_low_low p (fst r) _ SD HD ltac:(rewrite ID; exact RdD))
    as (HD' & _ & HU').
  cbv zeta in RN, RD, RT.
  rewrite run_round_idle.
  - rewrite RN. split; [|split; [exact Hct'|reflexivity]].
    split; [split; [exact W|]|]; rewrite ?RN, ?RD, ?RT.
    + split; [exact H1|]. split; [exact Hled|]. split; [exact HN'|].
      split; [exact Hfl'|]. repeat split; assumption.
    + split; [exact HD'|congruence].
  - intros hu hd. apply (loop_waits_off_hook b p N D T (t + 1));
      [exact W|exact H1| |].
    + rewrite RN. exact Hfl'.
    + rewrite RT, TD. simpl. exact Hdue.
Qed.

(** Off the hook, the HIGH reading of the dialing pin that confirms: the
    first call of [loop] in that millisecond sends what was dialed. *)
Lemma round_dialing_fire b p N D T t due k r sk :
  dialing b p N D T t due k sk -> 15 <= debounce_ct (rd (lib sk) N) ->
  digitalRead (fst r) (now_dialing_in_pin b) = true ->
  digitalRead (fst r) (dial_pulse_in_pin b) = false ->
  snd r <> [] ->
  on_hook b p N D T (t + 1) (run_round b p t r sk) /\
  out (run_round b p t r sk) = out sk ++ dialed k.
Proof.
  intros ((Hw & H1 & Hled & HN & Hfl & TA & TR & TD) & HD & HK)
    Hc RdN RdD Hjs.
  destruct (round_tick b p N D T t (fst r) sk Hw)
    as (W & RN & RD & RT & SN & IN & SD & ID).
  pose proof (rests_low_high p (fst r) _ SN HN
                ltac:(rewrite IN; exact RdN) Hfl) as Hstep.
  destruct (Z.leb_spec (debounce_ct (rd (lib sk) N)) 14) as [?|_]; [lia|].
  destruct Hstep as (HN' & Hfl').
  destruct (rests_low_low p (fst r) _ SD HD ltac:(rewrite ID; exact RdD))
    as (HD' & _ & HU').
  cbv zeta in RN, RD, RT.
  destruct (run_round_fire b p t r sk Hjs) as (hu & hd & Hrun).
  cbv zeta in Hrun.
  set (sk1 := set_lib (ISR p (at_time (t + 1) (fst r)) (lib sk)) sk) in *.
  destruct (loop_hangs_up b p N D T (t + 1) (at_time (t + 1) (fst r)) hu hd
              sk1 W H1) as [Hd Ho].
  { rewrite RN. exact Hfl'. }
  { rewrite RN. exact HN'. }
  { rewrite RD. exact HD'. }
  rewrite RD, HU', HK in Ho.
  rewrite Hrun.
  - split; [exact Hd|exact Ho].
  - intros hu' hd'. destruct Hd as (W2 & S2 & _ & _ & F2 & _).
    apply (loop_waits_on_hook b p N D T (t + 1)); assumption.
Qed.

(** *** Runs of milliseconds *)

Lemma set_lib_same sk : set_lib (lib sk) sk = sk.
Proof. destruct sk; reflexivity. Qed.

(** Off the hook, while the dialing pin shows LOW and the time-out is
    not due, the calls of [loop] change nothing: the table is what the
    interrupts alone make of it. *)
Lemma off_hook_rounds b p N D T due rs : forall t sk,
  off_hook b p N D T t due sk ->
  all_read (now_dialing_in_pin b) false (map fst rs) ->
  t + Z.of_nat (length rs) < due ->
  run_sketch b p (session t rs) sk =
    set_lib (run_ticks p t (map fst rs) (lib sk)) sk /\
  off_hook b p N D T (t + Z.of_nat (length rs)) due
    (run_sketch b p (session t rs) sk).
Proof.
  induction rs as [|r rs IH]; intros t sk Hoff Hall Hdue.
  - simpl. rewrite Z.add_0_r, set_lib_same. split; [reflexivity|exact Hoff].
  - simpl map in Hall. inversion Hall as [|? ? Hr Hall']; subst.
    simpl length in *. rewrite run_session_cons.
    destruct (round_off_hook b p N D T t due r sk Hoff Hr ltac:(lia))
      as [E Hoff1].
    rewrite E.
    destruct (IH (t + 1) _ Hoff1 Hall' ltac:(lia)) as [E2 Hoff2].
    replace (t + Z.of_nat (S (length rs)))
      with (t + 1 + Z.of_nat (length rs)) by lia.
    split; [|exact Hoff2]. rewrite E2. reflexivity.
Qed.

Lemma off_hook_serve b p N D T due rs t sk :
  off_hook b p N D T t due sk ->
  all_read (now_dialing_in_pin b) false (map fst rs) ->
  t + Z.of_nat (length rs) < due ->
  let sk' := run_sketch b p (session t rs) sk in
  off_hook b p N D T (t + Z.of_nat (length rs)) due sk' /\
  rd (lib sk') D = serve p (map fst rs) (rd (lib sk) D) /\
  out sk' = out sk /\
  smoothing p (rd (lib sk) D) /\ id (rd (lib sk) D) = dial_pulse_in_pin b.
Proof.
  intros Hoff Hall Hdue sk'.
  destruct (off_hook_rounds b p N D T due rs t sk Hoff Hall Hdue) as [E Hoff'].
  fold sk' in E, Hoff'.
  destruct Hoff as ((_ & _ & LD & MD & _) & _).
  destruct (live_slot_run p _ D (map fst rs) t (lib sk) LD) as [_ Hrun].
  destruct (live_slot_smoothing p _ D t _ LD MD) as [SD ID].
  split; [exact Hoff'|]. rewrite E. simpl lib. simpl out.
  split; [exact Hrun|]. split; [reflexivity|]. split; assumption.
Qed.

(** Between pulses nothing is counted. *)
Lemma dialing_quiet b p N D T due k rs t sk :
  dialing b p N D T t due k sk -> shows b false false rs ->
  t + Z.of_nat (length rs) < due ->
  dialing b p N D T (t + Z.of_nat (length rs)) due k
    (run_sketch b p (session t rs) sk) /\
  out (run_sketch b p (session t rs) sk) = out sk.
Proof.
  intros (Hoff & (SD & CD) & HK) [HallN HallD] Hdue.
  destruct (off_hook_serve b p N D T due rs t sk Hoff HallN Hdue)
    as (Hoff' & RD & Ho & Hsm & Hid).
  destruct (serve_quiet_low p (map fst rs) _ Hsm SD CD
              ltac:(rewrite Hid; exact HallD))
    as (_ & _ & Q1 & Q2 & _ & Q3 & _).
  split; [|exact Ho]. split; [exact Hoff'|]. rewrite RD.
  split; [split; [exact Q1|lia]|congruence].
Qed.

(** One pulse of the dial adds one to the count. *)
Lemma dialing_pulse b p N D T due k pl t sk :
  dialing b p N D T t due k sk -> pulse b pl ->
  t + Z.of_nat (length (fst pl ++ snd pl)) < due -> 0 <= k < 65535 ->
  dialing b p N D T (t + Z.of_nat (length (fst pl ++ snd pl))) due (k + 1)
    (run_sketch b p (session t (fst pl ++ snd pl)) sk) /\
  out (run_sketch b p (session t (fst pl ++ snd pl)) sk) = out sk.
Proof.
  intros (Hoff & (SD & CD) & HK) ([HN1 HD1] & [HN2 HD2] & L1 & L2) Hdue Hk.
  unfold ms_round in *.
  assert (HallN : all_read (now_dialing_in_pin b) false
                    (map fst (fst pl ++ snd pl))).
  { unfold all_read in *. rewrite map_app. apply Forall_app. split; assumption. }
  destruct (off_hook_serve b p N D T due _ t sk Hoff HallN Hdue)
    as (Hoff' & RD & Ho & Hsm & Hid).
  rewrite map_app, serve_app in RD.
  destruct (serve_rising p (map fst (fst pl)) _ Hsm SD CD
              ltac:(rewrite Hid; exact HD1))
    as (U1 & U2 & U3 & U4 & _ & U5 & _).
  rewrite length_map in U3, U4, U5.
  match type of U3 with
  | context [if ?c then _ else _] =>
      assert (X1 : c = true) by (apply Z.ltb_lt; lia);
      rewrite X1 in U3, U4, U5
  end.
  destruct (serve_falling p (map fst (snd pl)) _ U1 U4 ltac:(lia)
              ltac:(rewrite U2, Hid; exact HD2))
    as (_ & _ & V1 & V2 & _ & V3 & _).
  rewrite length_map, U3 in V1, V2.
  match type of V1 with
  | context [if ?c then _ else _] =>
      assert (X2 : c = true) by (apply Z.ltb_lt; lia);
      rewrite X2 in V1, V2
  end.
  split; [|exact Ho]. split; [exact Hoff'|]. rewrite RD.
  split; [split; [exact V2|lia]|].
  rewrite V3, U5, HK. unfold to_uint. apply Z.mod_small. lia.
Qed.

Lemma pulse_rounds_cons pl pls :
  pulse_rounds (pl :: pls) = (fst pl ++ snd pl) ++ pulse_rounds pls.
Proof. reflexivity. Qed.

Lemma pulse_rounds_length b pls :
  Forall (pulse b) pls ->
  32 * Z.of_nat (length pls) <= Z.of_nat (length (pulse_rounds pls)).
Proof.
  induction 1 as [|pl pls (_ & _ & L1 & L2) _ IH]; [simpl; lia|].
  rewrite pulse_rounds_cons, !length_app. simpl length. lia.
Qed.

(** A train of pulses is counted pulse by pulse. *)
Lemma dialing_pulses b p N D T due pls : forall k t sk,
  dialing b p N D T t due k sk -> Forall (pulse b) pls ->
  t + Z.of_nat (length (pulse_rounds pls)) < due ->
  0 <= k -> k + Z.of_nat (length pls) < 65536 ->
  dialing b p N D T (t + Z.of_nat (length (pulse_rounds pls))) due
    (k + Z.of_nat (length pls))
    (run_sketch b p (session t (pulse_rounds pls)) sk) /\
  out (run_sketch b p (session t (pulse_rounds pls)) sk) = out sk.
Proof.
  induction pls as [|pl pls IH]; intros k t sk Hd Hpls Hdue Hk0 Hk.
  - simpl. rewrite !Z.add_0_r. split; [exact Hd|reflexivity].
  - inversion Hpls as [|? ? Hpl Hpls']; subst.
    rewrite pulse_rounds_cons in *. rewrite length_app in *.
    simpl length in Hk.
    rewrite session_app, run_sketch_app.
    destruct (dialing_pulse b p N D T due k pl t sk Hd Hpl ltac:(lia)
                ltac:(lia)) as [Hd1 Ho1].
    destruct (IH (k + 1) _ _ Hd1 Hpls' ltac:(lia) ltac:(lia) ltac:(lia))
      as [Hd2 Ho2].
    split; [|rewrite Ho2; exact Ho1].
    replace (t + Z.of_nat (length (fst pl ++ snd pl) +
                           length (pulse_rounds pls)))
      with (t + Z.of_nat (length (fst pl ++ snd pl)) +
            Z.of_nat (length (pulse_rounds pls))) by lia.
    replace (k + Z.of_nat (length (pl :: pls)))
      with (k + 1 + Z.of_nat (length pls)) by (simpl length; lia).
    exact Hd2.
Qed.

(** On the hook nothing happens while the dialing pin shows HIGH. *)
Lemma on_hook_quiet b p N D T rs : forall t sk,
  on_hook b p N D T t sk -> shows b true false rs ->
  on_hook b p N D T (t + Z.of_nat (length rs))
    (run_sketch b p (session t rs) sk) /\
  out (run_sketch b p (session t rs) sk) = out sk.
Proof.
  induction rs as [|r rs IH]; intros t sk Hon Hsh.
  - simpl. rewrite Z.add_0_r. split; [exact Hon|reflexivity].
  - apply shows_cons in Hsh as (RdN & RdD & Hsh').
    rewrite run_session_cons.
    destruct (round_on_hook_quiet b p N D T t r sk Hon RdN RdD) as [H1 O1].
    destruct (IH (t + 1) _ H1 Hsh') as [H2 O2].
    simpl length.
    replace (t + Z.of_nat (S (length rs)))
      with (t + 1 + Z.of_nat (length rs)) by lia.
    split; [exact H2|congruence].
Qed.

(** Lifting the handset: a run of LOW readings of the dialing pin long
    enough to confirm opens a dialing period with the count at 0. *)
Lemma picking_up b p N D T rs : forall t sk,
  on_hook b p N D T t sk -> shows b false false rs -> loop_keeps_up rs ->
  debounce_ct (rd (lib sk) N) - 4 <= Z.of_nat (length rs) ->
  Z.of_nat (length rs) <= 5000 ->
  0 <= t -> t + debounce_ct (rd (lib sk) N) + 4996 < 4294967296 ->
  exists due, t + 5000 < due /\
    dialing b p N D T (t + Z.of_nat (length rs)) due 0
      (run_sketch b p (session t rs) sk) /\
    out (run_sketch b p (session t rs) sk) = out sk.
Proof.
  induction rs as [|r rs IH]; intros t sk Hon Hsh Hup Hlen Hmax Ht Hwrap.
  - destruct Hon as (_ & _ & _ & (_ & HN) & _). simpl in Hlen. lia.
  - apply shows_cons in Hsh as (RdN & RdD & Hsh').
    inversion Hup as [|? ? Hjs Hup']; subst.
    pose proof Hon as (_ & _ & _ & (_ & HN) & _).
    rewrite run_session_cons. simpl length in *. unfold ms_round in *.
    replace (t + Z.of_nat (S (length rs)))
      with (t + 1 + Z.of_nat (length rs)) by lia.
    destruct (Z.le_gt_cases 6 (debounce_ct (rd (lib sk) N))) as [Hc|Hc].
    + destruct (round_on_hook_wait b p N D T t r sk Hon Hc RdN RdD)
        as (H1 & C1 & O1).
      assert (Z1 : debounce_ct (rd (lib (run_round b p t r sk)) N) - 4 <=
                   Z.of_nat (length rs)) by (rewrite C1; lia).
      assert (Z2 : t + 1 + debounce_ct (rd (lib (run_round b p t r sk)) N) +
                   4996 < 4294967296) by (rewrite C1; lia).
      destruct (IH (t + 1) _ H1 Hsh' Hup' Z1 ltac:(lia) ltac:(lia) Z2)
        as (due & Hd & Hdial & O2).
      exists due. split; [lia|]. split; [exact Hdial|congruence].
    + destruct (round_on_hook_fire b p N D T t r sk Hon ltac:(lia) RdN RdD
                  Hjs Ht ltac:(lia)) as [H1 O1].
      destruct (dialing_quiet b p N D T (t + 5001) 0 rs (t + 1) _ H1 Hsh'
                  ltac:(unfold ms_round in *; lia)) as [H2 O2].
      exists (t + 5001). split; [lia|]. split; [exact H2|congruence].
Qed.

(** Hanging up: a run of HIGH readings of the dialing pin long enough to
    confirm closes the dialing period and sends what was dialed. *)
Lemma hanging_up b p N D T due k rs : forall t sk,
  dialing b p N D T t due k sk -> shows b true false rs -> loop_keeps_up rs ->
  16 - debounce_ct (rd (lib sk) N) <= Z.of_nat (length rs) ->
  t + (16 - debounce_ct (rd (lib sk) N)) <= due ->
  on_hook b p N D T (t + Z.of_nat (length rs))
    (run_sketch b p (session t rs) sk) /\
  out (run_sketch b p (session t rs) sk) = out sk ++ dialed k.
Proof.
  induction rs as [|r rs IH]; intros t sk Hd Hsh Hup Hlen Hdue.
  - destruct Hd as ((_ & _ & _ & (_ & HN) & _) & _). simpl in Hlen. lia.
  - apply shows_cons in Hsh as (RdN & RdD & Hsh').
    inversion Hup as [|? ? Hjs Hup']; subst.
    pose proof Hd as ((_ & _ & _ & (_ & HN) & _) & _).
    rewrite run_session_cons. simpl length in *. unfold ms_round in *.
    replace (t + Z.of_nat (S (length rs)))
      with (t + 1 + Z.of_nat (length rs)) by lia.
    destruct (Z.le_gt_cases (debounce_ct (rd (lib sk) N)) 14) as [Hc|Hc].
    + destruct (round_dialing_wait b p N D T t due k r sk Hd Hc RdN RdD
                  ltac:(lia)) as (H1 & C1 & O1).
      assert (Z1 : 16 - debounce_ct (rd (lib (run_round b p t r sk)) N) <=
                   Z.of_nat (length rs)) by (rewrite C1; lia).
      assert (Z2 : t + 1 +
                   (16 - debounce_ct (rd (lib (run_round b p t r sk)) N)) <=
                   due) by (rewrite C1; lia).
      destruct (IH (t + 1) _ H1 Hsh' Hup' Z1 Z2) as (H2 & O2).
      split; [exact H2|congruence].
    + destruct (round_dialing_fire b p N D T t due k r sk Hd ltac:(lia)
                  RdN RdD Hjs) as [H1 O1].
      destruct (on_hook_quiet b p N D T rs (t + 1) _ H1 Hsh') as [H2 O2].
      split; [exact H2|congruence].
Qed.

(** X20: dialing a digit, on a run in which no interrupt is served while
    a call of [loop] is in progress and the millisecond counter does not
    wrap (start tick plus 5016 below 2^32).  With the handset on the
    hook, let the dialing pin show LOW for at least 16 ms, let the pulse
    pin then give any number of pulses (HIGH for at least 16 ms, LOW for
    at least 16 ms each), and let the dialing pin then show HIGH for at
    least 16 ms, the first two phases plus 16 ms taking no more than the
    5000 ms of the time-out; let the interrupt be served once every
    millisecond, before the calls of [loop] of that millisecond, and
    [loop] complete at least one call in every millisecond of the first
    and of the last phase.  Then the sketch sends exactly one thing, the
    number of pulses, with more than nine pulses sent as 0, and nothing
    at all for no pulse; it ends on the hook again, so the next digit can
    follow. *)
Theorem dialing_sends_the_digit b p N D T t A pls C sk :
  on_hook b p N D T t sk ->
  shows b false false A -> loop_keeps_up A -> (16 <= length A)%nat ->
  Forall (pulse b) pls ->
  shows b true false C -> loop_keeps_up C -> (16 <= length C)%nat ->
  0 <= t -> t + 5016 < 4294967296 ->
  Z.of_nat (length A) + Z.of_nat (length (pulse_rounds pls)) + 16 <= 5000 ->
  let rs := A ++ pulse_rounds pls ++ C in
  let sk' := run_sketch b p (session t rs) sk in
  out sk' = out sk ++ dialed (Z.of_nat (length pls)) /\
  on_hook b p N D T (t + Z.of_nat (length rs)) sk'.
Proof.
  intros Hon HA UA LA Hpls HC UC LC Ht Hwrap Hlong rs sk'. subst sk' rs.
  pose proof Hon as (_ & _ & _ & (_ & HN) & _).
  pose proof (pulse_rounds_length b pls Hpls) as Hcount.
  rewrite !session_app, !run_sketch_app, !length_app.
  destruct (picking_up b p N D T A t sk Hon HA UA ltac:(lia) ltac:(lia) Ht
              ltac:(lia)) as (due & Hdue & Hd1 & O1).
  set (sk1 := run_sketch b p (session t A) sk) in *.
  destruct (dialing_pulses b p N D T due pls 0 _ sk1 Hd1 Hpls ltac:(lia)
              ltac:(lia) ltac:(lia)) as [Hd2 O2].
  set (sk2 := run_sketch b p
                (session (t + Z.of_nat (length A)) (pulse_rounds pls)) sk1)
    in *.
  pose proof Hd2 as ((_ & _ & _ & (_ & HN2) & _) & _).
  destruct (hanging_up b p N D T due _ C _ sk2 Hd2 HC UC ltac:(lia)
              ltac:(lia)) as [Hon3 O3].
  split.
  - rewrite O3, O2, O1. reflexivity.
  - replace (t + Z.of_nat (length A + (length (pulse_rounds pls) + length C)))
      with (t + Z.of_nat (length A) + Z.of_nat (length (pulse_rounds pls)) +
            Z.of_nat (length C)) by lia.
    exact Hon3.
Qed.

Lemma wf_rest_sketch : wf (lib rest_sketch).
Proof. wf_by_compute. Qed.

Lemma on_hook_rest_sketch : on_hook arduino_board Arduino 1 0 2 0 rest_sketch.
Proof.
  assert (Hwf := wf_rest_sketch).
  split; [|vm_compute; repeat split; discriminate].
  split; [split; [exact Hwf|vm_compute; repeat split; discriminate]|].
  split; [reflexivity|].
  split; [split; [exact Hwf|vm_compute; repeat split; discriminate]|].
  split; [reflexivity|]. split; [reflexivity|]. split; [lia|lia].
Qed.

Lemma dialing_sends_the_digit_witness :
  out (run_sketch arduino_board Arduino
         (session 0
            (replicate 16 (millisecond false false) ++
             pulse_rounds
               (replicate 3
                  (replicate 16 (millisecond false true),
                   replicate 16 (millisecond false false))) ++
             replicate 16 (millisecond true false)))
         rest_sketch) = [PrintBanner; Print 3].
Proof.
  destruct (dialing_sends_the_digit arduino_board Arduino 1 0 2 0
              (replicate 16 (millisecond false false))
              (replicate 3
                 (replicate 16 (millisecond false true),
                  replicate 16 (millisecond false false)))
              (replicate 16 (millisecond true false)) rest_sketch
              on_hook_rest_sketch)
    as [H _].
  - split; simpl; repeat constructor.
  - simpl. repeat constructor; discriminate.
  - simpl. lia.
  - repeat constructor; simpl; repeat constructor; lia.
  - split; simpl; repeat constructor.
  - simpl. repeat constructor; discriminate.
  - simpl. lia.
  - lia.
  - lia.
  - simpl. lia.
  - exact H.
Defined.

(** ** The time-out of a dialing period *)




(** ** What setup leaves behind *)

Lemma to_uchar_small x : 0 <= x < 256 -> to_uchar x = x.
Proof. intros H. unfold to_uchar. apply Z.mod_small. lia. Qed.

(** X22: [setup] arms the sketch for dialing.  Run on any well-formed
    table with the two input pins distinct and in the pin range, the
    pulse pin showing LOW and the dialing pin HIGH when they are
    registered, the calls before the wait leave the pulse pin in slot 0,
    the dialing pin in slot 1 and timer 20 in slot 2, both pins served
    every millisecond from then on, and the sketch on the hook: [loop] in
    state 0, LED off, dialing pin confirmed HIGH with its accumulator at
    20, pulse pin confirmed LOW with its accumulator at 0, no change
    pending. *)
Theorem setup_leaves_the_sketch_on_hook b p e0 e1 e2 e3 t st :
  wf st ->
  0 <= dial_pulse_in_pin b <= MAX_DIGITAL_PIN p ->
  0 <= now_dialing_in_pin b <= MAX_DIGITAL_PIN p ->
  dial_pulse_in_pin b <> now_dialing_in_pin b ->
  digitalRead e1 (dial_pulse_in_pin b) = false ->
  digitalRead e2 (now_dialing_in_pin b) = true ->
  0 <= millis e1 <= t -> 0 <= millis e2 <= t -> t + 1 < 4294967296 ->
  on_hook b p 1 0 2 t (setup_begin b p e0 e1 e2 e3 st) /\
  debounce_ct (rd (lib (setup_begin b p e0 e1 e2 e3 st)) 1) = 20 /\
  debounce_ct (rd (lib (setup_begin b p e0 e1 e2 e3 st)) 0) = 0.
Proof.
  intros Hwf HD HN Hne RdD RdN T1 T2 Hwrap.
  assert (Hmax : MAX_DIGITAL_PIN p < 20) by (destruct p; simpl; lia).
  unfold setup_begin. cbv zeta.
  pose proof Hwf as (Hlen & _).
  destruct (sched_list_init_fields p e0 0 st Hlen)
    as (C0 & I0 & _ & _ & _ & _ & _ & _).
  assert (W0 := wf_sched_list_init p e0 0 st Hwf).
  set (st0 := sched_list_init p e0 0 st) in *.
  assert (UD : to_uchar (dial_pulse_in_pin b) = dial_pulse_in_pin b)
    by (apply to_uchar_small; lia).
  assert (UN : to_uchar (now_dialing_in_pin b) = now_dialing_in_pin b)
    by (apply to_uchar_small; lia).
  (* the pulse pin *)
  assert (F0 : forall x, snd (find_ident x st0) = -1)
    by (intros x; rewrite find_ident_empty by exact C0; reflexivity).
  assert (Room0 : sched_count st0 < MAX_SCHED)
    by (rewrite C0; unfold MAX_SCHED; lia).
  assert (R1 := fun j Hj =>
    sched_event_fresh_rd p e1 (dial_pulse_in_pin b) 1 1 st0 j W0
      ltac:(rewrite F0; lia) Room0 Hj).
  destruct (sched_event_fresh_ret p e1 (dial_pulse_in_pin b) 1 1 st0
              ltac:(rewrite F0; lia) ltac:(rewrite C0; unfold MAX_SCHED; lia))
    as [_ C1].
  assert (W1 := wf_sched_event p e1 (dial_pulse_in_pin b) 1 1 st0 W0).
  destruct (sched_event_globals p e1 (dial_pulse_in_pin b) 1 1 st0)
    as (_ & I1 & _).
  assert (F1 : forall x, x <> dial_pulse_in_pin b ->
            snd (find_ident x (snd (sched_event p e1 (dial_pulse_in_pin b)
                                      1 1 st0))) = -1).
  { intros x Hx. rewrite find_ident_fresh_other; try assumption;
      [apply F0|rewrite F0; lia|rewrite UD; exact Hx]. }
  cbv zeta in R1. rewrite C0 in C1. change (0 + 1) with 1 in C1.
  set (st1 := snd (sched_event p e1 (dial_pulse_in_pin b) 1 1 st0)) in *.
  (* the dialing pin *)
  assert (Room1 : sched_count st1 < MAX_SCHED)
    by (rewrite C1; unfold MAX_SCHED; lia).
  assert (Fn1 : snd (find_ident (now_dialing_in_pin b) st1) < 0)
    by (rewrite F1 by congruence; lia).
  assert (R2 := fun j Hj =>
    sched_event_fresh_rd p e2 (now_dialing_in_pin b) 1 1 st1 j W1 Fn1
      Room1 Hj).
  destruct (sched_event_fresh_ret p e2 (now_dialing_in_pin b) 1 1 st1 Fn1
              ltac:(rewrite C1; unfold MAX_SCHED; lia)) as [_ C2].
  assert (W2 := wf_sched_event p e2 (now_dialing_in_pin b) 1 1 st1 W1).
  destruct (sched_event_globals p e2 (now_dialing_in_pin b) 1 1 st1)
    as (_ & I2 & _).
  assert (F2 : snd (find_ident 20
                      (snd (sched_event p e2 (now_dialing_in_pin b) 1 1 st1)))
               = -1).
  { rewrite find_ident_fresh_other; try assumption;
      [apply F1; lia|rewrite UN; lia]. }
  cbv zeta in R2. rewrite C1 in C2. change (1 + 1) with 2 in C2.
  set (st2 := snd (sched_event p e2 (now_dialing_in_pin b) 1 1 st1)) in *.
  (* the timer *)
  assert (Room2 : sched_count st2 < MAX_SCHED)
    by (rewrite C2; unfold MAX_SCHED; lia).
  assert (R3 := fun j Hj =>
    sched_event_fresh_rd p e3 20 0 1000 st2 j W2 ltac:(rewrite F2; lia)
      Room2 Hj).
  destruct (sched_event_fresh_ret p e3 20 0 1000 st2 ltac:(rewrite F2; lia)
              ltac:(rewrite C2; unfold MAX_SCHED; lia)) as [_ C3].
  assert (W3 := wf_sched_event p e3 20 0 1000 st2 W2).
  destruct (sched_event_globals p e3 20 0 1000 st2) as (_ & I3 & _).
  cbv zeta in R3. rewrite C2 in C3. change (2 + 1) with 3 in C3.
  set (st3 := snd (sched_event p e3 20 0 1000 st2)) in *.
  (* the three records *)
  assert (PD : (dial_pulse_in_pin b <=? MAX_DIGITAL_PIN p) = true)
    by (apply Z.leb_le; lia).
  assert (PN : (now_dialing_in_pin b <=? MAX_DIGITAL_PIN p) = true)
    by (apply Z.leb_le; lia).
  assert (S0 : rd st3 0 =
            mk_sched (dial_pulse_in_pin b) 0 0 0 0 0 0 1 1
              (to_ulong (1 + millis e1)) 1).
  { rewrite (R3 0) by lia. rewrite C2. change (0 =? 2) with false. cbv iota.
    rewrite (R2 0) by lia. rewrite C1. change (0 =? 1) with false. cbv iota.
    rewrite (R1 0) by lia. rewrite C0, UD. change (0 =? 0) with true.
    cbv iota. rewrite PD, RdD. reflexivity. }
  assert (S1 : rd st3 1 =
            mk_sched (now_dialing_in_pin b) 1 20 1 0 0 0 1 1
              (to_ulong (1 + millis e2)) 1).
  { rewrite (R3 1) by lia. rewrite C2. change (1 =? 2) with false. cbv iota.
    rewrite (R2 1) by lia. rewrite C1, UN. change (1 =? 1) with true.
    cbv iota. rewrite PN, RdN. reflexivity. }
  assert (S2 : id (rd st3 2) = 20).
  { rewrite (R3 2) by lia. rewrite C2. reflexivity. }
  assert (Ini : truthy (sched_initialized st3) = true)
    by (rewrite I3, I2, I1, I0; reflexivity).
  assert (L1 : to_ulong (1 + millis e1) = 1 + millis e1)
    by (unfold to_ulong; apply Z.mod_small; lia).
  assert (L2 : to_ulong (1 + millis e2) = 1 + millis e2)
    by (unfold to_ulong; apply Z.mod_small; lia).
  assert (FD : snd (find_ident (dial_pulse_in_pin b) st3) = 0).
  { apply find_ident_last; [lia|rewrite S0; reflexivity|].
    intros j Hj. assert (j = 1 \/ j = 2) as [-> | ->] by lia;
      [rewrite S1; simpl; congruence|rewrite S2; lia]. }
  assert (FN : snd (find_ident (now_dialing_in_pin b) st3) = 1).
  { apply find_ident_last; [lia|rewrite S1; reflexivity|].
    intros j Hj. assert (j = 2) as -> by lia. rewrite S2. lia. }
  assert (FT : snd (find_ident 20 st3) = 2).
  { apply find_ident_last; [lia|exact S2|]. intros j Hj. lia. }
  split; [|simpl lib; rewrite S0, S1; split; reflexivity].
  unfold on_hook, wired, live_slot, rests_high, rests_low, is_pin.
  simpl lib. simpl loop_state. simpl led. rewrite S0, S1.
  cbn [id debounce_ct debounce_state debounce_change active recurring
       schedtime schedms].
  change (truthy 1) with true.
  rewrite L1, L2, PD, PN.
  assert (ZD : (0 <=? dial_pulse_in_pin b) = true) by (apply Z.leb_le; lia).
  assert (ZN : (0 <=? now_dialing_in_pin b) = true) by (apply Z.leb_le; lia).
  rewrite ZD, ZN.
  repeat split; try assumption; try reflexivity; try lia;
    try apply W3.
Qed.

Lemma setup_leaves_the_sketch_on_hook_witness :
  on_hook teensy_board Arduino 1 0 2 5
    (setup_begin teensy_board Arduino (all_pins 0 false)
       (mk_env 3 (fun pin => pin =? 2) 0 0)
       (mk_env 4 (fun pin => pin =? 2) 0 0) (all_pins 5 false)
       (boot_state Arduino)).
Proof.
  destruct (setup_leaves_the_sketch_on_hook teensy_board Arduino
              (all_pins 0 false) (mk_env 3 (fun pin => pin =? 2) 0 0)
              (mk_env 4 (fun pin => pin =? 2) 0 0) (all_pins 5 false) 5
              (boot_state Arduino) (wf_boot_state Arduino)) as [H _].
  - simpl. lia.
  - simpl. lia.
  - simpl. discriminate.
  - reflexivity.
  - reflexivity.
  - simpl. lia.
  - simpl. lia.
  - lia.
  - exact H.
Defined.

(** * Ids outside the pin range *)

Lemma rd_wr_at pos f st j :
  0 <= pos -> 0 <= j ->
  rd (wr pos f st) j = rd st j \/
  (j = pos /\ rd (wr pos f st) j = f (rd st pos)).
Proof.
  intros Hp Hj. destruct (Z.eq_dec j pos) as [->|Hne].
  - destruct (rd_wr_cases pos f st pos) as [E|E]; [left|right; split]; auto.
  - left. apply rd_wr_ne; lia.
Qed.

Lemma unwatched_wr p pos f st :
  0 <= pos < sched_count st ->
  id (f (rd st pos)) = id (rd st pos) ->
  (is_pin p (rd st pos) = false ->
   debounce_change (f (rd st pos)) = debounce_change (rd st pos) \/
   debounce_change (f (rd st pos)) = 0) ->
  unwatched p st -> unwatched p (wr pos f st).
Proof.
  intros Hpos Hid Hch Hun j Hj Hcase.
  change (sched_count (wr pos f st)) with (sched_count st) in Hcase.
  destruct (rd_wr_at pos f st j ltac:(lia) Hj) as [E|[-> E]]; rewrite E in *.
  - apply Hun; assumption.
  - destruct Hcase as [?|Hnp]; [lia|].
    unfold is_pin in Hnp. rewrite Hid in Hnp.
    destruct (Hch Hnp) as [H|H]; rewrite H; [|reflexivity].
    apply Hun; [lia|right; exact Hnp].
Qed.

Lemma unwatched_check0 p e pos st :
  unwatched p st -> unwatched p (snd (sched_check0 p e pos st)).
Proof.
  intros Hun. unfold sched_check0.
  destruct (Z.ltb_spec pos 0) as [?|Hp]; [exact Hun|].
  destruct (Z.leb_spec (sched_count st) pos) as [?|Hc]; [exact Hun|].
  simpl orb. cbv iota.
  destruct (truthy (active (rd st pos))); [|exact Hun].
  destruct (schedtime (rd st pos) <=? millis e); [|exact Hun].
  simpl snd. apply unwatched_wr; [lia|apply id_expire_slot| |exact Hun].
  intros Hnp. left. rewrite expire_slot_timer by exact Hnp.
  destruct (truthy (recurring (rd st pos))); reflexivity.
Qed.

Lemma unwatched_pin_loop p e n : forall i st,
  unwatched p st -> unwatched p (for_up n i (pin_loop_body p e) st).
Proof.
  induction n as [|n IH]; intros i st Hun; [exact Hun|].
  simpl. apply IH. unfold pin_loop_body.
  destruct (is_pin p (rd st i)); [apply unwatched_check0|]; exact Hun.
Qed.

Lemma unwatched_ISR p e st : unwatched p st -> unwatched p (ISR p e st).
Proof.
  intros Hun. unfold ISR.
  destruct (truthy (sched_initialized st)); [|exact Hun].
  unfold sched_background_int. apply unwatched_pin_loop.
  intros j Hj Hcase.
  destruct (analog_scan_globals e (set_sched_priorms (millis e) st))
    as (G1 & G2 & _).
  assert (Hrd : rd (analog_scan e (set_sched_priorms (millis e) st)) j =
                rd st j) by (unfold rd; rewrite G1; reflexivity).
  rewrite Hrd in *. rewrite G2 in Hcase. apply (Hun j Hj). exact Hcase.
Qed.

Lemma unwatched_event p e ident recur ms st :
  wf st -> unwatched p st ->
  unwatched p (snd (sched_event p e ident recur ms st)).
Proof.
  intros Hwf Hun. pose proof Hwf as (Hlen & Hcnt & Hrng).
  destruct (Z.le_gt_cases 0 (snd (find_ident ident st))) as [Hf|Hf].
  - destruct (find_ident_found ident st _ eq_refl Hf) as [Hlt Hid].
    destruct (sched_event_found_ret p e ident recur ms st _ Hwf eq_refl Hf)
      as [_ Hc].
    intros j Hj Hcase. rewrite Hc in Hcase.
    rewrite (sched_event_found_rd p e ident recur ms st _ j Hwf eq_refl Hf Hj)
      in *.
    destruct (Z.eqb_spec j (snd (find_ident ident st))) as [->|Hne].
    + simpl. apply Hun; [exact Hf|]. destruct Hcase as [?|Hnp]; [lia|].
      right. unfold is_pin in *. simpl in Hnp. rewrite Hid. exact Hnp.
    + destruct ((j =? sched_count st) && (ident <=? MAX_DIGITAL_PIN p));
        [reflexivity|]. apply Hun; assumption.
  - destruct (Z.lt_ge_cases (sched_count st) MAX_SCHED) as [Hroom|Hfull];
      [|rewrite sched_event_full by (assumption || lia); exact Hun].
    destruct (sched_event_fresh_ret p e ident recur ms st ltac:(lia)
                ltac:(lia)) as [_ Hc].
    intros j Hj Hcase. rewrite Hc in Hcase.
    rewrite (sched_event_fresh_rd p e ident recur ms st j Hwf ltac:(lia)
               Hroom Hj) in *.
    destruct (Z.eqb_spec j (sched_count st)) as [->|Hne].
    + simpl. destruct (to_uchar ident <=? MAX_DIGITAL_PIN p); [reflexivity|].
      apply Hun; [lia|left; lia].
    + apply Hun; [exact Hj|]. destruct Hcase as [?|?]; [left; lia|right].
      assumption.
Qed.

Lemma unwatched_init p e n st :
  wf st -> unwatched p st -> unwatched p (sched_list_init p e n st).
Proof.
  intros Hwf Hun. pose proof Hwf as (Hlen & Hcnt & _).
  destruct (sched_list_init_fields p e n st Hlen)
    as (_ & _ & _ & _ & _ & _ & _ & Hrd & _).
  intros j Hj _. rewrite Hrd by exact Hj.
  destruct (Z.ltb_spec j MAX_SCHED) as [?|?]; [reflexivity|].
  apply Hun; [exact Hj|left; lia].
Qed.

Lemma unwatched_wr_all p pos f st :
  (forall s, id (f s) = id s /\
             (debounce_change (f s) = debounce_change s \/
              debounce_change (f s) = 0)) ->
  unwatched p st -> unwatched p (wr pos f st).
Proof.
  intros Hf Hun j Hj Hcase.
  change (sched_count (wr pos f st)) with (sched_count st) in Hcase.
  destruct (rd_wr_cases pos f st j) as [E|E]; rewrite E in *.
  - apply Hun; assumption.
  - destruct (Hf (rd st j)) as [Hid [H|H]]; rewrite H; [|reflexivity].
    apply Hun; [exact Hj|]. unfold is_pin in *. rewrite Hid in Hcase.
    exact Hcase.
Qed.

Lemma unwatched_run_op p o st :
  wf st -> unwatched p st -> unwatched p (run_op p o st).
Proof.
  intros Hwf Hun. destruct o; simpl.
  - apply unwatched_init; assumption.
  - apply unwatched_event; assumption.
  - apply unwatched_event; assumption.
  - unfold sched_check. destruct (find_ident ident st) as [i pos].
    destruct (pos <? 0); [exact Hun|]. apply unwatched_check0. exact Hun.
  - destruct (run_query_state QHigh ident st) as [E|E]; simpl in E;
      rewrite E; [exact Hun|].
    apply unwatched_wr_all; [|exact Hun]. intros s. split; [|right]; reflexivity.
  - destruct (run_query_state QLow ident st) as [E|E]; simpl in E;
      rewrite E; [exact Hun|].
    apply unwatched_wr_all; [|exact Hun]. intros s. split; [|right]; reflexivity.
  - destruct (run_query_state (QLevel level) ident st) as [E|E]; simpl in E;
      rewrite E; [exact Hun|].
    apply unwatched_wr_all; [|exact Hun]. intros s. split; [|right]; reflexivity.
  - unfold sched_pin_event_count. destruct (find_ident ident st) as [i pos].
    destruct (pos <? 0); [exact Hun|].
    destruct (truthy level); destruct (truthy reset); simpl snd;
      try exact Hun;
      repeat match goal with
             | |- context [if ?c then _ else _] => destruct c
             end;
      repeat (apply unwatched_wr_all;
              [intros s; split; [|left]; reflexivity|]);
      exact Hun.
  - apply unwatched_ISR. exact Hun.
Qed.

Lemma unwatched_boot p : unwatched p (boot_state p).
Proof.
  intros j Hj _. unfold rd.
  destruct (schedlist (boot_state p) !! Z.to_nat j) as [s|] eqn:E;
    [|reflexivity].
  change (schedlist (boot_state p)) with (replicate 11 sched_zero) in E.
  apply lookup_replicate in E as [-> _]. reflexivity.
Qed.

Lemma unwatched_run_ops p ops : forall st,
  wf st -> unwatched p st ->
  wf (run_ops p ops st) /\ unwatched p (run_ops p ops st).
Proof.
  induction ops as [|o ops IH]; intros st Hwf Hun; [split; assumption|].
  apply IH; [apply wf_run_op|apply unwatched_run_op]; assumption.
Qed.

(** X23: an id outside the pin range never reports an edge.  From
    program start on, whatever the foreground calls and however often
    the interrupt is served, [sched_pin_gohigh] and [sched_pin_golow] on
    a negative id or an id above [MAX_DIGITAL_PIN] answer 0 and change
    nothing: such an id is a plain timer, never debounced. *)
Theorem timer_ids_never_report_edges p ops ident :
  ident < 0 \/ MAX_DIGITAL_PIN p < ident ->
  let st := run_ops p ops (boot_state p) in
  sched_pin_gohigh ident st = (0, st) /\ sched_pin_golow ident st = (0, st).
Proof.
  intros Hid st.
  destruct (unwatched_run_ops p ops (boot_state p) (wf_boot_state p)
              (unwatched_boot p)) as [Hwf Hun].
  fold st in Hwf, Hun.
  destruct (Z.le_gt_cases 0 (snd (find_ident ident st))) as [Hf|Hf].
  - destruct (find_ident_found ident st _ eq_refl Hf) as [Hlt Hi].
    assert (Hb : 0 <= snd (find_ident ident st) <
                 Z.of_nat (length (schedlist st)))
      by (apply wf_slot_bound; [exact Hwf|lia]).
    assert (Hch : debounce_change (rd st (snd (find_ident ident st))) = 0).
    { apply Hun; [exact Hf|]. right. unfold is_pin. rewrite Hi.
      destruct Hid as [?|?];
        [apply andb_false_iff; left; apply Z.leb_gt; lia
        |apply andb_false_iff; right; apply Z.leb_gt; lia]. }
    destruct (truthy (active (rd st (snd (find_ident ident st))))) eqn:Hact.
    + rewrite (sched_pin_gohigh_active ident st _ Hwf eq_refl Hf Hact).
      rewrite (sched_pin_golow_active ident st _ Hwf eq_refl Hf Hact).
      rewrite Hch. change (truthy 0) with false. simpl.
      rewrite wr_same
        by (try apply set_debounce_change_same; assumption).
      split; reflexivity.
    + destruct (pin_queries_inactive ident 0 st _ eq_refl Hf Hact)
        as (Q1 & Q2 & _).
      split; assumption.
  - destruct (queries_not_found p (all_pins 0 false) ident 0 0 0 0 st
                ltac:(lia)) as (_ & Q).
    destruct Q as (Q1 & Q2 & _). split; assumption.
Qed.

Lemma timer_ids_never_report_edges_witness :
  sched_pin_gohigh 20
    (run_ops Arduino [OpInit (all_pins 0 false) 0;
                      OpEvent (all_pins 0 false) 20 1 1;
                      OpISR (all_pins 1 true); OpCheck (all_pins 1 true) 20]
       (boot_state Arduino)) =
  (0, run_ops Arduino [OpInit (all_pins 0 false) 0;
                       OpEvent (all_pins 0 false) 20 1 1;
                       OpISR (all_pins 1 true); OpCheck (all_pins 1 true) 20]
        (boot_state Arduino)).
Proof.
  destruct (timer_ids_never_report_edges Arduino
              [OpInit (all_pins 0 false) 0;
               OpEvent (all_pins 0 false) 20 1 1;
               OpISR (all_pins 1 true); OpCheck (all_pins 1 true) 20] 20)
    as [H _].
  - right. simpl. lia.
  - exact H.
Defined.

(** * A query of the edge count under preemption *)

Lemma count_step_plain f st :
  truthy (f_reset f) = false ->
  f_pc f = PcRead \/ f_pc f = PcTest \/ f_pc f = PcDone ->
  snd (count_step f st) = st /\
  truthy (f_reset (fst (count_step f st))) = false /\
  (f_pc (fst (count_step f st)) = PcRead \/
   f_pc (fst (count_step f st)) = PcTest \/
   f_pc (fst (count_step f st)) = PcDone).
Proof.
  intros Hr Hpc. unfold count_step.
  destruct Hpc as [E|[E|E]]; rewrite E.
  - destruct (truthy (f_level f)); simpl; auto.
  - rewrite Hr.
    destruct (if truthy (f_level f)
              then negb (f_holdup f =? event_ct_up (rd st (f_pos f)))
              else negb (f_holddown f =? event_ct_down (rd st (f_pos f))));
      simpl; auto.
  - auto.
Qed.

Lemma run_schedule_plain p xs : forall f f' st,
  truthy (f_reset f) = false ->
  f_pc f = PcRead \/ f_pc f = PcTest \/ f_pc f = PcDone ->
  snd (run_schedule p xs (f, st)) =
  snd (run_schedule p (interrupts_of xs) (f', st)).
Proof.
  induction xs as [|x xs IH]; intros f f' st Hr Hpc; [reflexivity|].
  destruct x as [|e].
  - simpl interrupts_of.
    change (run_schedule p (Fg :: xs) (f, st))
      with (run_schedule p xs (count_step f st)).
    destruct (count_step_plain f st Hr Hpc) as (E & Hr' & Hpc').
    destruct (count_step f st) as [f1 st1]. simpl in E, Hr', Hpc'. subst st1.
    apply IH; assumption.
  - simpl interrupts_of.
    change (run_schedule p (Irq e :: xs) (f, st))
      with (run_schedule p xs (f, ISR p e st)).
    change (run_schedule p (Irq e :: interrupts_of xs) (f', st))
      with (run_schedule p (interrupts_of xs) (f', ISR p e st)).
    apply IH; assumption.
Qed.

(** X24: a query of the edge count that does not reset never disturbs
    the table, however the interrupt preempts it.  Along any schedule of
    foreground accesses and interrupts the variables end up exactly as
    the interrupts alone leave them, so no edge is lost to a plain read,
    unlike to a resetting one. *)
Theorem plain_count_never_disturbs_the_table p ident level h1 h2 xs st :
  snd (run_schedule p xs (count_enter ident level 0 h1 h2 st, st)) =
  snd (run_schedule p (interrupts_of xs)
         (count_enter ident level 0 h1 h2 st, st)).
Proof.
  apply run_schedule_plain; unfold count_enter;
    destruct (find_ident ident st) as [i pos]; destruct (pos <? 0); simpl;
    auto.
Qed.
